(** * Pipeline cache of the Vulkan renderer: a shallow embedding

    This development embeds [video_core/renderer_vulkan/vk_pipeline_cache.cpp]
    and proves properties of the pipeline-key builder, the shader-program
    cache and the pipeline-object cache.

    Conventions.
    - [u32]/[u64] values are [Z] with the wrap-around written out
      ([wrap32], [wrap64]).
    - Register blocks are records holding the bit-fields and accessor
      results the source reads from them.
    - Everything the source uses but does not define (enumerator values,
      array sizes, the format tables, the shader translator, the driver) is
      a member of the class [Externals]; no value of it is assumed beyond
      what a theorem states as a hypothesis.
    - Logging and the shader dump to disk have no effect on the cache and
      are left out. *)

From stdpp Require Import base decidable countable list gmap.
From Stdlib Require Import ZArith Lia.

Local Open Scope Z_scope.

(** ** Machine integers *)

Definition wrap32 (x : Z) : Z := x mod 2 ^ 32.
Definition wrap64 (x : Z) : Z := x mod 2 ^ 64.

(** [u8(x)]: the cast of the fragment-input fields. *)
Definition wrap8 (x : Z) : Z := x mod 2 ^ 8.

(** [HashCombine(seed, hash)]:
    [seed ^ (hash + 0x9e3779b9 + (seed << 6) + (seed >> 2))] on [u64]. *)
Definition HashCombine (seed hash : Z) : Z :=
  Z.lxor seed
    (wrap64 (wrap64 (wrap64 (hash + 0x9e3779b9) + wrap64 (Z.shiftl seed 6))
             + Z.shiftr seed 2)).

(** ** Shader stages and runtime info

    [Shader::Stage] is declared by the shader recompiler; the source names
    three of its enumerators, the others are kept by their value. *)

Inductive Stage := Vertex | Fragment | Compute | OtherStage (raw : nat).

#[global] Instance Stage_eq_dec : EqDecision Stage.
Proof. solve_decision. Defined.

Module VsOutput.

Inductive t :=
| None | PointSprite | EdgeFlag | KillFlag | GsCutFlag | GsMrtIndex | GsVpIndex
| CullDist0 | CullDist1 | CullDist2 | CullDist3
| CullDist4 | CullDist5 | CullDist6 | CullDist7
| ClipDist0 | ClipDist1 | ClipDist2 | ClipDist3
| ClipDist4 | ClipDist5 | ClipDist6 | ClipDist7.

#[global] Instance eq_dec : EqDecision t.
Proof. solve_decision. Defined.

End VsOutput.

(** [Shader::VsOutputMap{x, y, z, w}]. *)
Definition VsOutputMap : Type := VsOutput.t * VsOutput.t * VsOutput.t * VsOutput.t.

Record VertexRuntimeInfo := {
  outputs : list VsOutputMap;
  emulate_depth_negative_one_to_one : bool;
}.

Record PsInput := {
  param_index : Z;
  is_default : bool;
  is_flat : bool;
  default_value : Z;
}.

Record FragmentRuntimeInfo := {
  fs_mrt_swizzles : list Z;
  inputs : list PsInput;
}.

Record ComputeRuntimeInfo := {
  workgroup_size : Z * Z * Z;
  tgid_enable : bool * bool * bool;
  shared_memory_size : Z;
}.

Record RuntimeInfo := {
  stage : Stage;
  num_user_data : Z;
  num_input_vgprs : Z;
  num_allocated_vgprs : Z;
  vs_info : VertexRuntimeInfo;
  fs_info : FragmentRuntimeInfo;
  cs_info : ComputeRuntimeInfo;
}.

#[global] Instance VertexRuntimeInfo_eq_dec : EqDecision VertexRuntimeInfo.
Proof. solve_decision. Defined.
#[global] Instance PsInput_eq_dec : EqDecision PsInput.
Proof. solve_decision. Defined.
#[global] Instance FragmentRuntimeInfo_eq_dec : EqDecision FragmentRuntimeInfo.
Proof. solve_decision. Defined.
#[global] Instance ComputeRuntimeInfo_eq_dec : EqDecision ComputeRuntimeInfo.
Proof. solve_decision. Defined.
#[global] Instance RuntimeInfo_eq_dec : EqDecision RuntimeInfo.
Proof. solve_decision. Defined.

(** [Shader::RuntimeInfo{stage}]: every other member value-initialised. *)
Definition RuntimeInfo_init (s : Stage) : RuntimeInfo :=
  {| stage := s; num_user_data := 0; num_input_vgprs := 0; num_allocated_vgprs := 0;
     vs_info := {| outputs := []; emulate_depth_negative_one_to_one := false |};
     fs_info := {| fs_mrt_swizzles := []; inputs := [] |};
     cs_info := {| workgroup_size := (0, 0, 0); tgid_enable := (false, false, false);
                   shared_memory_size := 0 |} |}.

(** Modelled from the spec: the specialization descriptor
    ([Shader::StageSpecialization], declared outside this file's source) is
    "runtime info + starting binding index", and two descriptors are equal
    when both members are. *)
Record StageSpecialization := {
  spec_runtime_info : RuntimeInfo;
  start_binding : Z;
}.

#[global] Instance StageSpecialization_eq_dec : EqDecision StageSpecialization.
Proof. solve_decision. Defined.

(** ** The register snapshot ([liverpool->regs])

    The register file is declared outside this file's source.  Each block
    is a record of the bit-fields and accessor results the cache reads;
    [ProgramForStage] and [IsStageEnabled] are kept as the functions of the
    stage index the source calls, next to the program registers
    ([vs_program], [ps_program], [cs_program]) the runtime-info builder
    names.  [Liverpool::GetBinaryInfo] reads the header stored with the
    program's code: the model keeps it as a member of the program. *)

Record BinaryInfo := {
  Valid : bool;
  shader_hash : Z;
}.

Record ShaderSettings := {
  num_user_regs : Z;
  vgpr_comp_cnt : Z;
  num_vgprs : Z;
}.

Record ShaderProgram := {
  Address : Z;
  settings : ShaderSettings;
  user_data : list Z;
  Code : list Z;
  bininfo : BinaryInfo;   (* Liverpool::GetBinaryInfo( *pgm ) *)
}.

Record ComputeProgram := {
  cs_settings : ShaderSettings;
  cs_user_data : list Z;
  cs_Code : list Z;
  cs_bininfo : BinaryInfo;
  num_thread_x : Z;
  num_thread_y : Z;
  num_thread_z : Z;
  IsTgidEnabled : nat -> bool;
  SharedMemSize : Z;
}.

Record ShaderParams := {
  params_user_data : list Z;
  params_code : list Z;
  hash : Z;
}.

(** Modelled from the spec: [Liverpool::GetParams] (declared outside this
    file's source) hands the program's user data and code to the cache
    together with the content hash of its binary-info header. *)
Definition GetParams (pgm : ShaderProgram) : ShaderParams :=
  {| params_user_data := user_data pgm; params_code := Code pgm;
     hash := shader_hash (bininfo pgm) |}.

(** Modelled from the spec: [Liverpool::GetParams] on the compute program
    register, as above. *)
Definition GetParams_cs (pgm : ComputeProgram) : ShaderParams :=
  {| params_user_data := cs_user_data pgm; params_code := cs_Code pgm;
     hash := shader_hash (cs_bininfo pgm) |}.

Record VsOutputControl := {
  use_vtx_point_size : bool;
  use_vtx_edge_flag : bool;
  use_vtx_gs_cut_flag : bool;
  use_vtx_kill_flag : bool;
  use_vtx_render_target_idx : bool;
  use_vtx_viewport_idx : bool;
  IsClipDistEnabled : nat -> bool;
  IsCullDistEnabled : nat -> bool;
}.

Record PsInputControl := {
  input_offset : Z;
  use_default : bool;
  flat_shade : bool;
  ps_default_value : Z;
}.

Record DepthControl := {
  stencil_enable : bool;
  depth_enable : bool;
  depth_write_enable : bool;
  depth_control_rest : Z;   (* the bits the key builder copies untouched *)
}.

Record BlendControl := {
  enable : bool;
  blend_control_rest : Z;
}.

Record PolygonControl := {
  NeedsBias : bool;
  PolyMode : Z;
  CullingMode : Z;
  front_face_reg : Z;
}.

Record ColorBuffer := {
  bound : bool;          (* operator bool: the buffer has a base address *)
  format : Z;            (* info.format *)
  NumFormat : Z;
  comp_swap : Z;         (* info.comp_swap *)
  blend_bypass : bool;   (* info.blend_bypass *)
}.

Record Regs := {
  primitive_type : Z;
  color_control_mode : Z;
  depth_control : DepthControl;
  depth_clear_enable : bool;         (* depth_render_control *)
  polygon_control : PolygonControl;
  z_info_format : Z;                 (* depth_buffer.z_info.format *)
  stencil_info_format : Z;           (* depth_buffer.stencil_info.format *)
  stencil_control : Z;
  enable_primitive_restart_reg : Z;
  primitive_restart_index_reg : Z;
  clipper_clip_space : Z;            (* clipper_control.clip_space *)
  NumSamples : Z;                    (* aa_config.NumSamples() *)
  color_buffers : nat -> ColorBuffer;
  blend_control : nat -> BlendControl;
  color_target_mask : Z;
  color_shader_mask : Z;
  IsStageEnabled : nat -> bool;      (* stage_enable.IsStageEnabled(i) *)
  ProgramForStage : nat -> option ShaderProgram;
  vs_program : ShaderProgram;
  ps_program : ShaderProgram;
  cs_program : ComputeProgram;
  vs_output_control : VsOutputControl;
  ps_inputs : nat -> PsInputControl;
  num_interp : nat;
}.

(** ** What the source uses and does not define *)

Class Externals := {
  (** array sizes *)
  MaxShaderStages : nat;
  NumColorBuffers : nat;
  (** [Shader::StageFromIndex] and [u32(Shader::Stage::Fragment)] *)
  StageFromIndex : nat -> Stage;
  FragmentIndex : nat;
  (** enumerators of the register and Vulkan enumerations *)
  PatchPrimitive : Z;
  PrimitiveNone : Z;
  OperationDisable : Z;
  EliminateFastClear : Z;
  FmaskDecompress : Z;
  ZFormatInvalid : Z;
  StencilFormatInvalid : Z;
  eUndefined : Z;
  SwapStandard : Z;
  MinusWToW : Z;
  (** [LiverpoolToVK] *)
  DepthFormat : Z -> Z -> Z;
  SurfaceFormat : Z -> Z -> Z;
  AdjustColorBufferFormat : Z -> Z -> bool -> Z;
  (** [ColorBufferMask::GetMask] and [SetMask] on the raw register *)
  GetMask : Z -> nat -> Z;
  SetMask : Z -> nat -> Z -> Z;
  (** [Instance::IsDepthClipControlSupported] *)
  IsDepthClipControlSupported : bool;
  (** the shader recompiler: [Shader::Info], its constructor, the two members
      the cache reads, the translator and the SPIR-V emitter (which moves the
      binding cursor) *)
  Info : Type;
  IRProgram : Type;
  NewInfo : Stage -> ShaderParams -> Info;
  info_mrt_mask : Info -> Z;
  NumBindings : Info -> Z;
  TranslateProgram : list Z -> Info -> RuntimeInfo -> IRProgram * Info;
  EmitSPIRV : RuntimeInfo -> IRProgram -> Z -> list Z * Z;
}.

(** ** The graphics pipeline key

    [GraphicsPipelineKey] with the members the key builder writes.  The key
    is compared and hashed byte-wise by the pipeline map; on this record that
    is Leibniz equality. *)

#[global] Instance DepthControl_eq_dec : EqDecision DepthControl.
Proof. solve_decision. Defined.
#[global] Instance BlendControl_eq_dec : EqDecision BlendControl.
Proof. solve_decision. Defined.

#[global] Instance BlendControl_inhabited : Inhabited BlendControl :=
  populate (Build_BlendControl false 0).

#[global] Instance DepthControl_countable : Countable DepthControl.
Proof.
  refine (inj_countable'
    (fun d => (stencil_enable d, depth_enable d, depth_write_enable d, depth_control_rest d))
    (fun '(a, b, c, r) => Build_DepthControl a b c r) _).
  by intros [].
Defined.

#[global] Instance BlendControl_countable : Countable BlendControl.
Proof.
  refine (inj_countable' (fun b => (enable b, blend_control_rest b))
                         (fun '(e, r) => Build_BlendControl e r) _).
  by intros [].
Defined.

Record GraphicsPipelineKey := {
  stage_hashes : list Z;
  color_formats : list Z;
  mrt_swizzles : list Z;
  blend_controls : list BlendControl;
  write_masks : list Z;
  cb_shader_mask : Z;
  mrt_mask : Z;
  depth_format : Z;
  stencil_format : Z;
  depth_stencil : DepthControl;
  depth_bias_enable : bool;
  stencil : Z;
  prim_type : Z;
  enable_primitive_restart : Z;
  primitive_restart_index : Z;
  polygon_mode : Z;
  cull_mode : Z;
  clip_space : Z;
  front_face : Z;
  num_samples : Z;
}.

#[global] Instance GraphicsPipelineKey_eq_dec : EqDecision GraphicsPipelineKey.
Proof. solve_decision. Defined.

#[global] Instance GraphicsPipelineKey_countable : Countable GraphicsPipelineKey.
Proof.
  refine (inj_countable'
    (fun k =>
      (stage_hashes k, color_formats k, mrt_swizzles k, blend_controls k, write_masks k,
       cb_shader_mask k, mrt_mask k, depth_format k, stencil_format k, depth_stencil k,
       depth_bias_enable k, stencil k, prim_type k, enable_primitive_restart k,
       primitive_restart_index k, polygon_mode k, cull_mode k, clip_space k,
       front_face k, num_samples k))
    (fun '(a0, a1, a2, a3, a4, a5, a6, a7, a8, a9, a10, a11, a12, a13, a14, a15, a16, a17,
        a18, a19) =>
       Build_GraphicsPipelineKey
         a0 a1 a2 a3 a4 a5 a6 a7 a8 a9 a10 a11 a12 a13 a14 a15 a16 a17 a18 a19) _).
  by intros [].
Defined.

(** Member assignments [key.member = v]. *)

Definition set_stage_hashes (v : list Z) (k : GraphicsPipelineKey)
  : GraphicsPipelineKey :=
  {| stage_hashes := v; color_formats := color_formats k;
     mrt_swizzles := mrt_swizzles k; blend_controls := blend_controls k;
     write_masks := write_masks k; cb_shader_mask := cb_shader_mask k;
     mrt_mask := mrt_mask k; depth_format := depth_format k;
     stencil_format := stencil_format k; depth_stencil := depth_stencil k;
     depth_bias_enable := depth_bias_enable k; stencil := stencil k;
     prim_type := prim_type k; enable_primitive_restart := enable_primitive_restart k;
     primitive_restart_index := primitive_restart_index k;
     polygon_mode := polygon_mode k; cull_mode := cull_mode k;
     clip_space := clip_space k; front_face := front_face k;
     num_samples := num_samples k |}.

Definition set_color_formats (v : list Z) (k : GraphicsPipelineKey)
  : GraphicsPipelineKey :=
  {| stage_hashes := stage_hashes k; color_formats := v; mrt_swizzles := mrt_swizzles k;
     blend_controls := blend_controls k; write_masks := write_masks k;
     cb_shader_mask := cb_shader_mask k; mrt_mask := mrt_mask k;
     depth_format := depth_format k; stencil_format := stencil_format k;
     depth_stencil := depth_stencil k; depth_bias_enable := depth_bias_enable k;
     stencil := stencil k; prim_type := prim_type k;
     enable_primitive_restart := enable_primitive_restart k;
     primitive_restart_index := primitive_restart_index k;
     polygon_mode := polygon_mode k; cull_mode := cull_mode k;
     clip_space := clip_space k; front_face := front_face k;
     num_samples := num_samples k |}.

Definition set_mrt_swizzles (v : list Z) (k : GraphicsPipelineKey)
  : GraphicsPipelineKey :=
  {| stage_hashes := stage_hashes k; color_formats := color_formats k;
     mrt_swizzles := v; blend_controls := blend_controls k;
     write_masks := write_masks k; cb_shader_mask := cb_shader_mask k;
     mrt_mask := mrt_mask k; depth_format := depth_format k;
     stencil_format := stencil_format k; depth_stencil := depth_stencil k;
     depth_bias_enable := depth_bias_enable k; stencil := stencil k;
     prim_type := prim_type k; enable_primitive_restart := enable_primitive_restart k;
     primitive_restart_index := primitive_restart_index k;
     polygon_mode := polygon_mode k; cull_mode := cull_mode k;
     clip_space := clip_space k; front_face := front_face k;
     num_samples := num_samples k |}.

Definition set_blend_controls (v : list BlendControl) (k : GraphicsPipelineKey)
  : GraphicsPipelineKey :=
  {| stage_hashes := stage_hashes k; color_formats := color_formats k;
     mrt_swizzles := mrt_swizzles k; blend_controls := v; write_masks := write_masks k;
     cb_shader_mask := cb_shader_mask k; mrt_mask := mrt_mask k;
     depth_format := depth_format k; stencil_format := stencil_format k;
     depth_stencil := depth_stencil k; depth_bias_enable := depth_bias_enable k;
     stencil := stencil k; prim_type := prim_type k;
     enable_primitive_restart := enable_primitive_restart k;
     primitive_restart_index := primitive_restart_index k;
     polygon_mode := polygon_mode k; cull_mode := cull_mode k;
     clip_space := clip_space k; front_face := front_face k;
     num_samples := num_samples k |}.

Definition set_write_masks (v : list Z) (k : GraphicsPipelineKey)
  : GraphicsPipelineKey :=
  {| stage_hashes := stage_hashes k; color_formats := color_formats k;
     mrt_swizzles := mrt_swizzles k; blend_controls := blend_controls k;
     write_masks := v; cb_shader_mask := cb_shader_mask k; mrt_mask := mrt_mask k;
     depth_format := depth_format k; stencil_format := stencil_format k;
     depth_stencil := depth_stencil k; depth_bias_enable := depth_bias_enable k;
     stencil := stencil k; prim_type := prim_type k;
     enable_primitive_restart := enable_primitive_restart k;
     primitive_restart_index := primitive_restart_index k;
     polygon_mode := polygon_mode k; cull_mode := cull_mode k;
     clip_space := clip_space k; front_face := front_face k;
     num_samples := num_samples k |}.

Definition set_cb_shader_mask (v : Z) (k : GraphicsPipelineKey)
  : GraphicsPipelineKey :=
  {| stage_hashes := stage_hashes k; color_formats := color_formats k;
     mrt_swizzles := mrt_swizzles k; blend_controls := blend_controls k;
     write_masks := write_masks k; cb_shader_mask := v; mrt_mask := mrt_mask k;
     depth_format := depth_format k; stencil_format := stencil_format k;
     depth_stencil := depth_stencil k; depth_bias_enable := depth_bias_enable k;
     stencil := stencil k; prim_type := prim_type k;
     enable_primitive_restart := enable_primitive_restart k;
     primitive_restart_index := primitive_restart_index k;
     polygon_mode := polygon_mode k; cull_mode := cull_mode k;
     clip_space := clip_space k; front_face := front_face k;
     num_samples := num_samples k |}.

Definition set_mrt_mask (v : Z) (k : GraphicsPipelineKey)
  : GraphicsPipelineKey :=
  {| stage_hashes := stage_hashes k; color_formats := color_formats k;
     mrt_swizzles := mrt_swizzles k; blend_controls := blend_controls k;
     write_masks := write_masks k; cb_shader_mask := cb_shader_mask k; mrt_mask := v;
     depth_format := depth_format k; stencil_format := stencil_format k;
     depth_stencil := depth_stencil k; depth_bias_enable := depth_bias_enable k;
     stencil := stencil k; prim_type := prim_type k;
     enable_primitive_restart := enable_primitive_restart k;
     primitive_restart_index := primitive_restart_index k;
     polygon_mode := polygon_mode k; cull_mode := cull_mode k;
     clip_space := clip_space k; front_face := front_face k;
     num_samples := num_samples k |}.

(** ** The cache *)

Section Model.
Context `{Externals}.

(** The compiled-in denylist of [ShouldSkipShader].  The table is edited
    in the source by the operator (the listed hashes are commented out); the
    model keeps it as a variable and [shipped_skip_hashes] below is the table
    as shipped. *)
Variable skip_hashes : list Z.

(** [Program::Module] and [Program]: one entry per content hash, one module
    per permutation.  A [vk::ShaderModule] is the handle the driver returned:
    the position of its compilation in [compiled]. *)
Record ProgramModule := {
  module : nat;
  spec : StageSpecialization;
}.

Record Program := {
  info : Info;
  program_modules : list ProgramModule;
}.

Record GraphicsPipeline := {
  gp_key : GraphicsPipelineKey;
  gp_infos : nat -> option Info;
  gp_modules : nat -> nat;
}.

Record ComputePipeline := {
  cp_key : Z;
  cp_info : option Info;
  cp_module : nat;
}.

(** The members of [PipelineCache] the source reads and writes.  A pipeline
    pointer is the position of the object in its pool.  [compiled] is the
    trace of the translator: the content hash and permutation index of every
    [CompileModule] call, oldest first. *)
Record PipelineCache := {
  graphics_key : GraphicsPipelineKey;
  compute_key : Z;
  infos : nat -> option Info;
  modules : nat -> nat;
  program_cache : gmap Z Program;
  graphics_pipelines : gmap GraphicsPipelineKey nat;
  compute_pipelines : gmap Z nat;
  graphics_pipeline_pool : list GraphicsPipeline;
  compute_pipeline_pool : list ComputePipeline;
  compiled : list (Z * nat);
}.

Definition set_graphics_key (v : GraphicsPipelineKey) (c : PipelineCache) : PipelineCache :=
  {| graphics_key := v; compute_key := compute_key c; infos := infos c;
     modules := modules c; program_cache := program_cache c;
     graphics_pipelines := graphics_pipelines c; compute_pipelines := compute_pipelines c;
     graphics_pipeline_pool := graphics_pipeline_pool c;
     compute_pipeline_pool := compute_pipeline_pool c; compiled := compiled c |}.

Definition set_compute_key (v : Z) (c : PipelineCache) : PipelineCache :=
  {| graphics_key := graphics_key c; compute_key := v; infos := infos c;
     modules := modules c; program_cache := program_cache c;
     graphics_pipelines := graphics_pipelines c; compute_pipelines := compute_pipelines c;
     graphics_pipeline_pool := graphics_pipeline_pool c;
     compute_pipeline_pool := compute_pipeline_pool c; compiled := compiled c |}.

Definition set_infos (v : nat -> option Info) (c : PipelineCache) : PipelineCache :=
  {| graphics_key := graphics_key c; compute_key := compute_key c; infos := v;
     modules := modules c; program_cache := program_cache c;
     graphics_pipelines := graphics_pipelines c; compute_pipelines := compute_pipelines c;
     graphics_pipeline_pool := graphics_pipeline_pool c;
     compute_pipeline_pool := compute_pipeline_pool c; compiled := compiled c |}.

Definition set_modules (v : nat -> nat) (c : PipelineCache) : PipelineCache :=
  {| graphics_key := graphics_key c; compute_key := compute_key c; infos := infos c;
     modules := v; program_cache := program_cache c;
     graphics_pipelines := graphics_pipelines c; compute_pipelines := compute_pipelines c;
     graphics_pipeline_pool := graphics_pipeline_pool c;
     compute_pipeline_pool := compute_pipeline_pool c; compiled := compiled c |}.

(** The program map and the translator's trace change together. *)
Definition set_programs (m : gmap Z Program) (t : list (Z * nat)) (c : PipelineCache)
  : PipelineCache :=
  {| graphics_key := graphics_key c; compute_key := compute_key c; infos := infos c;
     modules := modules c; program_cache := m;
     graphics_pipelines := graphics_pipelines c; compute_pipelines := compute_pipelines c;
     graphics_pipeline_pool := graphics_pipeline_pool c;
     compute_pipeline_pool := compute_pipeline_pool c; compiled := t |}.

Definition set_graphics_pipelines (m : gmap GraphicsPipelineKey nat)
    (p : list GraphicsPipeline) (c : PipelineCache) : PipelineCache :=
  {| graphics_key := graphics_key c; compute_key := compute_key c; infos := infos c;
     modules := modules c; program_cache := program_cache c;
     graphics_pipelines := m; compute_pipelines := compute_pipelines c;
     graphics_pipeline_pool := p;
     compute_pipeline_pool := compute_pipeline_pool c; compiled := compiled c |}.

Definition set_compute_pipelines (m : gmap Z nat) (p : list ComputePipeline)
    (c : PipelineCache) : PipelineCache :=
  {| graphics_key := graphics_key c; compute_key := compute_key c; infos := infos c;
     modules := modules c; program_cache := program_cache c;
     graphics_pipelines := graphics_pipelines c; compute_pipelines := m;
     graphics_pipeline_pool := graphics_pipeline_pool c;
     compute_pipeline_pool := p; compiled := compiled c |}.

(** [array[i] = v] on a fixed-size array of pointers or handles. *)
Definition assign {A} (i : nat) (v : A) (a : nat -> A) : nat -> A :=
  fun j => if decide (j = i) then v else a j.

(** [std::memset(&graphics_key, 0, sizeof(GraphicsPipelineKey))]. *)
Definition zero_key : GraphicsPipelineKey :=
  {| stage_hashes := replicate MaxShaderStages 0;
     color_formats := replicate NumColorBuffers 0;
     mrt_swizzles := replicate NumColorBuffers 0;
     blend_controls := replicate NumColorBuffers (Build_BlendControl false 0);
     write_masks := replicate NumColorBuffers 0;
     cb_shader_mask := 0; mrt_mask := 0; depth_format := 0; stencil_format := 0;
     depth_stencil := Build_DepthControl false false false 0;
     depth_bias_enable := false; stencil := 0; prim_type := 0;
     enable_primitive_restart := 0; primitive_restart_index := 0;
     polygon_mode := 0; cull_mode := 0; clip_space := 0; front_face := 0;
     num_samples := 0 |}.

(** The cache as the constructor leaves it. *)
Definition empty_cache : PipelineCache :=
  {| graphics_key := zero_key; compute_key := 0;
     infos := fun _ => None; modules := fun _ => 0%nat;
     program_cache := ∅; graphics_pipelines := ∅; compute_pipelines := ∅;
     graphics_pipeline_pool := []; compute_pipeline_pool := []; compiled := [] |}.

(** *** Runtime info *)

Definition add_output (x y z w : VsOutput.t) (outs : list VsOutputMap) : list VsOutputMap :=
  if decide (x ≠ VsOutput.None ∨ y ≠ VsOutput.None ∨ z ≠ VsOutput.None ∨ w ≠ VsOutput.None)
  then outs ++ [(x, y, z, w)]
  else outs.

Definition clip_or_cull (ctl : VsOutputControl) (i : nat) (clip cull : VsOutput.t)
  : VsOutput.t :=
  if IsClipDistEnabled ctl i then clip
  else if IsCullDistEnabled ctl i then cull else VsOutput.None.

Definition GatherVertexOutputs (outs : list VsOutputMap) (ctl : VsOutputControl)
  : list VsOutputMap :=
  (* VS_OUT_MISC_VEC *)
  let outs :=
    add_output
      (if use_vtx_point_size ctl then VsOutput.PointSprite else VsOutput.None)
      (if use_vtx_edge_flag ctl then VsOutput.EdgeFlag
       else if use_vtx_gs_cut_flag ctl then VsOutput.GsCutFlag else VsOutput.None)
      (if use_vtx_kill_flag ctl then VsOutput.KillFlag
       else if use_vtx_render_target_idx ctl then VsOutput.GsMrtIndex else VsOutput.None)
      (if use_vtx_viewport_idx ctl then VsOutput.GsVpIndex else VsOutput.None)
      outs in
  (* VS_OUT_CCDIST0 *)
  let outs :=
    add_output
      (clip_or_cull ctl 0 VsOutput.ClipDist0 VsOutput.CullDist0)
      (clip_or_cull ctl 1 VsOutput.ClipDist1 VsOutput.CullDist1)
      (clip_or_cull ctl 2 VsOutput.ClipDist2 VsOutput.CullDist2)
      (clip_or_cull ctl 3 VsOutput.ClipDist3 VsOutput.CullDist3)
      outs in
  (* VS_OUT_CCDIST1 *)
  add_output
    (clip_or_cull ctl 4 VsOutput.ClipDist4 VsOutput.CullDist4)
    (clip_or_cull ctl 5 VsOutput.ClipDist5 VsOutput.CullDist5)
    (clip_or_cull ctl 6 VsOutput.ClipDist6 VsOutput.CullDist6)
    (clip_or_cull ctl 7 VsOutput.ClipDist7 VsOutput.CullDist7)
    outs.

Definition fs_input (regs : Regs) (i : nat) : PsInput :=
  let inp := ps_inputs regs i in
  {| param_index := wrap8 (input_offset inp);
     is_default := use_default inp;
     is_flat := flat_shade inp;
     default_value := wrap8 (ps_default_value inp) |}.

(** [BuildRuntimeInfo(stage)]; the fragment case reads the swizzles of the
    key being built. *)
Definition BuildRuntimeInfo (s : Stage) (regs : Regs) (key : GraphicsPipelineKey)
  : RuntimeInfo :=
  let info := RuntimeInfo_init s in
  match s with
  | Vertex =>
      {| stage := s;
         num_user_data := num_user_regs (settings (vs_program regs));
         num_input_vgprs := vgpr_comp_cnt (settings (vs_program regs));
         num_allocated_vgprs := wrap32 (num_vgprs (settings (vs_program regs)) * 4);
         vs_info :=
           {| outputs := GatherVertexOutputs (outputs (vs_info info)) (vs_output_control regs);
              emulate_depth_negative_one_to_one :=
                negb IsDepthClipControlSupported
                && bool_decide (clipper_clip_space regs = MinusWToW) |};
         fs_info := fs_info info; cs_info := cs_info info |}
  | Fragment =>
      {| stage := s;
         num_user_data := num_user_regs (settings (ps_program regs));
         num_input_vgprs := num_input_vgprs info;
         num_allocated_vgprs := wrap32 (num_vgprs (settings (ps_program regs)) * 4);
         vs_info := vs_info info;
         fs_info :=
           {| fs_mrt_swizzles := mrt_swizzles key;
              inputs := inputs (fs_info info) ++ map (fs_input regs) (seq 0 (num_interp regs)) |};
         cs_info := cs_info info |}
  | Compute =>
      let cs_pgm := cs_program regs in
      {| stage := s;
         num_user_data := num_user_regs (cs_settings cs_pgm);
         num_input_vgprs := num_input_vgprs info;
         num_allocated_vgprs := wrap32 (num_vgprs (cs_settings cs_pgm) * 4);
         vs_info := vs_info info; fs_info := fs_info info;
         cs_info :=
           {| workgroup_size := (num_thread_x cs_pgm, num_thread_y cs_pgm, num_thread_z cs_pgm);
              tgid_enable := (IsTgidEnabled cs_pgm 0, IsTgidEnabled cs_pgm 1,
                              IsTgidEnabled cs_pgm 2);
              shared_memory_size := SharedMemSize cs_pgm |} |}
  | OtherStage _ => info
  end.

(** *** The denylist *)

Definition ShouldSkipShader (shader_hash : Z) : bool :=
  bool_decide (shader_hash ∈ skip_hashes).

(** *** The shader program cache *)

(** [CompileModule(info, runtime_info, code, perm_idx, binding)]: translate,
    emit (the emitter moves the binding cursor), create the module.  Returns
    the translated info, the module handle and the cursor; [pgm_hash] is the
    content hash the call is logged under ([info.pgm_hash]). *)
Definition CompileModule (info0 : Info) (runtime_info : RuntimeInfo) (code : list Z)
    (pgm_hash : Z) (perm_idx : nat) (binding : Z) (trace : list (Z * nat))
  : Info * nat * Z * list (Z * nat) :=
  let '(ir_program, info1) := TranslateProgram code info0 runtime_info in
  let '(spv, binding1) := EmitSPIRV runtime_info ir_program binding in
  let module := length trace in
  (info1, module, binding1, trace ++ [(pgm_hash, perm_idx)]).

(** [std::ranges::find(program->modules, spec, &Program::Module::spec)]. *)
Definition find_permutation (s : StageSpecialization) (ms : list ProgramModule)
  : option (nat * ProgramModule) :=
  list_find (fun m => spec m = s) ms.

(** [GetProgram(stage, params, binding)]: the tuple (info, module, dedup
    hash), the binding cursor and the cache afterwards. *)
Definition GetProgram (s : Stage) (params : ShaderParams) (binding : Z)
    (regs : Regs) (c : PipelineCache)
  : (Info * nat * Z) * Z * PipelineCache :=
  let runtime_info := BuildRuntimeInfo s regs (graphics_key c) in
  match program_cache c !! hash params with
  | None =>
      (* new_program *)
      let start_binding := binding in
      let '(pinfo, m, binding1, trace) :=
        CompileModule (NewInfo s params) runtime_info (params_code params)
                      (hash params) 0 binding (compiled c) in
      let sp := Build_StageSpecialization runtime_info start_binding in
      let program := {| info := pinfo; program_modules := [Build_ProgramModule m sp] |} in
      ((pinfo, m, HashCombine (hash params) 0), binding1,
       set_programs (<[hash params := program]> (program_cache c)) trace c)
  | Some program =>
      let sp := Build_StageSpecialization runtime_info binding in
      let perm_idx := length (program_modules program) in
      match find_permutation sp (program_modules program) with
      | None =>
          let '(_, m, binding1, trace) :=
            CompileModule (NewInfo s params) runtime_info (params_code params)
                          (hash params) perm_idx binding (compiled c) in
          let program1 :=
            {| info := info program;
               program_modules := program_modules program ++ [Build_ProgramModule m sp] |} in
          ((info program, m, HashCombine (hash params) (Z.of_nat perm_idx)), binding1,
           set_programs (<[hash params := program1]> (program_cache c)) trace c)
      | Some (idx, pm) =>
          ((info program, module pm, HashCombine (hash params) (Z.of_nat idx)),
           wrap32 (binding + NumBindings (info program)), c)
      end
  end.

(** *** The pipeline key builder *)

(** Lines 217-265: the key is zeroed, then the depth, stencil and raster
    members are read from the register blocks and the colour arrays are
    filled with their defaults. *)
Definition key_prologue (regs : Regs) : GraphicsPipelineKey :=
  let dc := depth_control regs in
  let depth_write := depth_write_enable dc && negb (depth_clear_enable regs) in
  let ds_format := DepthFormat (z_info_format regs) (stencil_info_format regs) in
  let depth_fmt :=
    if decide (z_info_format regs ≠ ZFormatInvalid) then ds_format else eUndefined in
  let depth_en :=
    if depth_enable dc then bool_decide (depth_fmt ≠ eUndefined) else depth_enable dc in
  let stencil_fmt :=
    if decide (stencil_info_format regs ≠ StencilFormatInvalid) then depth_fmt
    else eUndefined in
  let stencil_en :=
    if stencil_enable dc then bool_decide (stencil_fmt ≠ eUndefined)
    else stencil_enable dc in
  {| stage_hashes := stage_hashes zero_key;
     color_formats := replicate NumColorBuffers eUndefined;
     mrt_swizzles := replicate NumColorBuffers SwapStandard;
     blend_controls := replicate NumColorBuffers (Build_BlendControl false 0);
     write_masks := replicate NumColorBuffers 0;
     cb_shader_mask := cb_shader_mask zero_key;
     mrt_mask := mrt_mask zero_key;
     depth_format := depth_fmt;
     stencil_format := stencil_fmt;
     depth_stencil :=
       {| stencil_enable := stencil_en; depth_enable := depth_en;
          depth_write_enable := depth_write;
          depth_control_rest := depth_control_rest dc |};
     depth_bias_enable := NeedsBias (polygon_control regs);
     stencil := stencil_control regs;
     prim_type := primitive_type regs;
     enable_primitive_restart := Z.land (enable_primitive_restart_reg regs) 1;
     primitive_restart_index := primitive_restart_index_reg regs;
     polygon_mode := PolyMode (polygon_control regs);
     cull_mode := CullingMode (polygon_control regs);
     clip_space := clipper_clip_space regs;
     front_face := front_face_reg (polygon_control regs);
     num_samples := NumSamples regs |}.

Definition skip_cb_binding (regs : Regs) : bool :=
  bool_decide (color_control_mode regs = OperationDisable).

(** The test both colour passes share:
    [skip_cb_binding || !col_buf || !regs.color_target_mask.GetMask(cb)]. *)
Definition cb_unbound (regs : Regs) (cb : nat) : bool :=
  skip_cb_binding regs || negb (bound (color_buffers regs cb))
  || bool_decide (GetMask (color_target_mask regs) cb = 0).

(** First pass over the colour buffers [cbs], next free slot [remapped_cb]. *)
Fixpoint first_pass (regs : Regs) (cbs : list nat) (remapped_cb : nat)
    (key : GraphicsPipelineKey) : GraphicsPipelineKey :=
  match cbs with
  | [] => key
  | cb :: cbs' =>
      let col_buf := color_buffers regs cb in
      if cb_unbound regs cb then first_pass regs cbs' remapped_cb key
      else
        let base_format := SurfaceFormat (format col_buf) (NumFormat col_buf) in
        let key :=
          set_color_formats
            (<[remapped_cb := AdjustColorBufferFormat base_format (comp_swap col_buf) false]>
               (color_formats key)) key in
        let key :=
          if decide (base_format = color_formats key !!! remapped_cb)
          then set_mrt_swizzles (<[remapped_cb := comp_swap col_buf]> (mrt_swizzles key)) key
          else key in
        first_pass regs cbs' (S remapped_cb) key
  end.

(** [(key.mrt_mask & (1u << cb)) == 0]. *)
Definition mrt_unused (mask : Z) (cb : nat) : bool :=
  bool_decide (Z.land mask (wrap32 (Z.shiftl 1 (Z.of_nat cb))) = 0).

(** Second pass: slots are cleared at the hardware index [cb], the blend
    control, write mask and shader mask are written at [remapped_cb]. *)
Fixpoint second_pass (regs : Regs) (cbs : list nat) (remapped_cb : nat)
    (key : GraphicsPipelineKey) : GraphicsPipelineKey :=
  match cbs with
  | [] => key
  | cb :: cbs' =>
      let col_buf := color_buffers regs cb in
      if cb_unbound regs cb || mrt_unused (mrt_mask key) cb then
        let key := set_color_formats (<[cb := eUndefined]> (color_formats key)) key in
        let key := set_mrt_swizzles (<[cb := SwapStandard]> (mrt_swizzles key)) key in
        second_pass regs cbs' remapped_cb key
      else
        let bc := blend_control regs cb in
        let key := set_blend_controls (<[remapped_cb := bc]> (blend_controls key)) key in
        let bc := blend_controls key !!! remapped_cb in
        let key :=
          set_blend_controls
            (<[remapped_cb := {| enable := enable bc && negb (blend_bypass col_buf);
                                 blend_control_rest := blend_control_rest bc |}]>
               (blend_controls key)) key in
        let key :=
          set_write_masks (<[remapped_cb := GetMask (color_target_mask regs) cb]>
                             (write_masks key)) key in
        let key :=
          set_cb_shader_mask
            (SetMask (cb_shader_mask key) remapped_cb (GetMask (color_shader_mask regs) cb))
            key in
        second_pass regs cbs' (S remapped_cb) key
  end.

(** [key.stage_hashes[i] = 0; infos[i] = nullptr; continue]. *)
Definition clear_stage (i : nat) (c : PipelineCache) : PipelineCache :=
  set_infos (assign i None (infos c))
    (set_graphics_key (set_stage_hashes (<[i := 0]> (stage_hashes (graphics_key c)))
                         (graphics_key c)) c).

(** The tessellation test of the stage loop:
    [regs.stage_enable.IsStageEnabled(3) && pgm->Address() != 0] with
    [pgm = regs.ProgramForStage(3)].  The source dereferences [pgm] unchecked;
    a null program there is read as not bound. *)
Definition tess_bound (regs : Regs) : bool :=
  IsStageEnabled regs 3
  && match ProgramForStage regs 3 with
     | Some pgm => bool_decide (Address pgm ≠ 0)
     | None => false
     end.

(** One iteration of the stage loop.  The boolean is [false] when the
    iteration executed [return false]. *)
Definition stage_step (regs : Regs) (i : nat) (binding : Z) (c : PipelineCache)
  : bool * Z * PipelineCache :=
  if negb (IsStageEnabled regs i) then (true, binding, clear_stage i c)
  else
    match ProgramForStage regs i with
    | None => (true, binding, clear_stage i c)
    | Some pgm =>
        if bool_decide (Address pgm = 0) then (true, binding, clear_stage i c)
        else if negb (Valid (bininfo pgm)) then (true, binding, clear_stage i c)
        else if ShouldSkipShader (shader_hash (bininfo pgm)) then (false, binding, c)
        else
          let s := StageFromIndex i in
          let params := GetParams pgm in
          if bool_decide (s ≠ Vertex) && bool_decide (s ≠ Fragment) then (false, binding, c)
          else if tess_bound regs then (false, binding, c)
          else
            let '((pinfo, m, h), binding1, c1) := GetProgram s params binding regs c in
            (true, binding1,
             set_modules (assign i m (modules c1))
               (set_infos (assign i (Some pinfo) (infos c1))
                  (set_graphics_key
                     (set_stage_hashes (<[i := h]> (stage_hashes (graphics_key c1)))
                        (graphics_key c1)) c1)))
    end.

Fixpoint stage_loop (regs : Regs) (stages : list nat) (binding : Z) (c : PipelineCache)
  : bool * Z * PipelineCache :=
  match stages with
  | [] => (true, binding, c)
  | i :: stages' =>
      let '(ok, binding1, c1) := stage_step regs i binding c in
      if ok then stage_loop regs stages' binding1 c1 else (false, binding1, c1)
  end.

(** [RefreshGraphicsKey()]. *)
Definition RefreshGraphicsKey (regs : Regs) (c : PipelineCache) : bool * PipelineCache :=
  let key := key_prologue regs in
  let key := first_pass regs (seq 0 NumColorBuffers) 0 key in
  let c := set_graphics_key key c in
  let '(ok, _, c) := stage_loop regs (seq 0 MaxShaderStages) 0 c in
  if ok then
    let key := graphics_key c in
    let key :=
      set_mrt_mask
        (match infos c FragmentIndex with
         | Some fs_info => info_mrt_mask fs_info
         | None => 0
         end) key in
    let key := second_pass regs (seq 0 NumColorBuffers) 0 key in
    (true, set_graphics_key key c)
  else (false, c).

(** [RefreshComputeKey()]. *)
Definition RefreshComputeKey (regs : Regs) (c : PipelineCache) : bool * PipelineCache :=
  let cs_params := GetParams_cs (cs_program regs) in
  if ShouldSkipShader (hash cs_params) then (false, c)
  else
    let '((pinfo, m, h), _, c1) := GetProgram Compute cs_params 0 regs c in
    (true,
     set_compute_key h
       (set_modules (assign 0%nat m (modules c1))
          (set_infos (assign 0%nat (Some pinfo) (infos c1)) c1))).

(** *** The pipeline object cache *)

(** [GetGraphicsPipeline()]: the pipeline pointer ([None] is [nullptr]) and
    the cache afterwards. *)
Definition GetGraphicsPipeline (regs : Regs) (c : PipelineCache)
  : option nat * PipelineCache :=
  (* Tessellation is unsupported so skip the draw to avoid locking up the driver. *)
  if bool_decide (primitive_type regs = PatchPrimitive) then (None, c)
  else if bool_decide (color_control_mode regs = EliminateFastClear) then (None, c)
  else if bool_decide (color_control_mode regs = FmaskDecompress) then (None, c)
  else if bool_decide (primitive_type regs = PrimitiveNone) then (None, c)
  else
    let '(ok, c1) := RefreshGraphicsKey regs c in
    if negb ok then (None, c1)
    else
      match graphics_pipelines c1 !! graphics_key c1 with
      | Some p => (Some p, c1)
      | None =>
          (* is_new *)
          let p := length (graphics_pipeline_pool c1) in
          let obj := {| gp_key := graphics_key c1; gp_infos := infos c1;
                        gp_modules := modules c1 |} in
          (Some p,
           set_graphics_pipelines (<[graphics_key c1 := p]> (graphics_pipelines c1))
             (graphics_pipeline_pool c1 ++ [obj]) c1)
      end.

(** [GetComputePipeline()]. *)
Definition GetComputePipeline (regs : Regs) (c : PipelineCache)
  : option nat * PipelineCache :=
  let '(ok, c1) := RefreshComputeKey regs c in
  if negb ok then (None, c1)
  else
    match compute_pipelines c1 !! compute_key c1 with
    | Some p => (Some p, c1)
    | None =>
        let p := length (compute_pipeline_pool c1) in
        let obj := {| cp_key := compute_key c1; cp_info := infos c1 0%nat;
                      cp_module := modules c1 0%nat |} in
        (Some p,
         set_compute_pipelines (<[compute_key c1 := p]> (compute_pipelines c1))
           (compute_pipeline_pool c1 ++ [obj]) c1)
    end.

End Model.

(** The table of [ShouldSkipShader] as shipped:
    [static constexpr std::array<u64, 0> skip_hashes = {}]. *)
Definition shipped_skip_hashes : list Z := [].

(** * Vocabulary of the statements *)

Section Vocabulary.
Context `{Externals}.
Variable skip_hashes : list Z.

(** ** Parts of the state *)

(** The depth and stencil members of a key. *)
Definition depth_state (k : GraphicsPipelineKey) : DepthControl * Z * Z :=
  (depth_stencil k, depth_format k, stencil_format k).

(** The members of a key the second colour pass packs. *)
Definition packed_state (k : GraphicsPipelineKey) : list Z * list BlendControl :=
  (write_masks k, blend_controls k).

(** The pipeline maps and pools. *)
Definition pipeline_store (c : PipelineCache) :=
  (graphics_pipelines c, graphics_pipeline_pool c,
   compute_pipelines c, compute_pipeline_pool c).

(** What the key builder holds for stage [i]: its hash in the key and its
    info pointer. *)
Definition stage_slot (c : PipelineCache) (i : nat) : option Z * option Info :=
  (stage_hashes (graphics_key c) !! i, infos c i).

(** ** Stages of a snapshot *)

(** The program the stage loop resolves for stage [i]: the stage is enabled,
    its program is bound and its binary-info header is valid. *)
Definition resolved_program (regs : Regs) (i : nat) : option ShaderProgram :=
  if IsStageEnabled regs i then
    match ProgramForStage regs i with
    | Some pgm =>
        if bool_decide (Address pgm ≠ 0) && Valid (bininfo pgm) then Some pgm else None
    | None => None
    end
  else None.

(** Stage [i] is enabled with a bound program whose binary-info header is
    invalid. *)
Definition invalid_binary (regs : Regs) (i : nat) : Prop :=
  IsStageEnabled regs i = true ∧
  ∃ pgm, ProgramForStage regs i = Some pgm ∧ Address pgm ≠ 0 ∧ Valid (bininfo pgm) = false.

(** A resolved stage makes the refresh return failure: its hash is
    denylisted, it is neither the vertex nor the fragment stage, or the
    tessellation stage is bound. *)
Definition stage_rejected (regs : Regs) (i : nat) : bool :=
  match resolved_program regs i with
  | Some pgm =>
      ShouldSkipShader skip_hashes (shader_hash (bininfo pgm))
      || (bool_decide (StageFromIndex i ≠ Vertex) && bool_decide (StageFromIndex i ≠ Fragment))
      || tess_bound regs
  | None => false
  end.

(** The early returns of [GetGraphicsPipeline]: patch or no topology, a
    fast-clear elimination or an FMask decompression. *)
Definition no_draw_needed (regs : Regs) : bool :=
  bool_decide (primitive_type regs = PatchPrimitive)
  || bool_decide (color_control_mode regs = EliminateFastClear)
  || bool_decide (color_control_mode regs = FmaskDecompress)
  || bool_decide (primitive_type regs = PrimitiveNone).

(** The draw uses the shader with content hash [h]. *)
Definition uses_shader (regs : Regs) (h : Z) : Prop :=
  ∃ i pgm, (i < MaxShaderStages)%nat ∧ resolved_program regs i = Some pgm ∧
           shader_hash (bininfo pgm) = h.

(** ** Histories of pipeline requests *)

Inductive Call := Draw (regs : Regs) | Dispatch (regs : Regs).

(** What a request observed: the key its refresh left in the cache and the
    pointer it returned. *)
Inductive Event :=
| DrawEvent (key : GraphicsPipelineKey) (result : option nat)
| DispatchEvent (key : Z) (result : option nat).

Definition run_call (call : Call) (c : PipelineCache) : Event * PipelineCache :=
  match call with
  | Draw regs =>
      let '(r, c1) := GetGraphicsPipeline skip_hashes regs c in
      (DrawEvent (graphics_key c1) r, c1)
  | Dispatch regs =>
      let '(r, c1) := GetComputePipeline skip_hashes regs c in
      (DispatchEvent (compute_key c1) r, c1)
  end.

Fixpoint run_calls (calls : list Call) (c : PipelineCache) : list Event * PipelineCache :=
  match calls with
  | [] => ([], c)
  | call :: calls' =>
      let '(e, c1) := run_call call c in
      let '(es, c2) := run_calls calls' c1 in
      (e :: es, c2)
  end.

(** The successful requests of a history: the refreshed key and the
    pointer returned. *)
Definition draw_hits (evs : list Event) : list (GraphicsPipelineKey * nat) :=
  omap (fun e => match e with DrawEvent k (Some p) => Some (k, p) | _ => None end) evs.

Definition dispatch_hits (evs : list Event) : list (Z * nat) :=
  omap (fun e => match e with DispatchEvent k (Some p) => Some (k, p) | _ => None end) evs.

(** The invariant of a pipeline map [m] with pool [pool] against the
    successful requests [hits] seen so far: a request's key maps to the
    pointer it returned; every entry of the map comes from such a request
    and points to the object built for its key; every object of the pool is
    the one its key maps to, so no two objects have the same key; and the
    pool holds one object per entry. *)
Definition store_inv {K O} `{Countable K} (key_of : O → K)
    (hits : list (K * nat)) (m : gmap K nat) (pool : list O) : Prop :=
  (∀ k p, (k, p) ∈ hits → m !! k = Some p) ∧
  (∀ k p, m !! k = Some p →
     (k, p) ∈ hits ∧ ∃ obj, pool !! p = Some obj ∧ key_of obj = k) ∧
  (∀ p obj, pool !! p = Some obj → m !! key_of obj = Some p) ∧
  size m = length pool.

(** [try_emplace(key)] followed by [pool.Create] when the key is new: a
    key the map holds resolves to the pointer stored for it and nothing is
    built; a new key gets the object [obj], built at the end of the pool,
    and an entry pointing to it.  [r] is the pointer returned, [m'] and
    [pool'] the map and the pool afterwards. *)
Definition emplaced {K O} `{Countable K} (k : K) (obj : O)
    (m : gmap K nat) (pool : list O) (r : option nat)
    (m' : gmap K nat) (pool' : list O) : Prop :=
  match m !! k with
  | Some p => r = Some p ∧ m' = m ∧ pool' = pool
  | None => r = Some (length pool) ∧ m' = <[k := length pool]> m ∧ pool' = pool ++ [obj]
  end.

(** ** Permutations *)

(** The specialization descriptor [GetProgram] computes for a call. *)
Definition call_spec (s : Stage) (regs : Regs) (c : PipelineCache) (binding : Z)
  : StageSpecialization :=
  {| spec_runtime_info := BuildRuntimeInfo s regs (graphics_key c);
     start_binding := binding |}.

(** The permutation entry of program [h] at index [idx]. *)
Definition permutation (c : PipelineCache) (h : Z) (idx : nat) : option ProgramModule :=
  p ← program_cache c !! h; program_modules p !! idx.

Definition permutation_count (c : PipelineCache) (h : Z) : nat :=
  from_option (fun p => length (program_modules p)) 0%nat (program_cache c !! h).

(** Program [h] of cache [c] answers a request with descriptor [sp] by its
    first permutation with an equal descriptor: index [idx], module [m],
    program info [i]. *)
Definition resolved_at (c : PipelineCache) (h : Z) (sp : StageSpecialization)
    (idx : nat) (m : nat) (i : Info) : Prop :=
  ∃ prog, program_cache c !! h = Some prog ∧ info prog = i ∧
          find_permutation sp (program_modules prog)
          = Some (idx, {| module := m; spec := sp |}).

(** Every cached program's info is what the translator returned for some
    program with that content hash, one of the programs [P]. *)
Definition cache_translated (P : ShaderParams → Prop) (c : PipelineCache) : Prop :=
  ∀ h prog, program_cache c !! h = Some prog →
    ∃ s p ri, hash p = h ∧ P p ∧
              info prog = (TranslateProgram (params_code p) (NewInfo s p) ri).2.

(** What the key builder reads of the cache besides the registers: the key
    under construction, the program map and the translator's trace. *)
Definition builder_view (c : PipelineCache) :=
  (graphics_key c, program_cache c, compiled c).

(** The cache and trace parts of two states coincide. *)
Definition same_programs (c1 c2 : PipelineCache) : Prop :=
  program_cache c1 = program_cache c2 ∧ compiled c1 = compiled c2.

(** [c2] is a later state of the program cache [c1]: every program is still
    there with the same info, and its module list only grew at the end. *)
Definition cache_extends (c1 c2 : PipelineCache) : Prop :=
  ∀ h p1, program_cache c1 !! h = Some p1 →
    ∃ p2, program_cache c2 !! h = Some p2 ∧ info p2 = info p1 ∧
          program_modules p1 `prefix_of` program_modules p2.

(** ** The translator's binding discipline

    What the cache relies on when it advances the cursor by
    [info.NumBindings()] on a permutation hit: the emitter moves the cursor
    by the number of bindings of the translated program, and translating the
    same program (same code, same content hash) again, for whatever stage,
    user data and runtime info, gives the same number of bindings. *)
Definition binding_discipline : Prop :=
  (∀ code info0 ri b,
     (EmitSPIRV ri (TranslateProgram code info0 ri).1 b).2
     = wrap32 (b + NumBindings (TranslateProgram code info0 ri).2)) ∧
  (∀ s1 p1 ri1 s2 p2 ri2,
     params_code p1 = params_code p2 → hash p1 = hash p2 →
     NumBindings (TranslateProgram (params_code p1) (NewInfo s1 p1) ri1).2
     = NumBindings (TranslateProgram (params_code p2) (NewInfo s2 p2) ri2).2).

(** ** Content hashes that identify the code

    The shader programs a request can hand to [GetProgram]: for a draw the
    programs the stage loop resolves, for a dispatch the compute program. *)
Definition requested (call : Call) (p : ShaderParams) : Prop :=
  match call with
  | Draw regs =>
      ∃ i pgm, (i < MaxShaderStages)%nat ∧ resolved_program regs i = Some pgm ∧
               p = GetParams pgm
  | Dispatch regs => p = GetParams_cs (cs_program regs)
  end.

Definition requested_by (calls : list Call) (p : ShaderParams) : Prop :=
  ∃ call, call ∈ calls ∧ requested call p.

(** Among the programs [P] the content hash identifies the code. *)
Definition hash_names_code (P : ShaderParams → Prop) : Prop :=
  ∀ p1 p2, P p1 → P p2 → hash p1 = hash p2 → params_code p1 = params_code p2.

(** No two requests of [calls] carry different code under one content
    hash. *)
Definition hash_identifies_code (calls : list Call) : Prop :=
  hash_names_code (requested_by calls).

(** ** Agreement of snapshots on what the key builder reads

    Two snapshots agree when every register field the graphics key builder
    consumes (directly or through [BuildRuntimeInfo]) has the same value in
    both; the compute program and the settings of the per-stage programs are
    not among them. *)

Definition programs_agree (p1 p2 : option ShaderProgram) : Prop :=
  match p1, p2 with
  | Some a, Some b =>
      Address a = Address b ∧ bininfo a = bininfo b ∧
      user_data a = user_data b ∧ Code a = Code b
  | None, None => True
  | _, _ => False
  end.

Record regs_agree (r1 r2 : Regs) : Prop := {
  agree_primitive_type : primitive_type r1 = primitive_type r2;
  agree_color_control_mode : color_control_mode r1 = color_control_mode r2;
  agree_depth_control : depth_control r1 = depth_control r2;
  agree_depth_clear_enable : depth_clear_enable r1 = depth_clear_enable r2;
  agree_polygon_control : polygon_control r1 = polygon_control r2;
  agree_z_info_format : z_info_format r1 = z_info_format r2;
  agree_stencil_info_format : stencil_info_format r1 = stencil_info_format r2;
  agree_stencil_control : stencil_control r1 = stencil_control r2;
  agree_enable_primitive_restart :
    enable_primitive_restart_reg r1 = enable_primitive_restart_reg r2;
  agree_primitive_restart_index :
    primitive_restart_index_reg r1 = primitive_restart_index_reg r2;
  agree_clip_space : clipper_clip_space r1 = clipper_clip_space r2;
  agree_NumSamples : NumSamples r1 = NumSamples r2;
  agree_color_target_mask : color_target_mask r1 = color_target_mask r2;
  agree_color_shader_mask : color_shader_mask r1 = color_shader_mask r2;
  agree_color_buffers : ∀ cb, (cb < NumColorBuffers)%nat →
    color_buffers r1 cb = color_buffers r2 cb ∧ blend_control r1 cb = blend_control r2 cb;
  agree_stages : ∀ i, (i < MaxShaderStages)%nat ∨ i = 3%nat →
    IsStageEnabled r1 i = IsStageEnabled r2 i ∧
    programs_agree (ProgramForStage r1 i) (ProgramForStage r2 i);
  agree_vs_settings : settings (vs_program r1) = settings (vs_program r2);
  agree_ps_num_user_regs :
    num_user_regs (settings (ps_program r1)) = num_user_regs (settings (ps_program r2));
  agree_ps_num_vgprs :
    num_vgprs (settings (ps_program r1)) = num_vgprs (settings (ps_program r2));
  agree_use_vtx_point_size :
    use_vtx_point_size (vs_output_control r1) = use_vtx_point_size (vs_output_control r2);
  agree_use_vtx_edge_flag :
    use_vtx_edge_flag (vs_output_control r1) = use_vtx_edge_flag (vs_output_control r2);
  agree_use_vtx_gs_cut_flag :
    use_vtx_gs_cut_flag (vs_output_control r1) = use_vtx_gs_cut_flag (vs_output_control r2);
  agree_use_vtx_kill_flag :
    use_vtx_kill_flag (vs_output_control r1) = use_vtx_kill_flag (vs_output_control r2);
  agree_use_vtx_render_target_idx :
    use_vtx_render_target_idx (vs_output_control r1)
    = use_vtx_render_target_idx (vs_output_control r2);
  agree_use_vtx_viewport_idx :
    use_vtx_viewport_idx (vs_output_control r1) = use_vtx_viewport_idx (vs_output_control r2);
  agree_clip_cull : ∀ i, (i < 8)%nat →
    IsClipDistEnabled (vs_output_control r1) i = IsClipDistEnabled (vs_output_control r2) i ∧
    IsCullDistEnabled (vs_output_control r1) i = IsCullDistEnabled (vs_output_control r2) i;
  agree_num_interp : num_interp r1 = num_interp r2;
  agree_ps_inputs : ∀ i, (i < num_interp r1)%nat → ps_inputs r1 i = ps_inputs r2 i;
}.

(** ** Colour-target compaction as the specification words it *)

(** The slots of [cbs] that are bound, unmasked and referenced by the
    fragment stage's mask, in their original order. *)
Definition survivors (regs : Regs) (mask : Z) (cbs : list nat) : list nat :=
  filter (fun cb => cb_unbound regs cb || mrt_unused mask cb = false) cbs.

Definition surviving_slots (regs : Regs) (mask : Z) : list nat :=
  survivors regs mask (seq 0 NumColorBuffers).

(** [xs] left-packed into an array of [NumColorBuffers] entries, the rest
    holding the sentinel [d]. *)
Definition left_packed {A} (d : A) (xs : list A) : list A :=
  xs ++ replicate (NumColorBuffers - length xs) d.

Definition slot_format (regs : Regs) (cb : nat) : Z :=
  let col_buf := color_buffers regs cb in
  AdjustColorBufferFormat (SurfaceFormat (format col_buf) (NumFormat col_buf))
                          (comp_swap col_buf) false.

Definition slot_write_mask (regs : Regs) (cb : nat) : Z :=
  GetMask (color_target_mask regs) cb.

Definition slot_blend_control (regs : Regs) (cb : nat) : BlendControl :=
  {| enable := enable (blend_control regs cb) && negb (blend_bypass (color_buffers regs cb));
     blend_control_rest := blend_control_rest (blend_control regs cb) |}.

(** The two pipeline maps against a history. *)
Definition stores_inv (evs : list Event) (c : PipelineCache) : Prop :=
  store_inv gp_key (draw_hits evs) (graphics_pipelines c) (graphics_pipeline_pool c) ∧
  store_inv cp_key (dispatch_hits evs) (compute_pipelines c) (compute_pipeline_pool c).

(** No entry of the translator's trace is on the denylist. *)
Definition trace_clean (c : PipelineCache) : Prop :=
  ∀ h idx, (h, idx) ∈ compiled c → ShouldSkipShader skip_hashes h = false.

End Vocabulary.

(** * Further vocabulary *)

Section MoreVocabulary.
Context `{Externals}.

(** ** The program cache against the translator's trace *)

(** Every permutation's module is the one the trace logged for its content
    hash and index. *)
Definition modules_logged (c : PipelineCache) : Prop :=
  ∀ h idx pm, permutation c h idx = Some pm → compiled c !! module pm = Some (h, idx).

(** Every compilation of the trace is a permutation of the cache. *)
Definition trace_cached (c : PipelineCache) : Prop :=
  ∀ n h idx, compiled c !! n = Some (h, idx) →
    ∃ pm, permutation c h idx = Some pm ∧ module pm = n.

(** No program holds two permutations with the same descriptor. *)
Definition specs_distinct (c : PipelineCache) : Prop :=
  ∀ h prog, program_cache c !! h = Some prog → NoDup (spec <$> program_modules prog).

(** ** Vertex outputs *)

(** No output flag of the vertex stage is set. *)
Definition no_vertex_outputs (ctl : VsOutputControl) : Prop :=
  use_vtx_point_size ctl = false ∧ use_vtx_edge_flag ctl = false ∧
  use_vtx_gs_cut_flag ctl = false ∧ use_vtx_kill_flag ctl = false ∧
  use_vtx_render_target_idx ctl = false ∧ use_vtx_viewport_idx ctl = false ∧
  ∀ i, (i < 8)%nat → IsClipDistEnabled ctl i = false ∧ IsCullDistEnabled ctl i = false.

Definition empty_output_map : VsOutputMap :=
  (VsOutput.None, VsOutput.None, VsOutput.None, VsOutput.None).

(** ** The first colour pass *)

(** The slots of [cbs] the first pass binds, in their original order. *)
Definition bound_slots (regs : Regs) (cbs : list nat) : list nat :=
  filter (fun cb => cb_unbound regs cb = false) cbs.

(** The swizzle the first pass records for a bound slot: the buffer's
    component swap when the format needed no adjustment, the default
    otherwise. *)
Definition slot_swizzle (regs : Regs) (cb : nat) : Z :=
  let col_buf := color_buffers regs cb in
  if decide (SurfaceFormat (format col_buf) (NumFormat col_buf) = slot_format regs cb)
  then comp_swap col_buf else SwapStandard.

(** [key.color_formats[cb] = eUndefined] for every [cb] of [cbs], in order. *)
Definition clear_all {A} (d : A) (cbs : list nat) (l : list A) : list A :=
  foldl (fun l cb => <[cb := d]> l) l cbs.

(** The colour formats and swizzles of a key. *)
Definition colour_state (k : GraphicsPipelineKey) := (color_formats k, mrt_swizzles k).

(** The slots of [cbs] the second pass clears. *)
Definition cleared_slots (regs : Regs) (mask : Z) (cbs : list nat) : list nat :=
  filter (fun cb => cb_unbound regs cb || mrt_unused mask cb = true) cbs.

End MoreVocabulary.

(** * A concrete configuration

    An instance of [Externals] on which the model runs: the array sizes,
    stage numbering and enumerator values of the emulator's headers, the
    nibble masks of [ColorBufferMask], format tables that change nothing,
    and a toy translator whose binding count is read off the content hash
    and whose render-target mask is the first code word. *)

Module Sample.

Record SampleInfo := {
  si_hash : Z;
  si_mrt_mask : Z;
  si_bindings : Z;
}.

Definition sample_translate (code : list Z) (info0 : SampleInfo) (ri : RuntimeInfo)
  : Z * SampleInfo :=
  let n := si_hash info0 mod 4 in
  (n, {| si_hash := si_hash info0; si_mrt_mask := nth 0 code 0; si_bindings := n |}).

Definition externals : Externals :=
  {| MaxShaderStages := 5;
     NumColorBuffers := 8;
     StageFromIndex := fun i =>
       match i with 0%nat => Fragment | 1%nat => Vertex | _ => OtherStage i end;
     FragmentIndex := 0;
     PatchPrimitive := 9;
     PrimitiveNone := 0;
     OperationDisable := 0;
     EliminateFastClear := 2;
     FmaskDecompress := 5;
     ZFormatInvalid := 0;
     StencilFormatInvalid := 0;
     eUndefined := 0;
     SwapStandard := 0;
     MinusWToW := 0;
     DepthFormat := fun z s => if decide (z = 0) then 0 else 100 + z;
     SurfaceFormat := fun f n => f;
     AdjustColorBufferFormat := fun base swap vo => base;
     GetMask := fun raw i => Z.land (Z.shiftr raw (4 * Z.of_nat i)) 15;
     SetMask := fun raw i m =>
       Z.lor (Z.land raw (Z.lnot (Z.shiftl 15 (4 * Z.of_nat i))))
             (Z.shiftl m (4 * Z.of_nat i));
     IsDepthClipControlSupported := true;
     Info := SampleInfo;
     IRProgram := Z;
     NewInfo := fun s p => {| si_hash := hash p; si_mrt_mask := 0; si_bindings := 0 |};
     info_mrt_mask := si_mrt_mask;
     NumBindings := si_bindings;
     TranslateProgram := sample_translate;
     EmitSPIRV := fun ri ir b => ([], wrap32 (b + ir)) |}.

(** The same configuration with an emitter that moves the binding cursor by
    one per program although the programs report no bindings: it breaks the
    binding discipline. *)
Definition undisciplined : Externals :=
  {| MaxShaderStages := 5;
     NumColorBuffers := 8;
     StageFromIndex := fun i =>
       match i with 0%nat => Fragment | 1%nat => Vertex | _ => OtherStage i end;
     FragmentIndex := 0;
     PatchPrimitive := 9;
     PrimitiveNone := 0;
     OperationDisable := 0;
     EliminateFastClear := 2;
     FmaskDecompress := 5;
     ZFormatInvalid := 0;
     StencilFormatInvalid := 0;
     eUndefined := 0;
     SwapStandard := 0;
     MinusWToW := 0;
     DepthFormat := fun z s => if decide (z = 0) then 0 else 100 + z;
     SurfaceFormat := fun f n => f;
     AdjustColorBufferFormat := fun base swap vo => base;
     GetMask := fun raw i => Z.land (Z.shiftr raw (4 * Z.of_nat i)) 15;
     SetMask := fun raw i m =>
       Z.lor (Z.land raw (Z.lnot (Z.shiftl 15 (4 * Z.of_nat i))))
             (Z.shiftl m (4 * Z.of_nat i));
     IsDepthClipControlSupported := true;
     Info := SampleInfo;
     IRProgram := Z;
     NewInfo := fun s p => {| si_hash := hash p; si_mrt_mask := 0; si_bindings := 0 |};
     info_mrt_mask := si_mrt_mask;
     NumBindings := fun _ => 0;
     TranslateProgram := sample_translate;
     EmitSPIRV := fun ri ir b => ([], wrap32 (b + 1)) |}.

Definition shader (addr h : Z) (valid : bool) (code : list Z) : ShaderProgram :=
  {| Address := addr;
     settings := {| num_user_regs := 0; vgpr_comp_cnt := 0; num_vgprs := 0 |};
     user_data := []; Code := code;
     bininfo := {| Valid := valid; shader_hash := h |} |}.

Definition compute_shader (h : Z) (valid : bool) : ComputeProgram :=
  {| cs_settings := {| num_user_regs := 0; vgpr_comp_cnt := 0; num_vgprs := 0 |};
     cs_user_data := []; cs_Code := [];
     cs_bininfo := {| Valid := valid; shader_hash := h |};
     num_thread_x := 8; num_thread_y := 8; num_thread_z := 1;
     IsTgidEnabled := fun _ => true; SharedMemSize := 0 |}.

Definition color_buffer (b : bool) (fmt : Z) : ColorBuffer :=
  {| bound := b; format := fmt; NumFormat := 0; comp_swap := 0; blend_bypass := false |}.

(** A triangle-list draw in normal colour mode with depth and stencil off:
    the bound colour buffers, the colour target mask, the enabled stages,
    their programs and the compute program vary. *)
Definition snapshot (cbs : nat → ColorBuffer) (target_mask : Z)
    (enabled : nat → bool) (programs : nat → option ShaderProgram)
    (cs : ComputeProgram) : Regs :=
  {| primitive_type := 4;
     color_control_mode := 1;
     depth_control := {| stencil_enable := false; depth_enable := false;
                         depth_write_enable := false; depth_control_rest := 0 |};
     depth_clear_enable := false;
     polygon_control := {| NeedsBias := false; PolyMode := 0; CullingMode := 0;
                           front_face_reg := 0 |};
     z_info_format := 0;
     stencil_info_format := 0;
     stencil_control := 0;
     enable_primitive_restart_reg := 0;
     primitive_restart_index_reg := 0;
     clipper_clip_space := 1;
     NumSamples := 1;
     color_buffers := cbs;
     blend_control := fun _ => {| enable := false; blend_control_rest := 0 |};
     color_target_mask := target_mask;
     color_shader_mask := target_mask;
     IsStageEnabled := enabled;
     ProgramForStage := programs;
     vs_program := shader 0 0 false [];
     ps_program := shader 0 0 false [];
     cs_program := cs;
     vs_output_control :=
       {| use_vtx_point_size := false; use_vtx_edge_flag := false;
          use_vtx_gs_cut_flag := false; use_vtx_kill_flag := false;
          use_vtx_render_target_idx := false; use_vtx_viewport_idx := false;
          IsClipDistEnabled := fun _ => false; IsCullDistEnabled := fun _ => false |};
     ps_inputs := fun _ => {| input_offset := 0; use_default := false;
                              flat_shade := false; ps_default_value := 0 |};
     num_interp := 0 |}.

Definition no_color_buffers : nat → ColorBuffer := fun _ => color_buffer false 0.

(** A program register with no shader bound (address 0). *)
Definition unbound : ShaderProgram := shader 0 0 false [].

(** Stages 0 (fragment) and 1 (vertex) are always enabled; stage 3, the
    one the tessellation test reads, when [tess] is set. *)
Definition stages (tess : bool) : nat → bool :=
  fun i => match i with 0%nat | 1%nat => true | 3%nat => tess | _ => false end.

(** The program registers: fragment, vertex and stage 3 as given, the
    other stages unbound, and no program past the last stage. *)
Definition programs (ps vs tess : ShaderProgram) : nat → option ShaderProgram :=
  fun i =>
    match i with
    | 0%nat => Some ps
    | 1%nat => Some vs
    | 3%nat => Some tess
    | 2%nat | 4%nat | 5%nat => Some unbound
    | _ => None
    end.

(** The vertex stage has a bound program whose binary-info header is
    invalid; no fragment program is bound (a depth-only draw). *)
Definition invalid_vs : Regs :=
  snapshot no_color_buffers 0 (stages false)
    (programs unbound (shader 4096 77 false []) unbound)
    (compute_shader 0 true).

(** The tessellation stage is enabled with a bound program, and no stage
    has a valid binary-info header. *)
Definition tess_only : Regs :=
  snapshot no_color_buffers 0 (stages true)
    (programs unbound unbound (shader 4096 77 false []))
    (compute_shader 0 true).

(** Snapshots for the colour passes: a vertex program and a fragment
    program whose first code word, the render-target mask of the toy
    translator, is [mrt]. *)
Definition fragment_draw (cbs : nat → ColorBuffer) (target_mask mrt : Z) : Regs :=
  snapshot cbs target_mask (stages false)
    (programs (shader 4096 5 true [mrt]) (shader 8192 6 true []) unbound)
    (compute_shader 0 true).

(** Slot 0 unbound, slot 1 bound with format 10 and written by the shader. *)
Definition gap_draw : Regs :=
  fragment_draw
    (fun cb => if decide (cb = 1%nat) then color_buffer true 10
               else color_buffer false 0)
    0xF0 2.

(** Slot 0 unbound, slots 1 and 2 bound with formats 10 and 20; the shader
    writes slot 1 only. *)
Definition gap_draw_two : Regs :=
  fragment_draw
    (fun cb => if decide (cb = 1%nat) then color_buffer true 10
               else if decide (cb = 2%nat) then color_buffer true 20
               else color_buffer false 0)
    0xFF0 2.

(** The tessellation stage is enabled with a bound program next to a valid
    vertex program. *)
Definition tess_and_vertex : Regs :=
  snapshot no_color_buffers 0 (stages true)
    (programs unbound (shader 4096 5 true []) (shader 8192 6 true []))
    (compute_shader 0 true).

(** A draw with a fragment and a vertex program and one colour target. *)
Definition two_stage_draw : Regs :=
  snapshot
    (fun cb => if decide (cb = 0%nat) then color_buffer true 10
               else color_buffer false 0)
    0xF (stages false)
    (programs (shader 4096 5 true [1]) (shader 8192 6 true []) unbound)
    (compute_shader 0 true).

(** [two_stage_draw] with another compute program, which the graphics key
    builder does not read. *)
Definition two_stage_draw_other_cs : Regs :=
  snapshot
    (fun cb => if decide (cb = 0%nat) then color_buffer true 10
               else color_buffer false 0)
    0xF (stages false)
    (programs (shader 4096 5 true [1]) (shader 8192 6 true []) unbound)
    (compute_shader 99 false).

(** A dispatch of the compute shader with content hash 77. *)
Definition dispatch_77 : Regs :=
  snapshot no_color_buffers 0 (stages false) (programs unbound unbound unbound)
    (compute_shader 77 true).

(** A translator that reads the binding count off the code: one binding
    per code word.  It keeps the binding discipline. *)
Definition counting_translate (code : list Z) (info0 : SampleInfo) (ri : RuntimeInfo)
  : Z * SampleInfo :=
  let n := Z.of_nat (length code) in
  (n, {| si_hash := si_hash info0; si_mrt_mask := nth 0 code 0; si_bindings := n |}).

Definition code_counting : Externals :=
  {| MaxShaderStages := 5;
     NumColorBuffers := 8;
     StageFromIndex := fun i =>
       match i with 0%nat => Fragment | 1%nat => Vertex | _ => OtherStage i end;
     FragmentIndex := 0;
     PatchPrimitive := 9;
     PrimitiveNone := 0;
     OperationDisable := 0;
     EliminateFastClear := 2;
     FmaskDecompress := 5;
     ZFormatInvalid := 0;
     StencilFormatInvalid := 0;
     eUndefined := 0;
     SwapStandard := 0;
     MinusWToW := 0;
     DepthFormat := fun z s => if decide (z = 0) then 0 else 100 + z;
     SurfaceFormat := fun f n => f;
     AdjustColorBufferFormat := fun base swap vo => base;
     GetMask := fun raw i => Z.land (Z.shiftr raw (4 * Z.of_nat i)) 15;
     SetMask := fun raw i m =>
       Z.lor (Z.land raw (Z.lnot (Z.shiftl 15 (4 * Z.of_nat i))))
             (Z.shiftl m (4 * Z.of_nat i));
     IsDepthClipControlSupported := true;
     Info := SampleInfo;
     IRProgram := Z;
     NewInfo := fun s p => {| si_hash := hash p; si_mrt_mask := 0; si_bindings := 0 |};
     info_mrt_mask := si_mrt_mask;
     NumBindings := si_bindings;
     TranslateProgram := counting_translate;
     EmitSPIRV := fun ri ir b => ([], wrap32 (b + ir)) |}.

(** A dispatch of a compute shader with content hash 5 and no code word:
    the hash of the fragment program of [two_stage_draw], whose code is
    another. *)
Definition dispatch_5 : Regs :=
  snapshot no_color_buffers 0 (stages false) (programs unbound unbound unbound)
    (compute_shader 5 true).

End Sample.

(** * Properties *)

Section Proofs.
Context `{Externals}.
Variable skip_hashes : list Z.

(** ** Frame lemmas: which members each step leaves alone *)

Lemma first_pass_depth_state regs cbs r k :
  depth_state (first_pass regs cbs r k) = depth_state k.
Proof.
  revert r k. induction cbs as [|cb cbs IH]; intros r k; simpl; [done|].
  destruct (cb_unbound regs cb); [apply IH|].
  rewrite IH. by case_decide.
Qed.

Lemma second_pass_depth_state regs cbs r k :
  depth_state (second_pass regs cbs r k) = depth_state k.
Proof.
  revert r k. induction cbs as [|cb cbs IH]; intros r k; simpl; [done|].
  destruct (_ || _); by rewrite IH.
Qed.

Lemma first_pass_stage_hashes regs cbs r k :
  stage_hashes (first_pass regs cbs r k) = stage_hashes k.
Proof.
  revert r k. induction cbs as [|cb cbs IH]; intros r k; simpl; [done|].
  destruct (cb_unbound regs cb); [apply IH|].
  rewrite IH. by case_decide.
Qed.

Lemma second_pass_stage_hashes regs cbs r k :
  stage_hashes (second_pass regs cbs r k) = stage_hashes k.
Proof.
  revert r k. induction cbs as [|cb cbs IH]; intros r k; simpl; [done|].
  destruct (_ || _); by rewrite IH.
Qed.

(** [GetProgram] touches the program map and the trace only. *)
Lemma GetProgram_frame s p b regs c :
  let c' := (GetProgram s p b regs c).2 in
  graphics_key c' = graphics_key c ∧ compute_key c' = compute_key c ∧
  infos c' = infos c ∧ modules c' = modules c ∧ pipeline_store c' = pipeline_store c.
Proof.
  unfold GetProgram, CompileModule.
  repeat case_match; simplify_eq; done.
Qed.

Lemma GetProgram_graphics_key s p b regs c :
  graphics_key (GetProgram s p b regs c).2 = graphics_key c.
Proof. apply GetProgram_frame. Qed.

Lemma GetProgram_pipeline_store s p b regs c :
  pipeline_store (GetProgram s p b regs c).2 = pipeline_store c.
Proof. apply GetProgram_frame. Qed.

Lemma stage_step_depth_state regs i b c :
  depth_state (graphics_key (stage_step skip_hashes regs i b c).2)
  = depth_state (graphics_key c).
Proof.
  unfold stage_step, clear_stage.
  repeat case_match; simplify_eq; simpl; try done.
  match goal with
  | E : GetProgram ?s ?p ?b ?r ?c = _ |- _ =>
      pose proof (GetProgram_graphics_key s p b r c) as Hk; rewrite E in Hk
  end.
  simpl in Hk. by rewrite Hk.
Qed.

Lemma stage_step_pipeline_store regs i b c :
  pipeline_store (stage_step skip_hashes regs i b c).2 = pipeline_store c.
Proof.
  unfold stage_step, clear_stage.
  repeat case_match; simplify_eq; simpl; try done.
  match goal with
  | E : GetProgram ?s ?p ?b ?r ?c = _ |- _ =>
      pose proof (GetProgram_pipeline_store s p b r c) as Hk; rewrite E in Hk
  end.
  done.
Qed.

Lemma stage_loop_depth_state regs stages b c :
  depth_state (graphics_key (stage_loop skip_hashes regs stages b c).2)
  = depth_state (graphics_key c).
Proof.
  revert b c. induction stages as [|i stages IH]; intros b c; simpl; [done|].
  pose proof (stage_step_depth_state regs i b c) as Hs.
  destruct (stage_step skip_hashes regs i b c) as [[ok b1] c1]; simpl in *.
  destruct ok; [by rewrite IH|done].
Qed.

Lemma stage_loop_pipeline_store regs stages b c :
  pipeline_store (stage_loop skip_hashes regs stages b c).2 = pipeline_store c.
Proof.
  revert b c. induction stages as [|i stages IH]; intros b c; simpl; [done|].
  pose proof (stage_step_pipeline_store regs i b c) as Hs.
  destruct (stage_step skip_hashes regs i b c) as [[ok b1] c1]; simpl in *.
  destruct ok; [by rewrite IH|done].
Qed.

Lemma RefreshGraphicsKey_depth_state regs c :
  depth_state (graphics_key (RefreshGraphicsKey skip_hashes regs c).2)
  = depth_state (key_prologue regs).
Proof.
  unfold RefreshGraphicsKey.
  pose proof (stage_loop_depth_state regs (seq 0 MaxShaderStages) 0
                (set_graphics_key (first_pass regs (seq 0 NumColorBuffers) 0
                                     (key_prologue regs)) c)) as Hl.
  destruct (stage_loop _ _ _ _ _) as [[ok b1] c1]; simpl in *.
  rewrite first_pass_depth_state in Hl.
  destruct ok; simpl; [|done].
  by rewrite second_pass_depth_state.
Qed.

Lemma RefreshGraphicsKey_pipeline_store regs c :
  pipeline_store (RefreshGraphicsKey skip_hashes regs c).2 = pipeline_store c.
Proof.
  unfold RefreshGraphicsKey.
  pose proof (stage_loop_pipeline_store regs (seq 0 MaxShaderStages) 0
                (set_graphics_key (first_pass regs (seq 0 NumColorBuffers) 0
                                     (key_prologue regs)) c)) as Hl.
  destruct (stage_loop _ _ _ _ _) as [[ok b1] c1]; simpl in *.
  by destruct ok.
Qed.

Lemma RefreshComputeKey_pipeline_store regs c :
  pipeline_store (RefreshComputeKey skip_hashes regs c).2 = pipeline_store c.
Proof.
  unfold RefreshComputeKey.
  destruct (ShouldSkipShader _ _); [done|].
  pose proof (GetProgram_pipeline_store Compute (GetParams_cs (cs_program regs)) 0 regs c) as Hp.
  destruct (GetProgram _ _ _ _ _) as [[[[pi m] h] b1] c1]. done.
Qed.

(** ** When the graphics refresh fails *)

Lemma stage_step_ok regs i b c :
  (stage_step skip_hashes regs i b c).1.1 = negb (stage_rejected skip_hashes regs i).
Proof.
  unfold stage_step, stage_rejected, resolved_program.
  destruct (IsStageEnabled regs i); simpl; [|done].
  destruct (ProgramForStage regs i) as [pgm|]; [|done].
  rewrite (bool_decide_not (Address pgm = 0)).
  destruct (bool_decide (Address pgm = 0)); simpl; [done|].
  destruct (Valid (bininfo pgm)); simpl; [|done].
  destruct (ShouldSkipShader _ _); simpl; [done|].
  destruct (_ && _); simpl; [done|].
  destruct (tess_bound regs); simpl; [done|].
  by destruct (GetProgram _ _ _ _ _) as [[[[pi m] h] b1] c1].
Qed.

Lemma stage_loop_ok regs stages b c :
  (stage_loop skip_hashes regs stages b c).1.1
  = forallb (fun i => negb (stage_rejected skip_hashes regs i)) stages.
Proof.
  revert b c. induction stages as [|i stages IH]; intros b c; simpl; [done|].
  pose proof (stage_step_ok regs i b c) as Hs.
  destruct (stage_step skip_hashes regs i b c) as [[ok b1] c1]; simpl in *.
  rewrite <- Hs. destruct ok; simpl; [apply IH|done].
Qed.

(** The refresh returns failure exactly when some stage of the loop is
    rejected. *)
Lemma RefreshGraphicsKey_ok regs c :
  (RefreshGraphicsKey skip_hashes regs c).1
  = forallb (fun i => negb (stage_rejected skip_hashes regs i)) (seq 0 MaxShaderStages).
Proof.
  unfold RefreshGraphicsKey.
  pose proof (stage_loop_ok regs (seq 0 MaxShaderStages) 0
                (set_graphics_key (first_pass regs (seq 0 NumColorBuffers) 0
                                     (key_prologue regs)) c)) as Hl.
  destruct (stage_loop _ _ _ _ _) as [[ok b1] c1]; simpl in *.
  rewrite <- Hl. by destruct ok.
Qed.

Lemma forallb_false_iff {A} (f : A → bool) (l : list A) :
  forallb f l = false ↔ ∃ x, x ∈ l ∧ f x = false.
Proof.
  induction l as [|a l IH]; simpl.
  - split; [done|]. intros (x & Hx & _). by apply elem_of_nil in Hx.
  - rewrite andb_false_iff, IH. split.
    + intros [Ha|(x & Hx & Hf)]; [exists a|exists x]; split; auto; set_solver.
    + intros (x & Hx & Hf). apply elem_of_cons in Hx as [->|Hx]; eauto.
Qed.

Lemma RefreshGraphicsKey_fails_iff regs c :
  (RefreshGraphicsKey skip_hashes regs c).1 = false ↔
  ∃ i, (i < MaxShaderStages)%nat ∧ stage_rejected skip_hashes regs i = true.
Proof.
  rewrite RefreshGraphicsKey_ok, forallb_false_iff. split.
  - intros (i & Hi & Hr). apply elem_of_seq in Hi.
    exists i. split; [lia|]. by apply negb_false_iff.
  - intros (i & Hi & Hr). exists i. split; [apply elem_of_seq; lia|].
    by rewrite Hr.
Qed.

(** A null pipeline: the early returns and the failed refresh. *)
Lemma GetGraphicsPipeline_null_iff regs c :
  (GetGraphicsPipeline skip_hashes regs c).1 = None ↔
  primitive_type regs = PatchPrimitive ∨
  color_control_mode regs = EliminateFastClear ∨
  color_control_mode regs = FmaskDecompress ∨
  primitive_type regs = PrimitiveNone ∨
  (RefreshGraphicsKey skip_hashes regs c).1 = false.
Proof.
  unfold GetGraphicsPipeline.
  repeat (case_bool_decide; [naive_solver|]).
  destruct (RefreshGraphicsKey skip_hashes regs c) as [ok c1]; simpl.
  destruct ok; simpl; [|naive_solver].
  destruct (graphics_pipelines c1 !! graphics_key c1); simpl; naive_solver.
Qed.

(** ** Stage slots after the stage loop *)

Lemma stage_step_hashes_length regs i b c :
  length (stage_hashes (graphics_key (stage_step skip_hashes regs i b c).2))
  = length (stage_hashes (graphics_key c)).
Proof.
  unfold stage_step, clear_stage.
  repeat case_match; simplify_eq; simpl; rewrite ?length_insert; try done.
  match goal with
  | E : GetProgram ?s ?p ?b ?r ?c = _ |- _ =>
      pose proof (GetProgram_graphics_key s p b r c) as Hk; rewrite E in Hk
  end.
  simpl in Hk. by rewrite Hk.
Qed.

Lemma clear_stage_other_slot i j c :
  i ≠ j → stage_slot (clear_stage j c) i = stage_slot c i.
Proof.
  intros Hne. unfold clear_stage, stage_slot, assign; simpl.
  rewrite list_lookup_insert_ne by done. by rewrite decide_False.
Qed.

Lemma stage_step_other_slot regs i j b c :
  i ≠ j → stage_slot (stage_step skip_hashes regs j b c).2 i = stage_slot c i.
Proof.
  intros Hne. unfold stage_step.
  repeat case_match; simplify_eq; try (by apply clear_stage_other_slot); try done.
  match goal with
  | E : GetProgram ?s ?p ?b ?r ?c = _ |- _ =>
      pose proof (GetProgram_frame s p b r c) as (Hk & _ & Hi & _); rewrite E in Hk, Hi
  end.
  unfold stage_slot, assign; simpl in *.
  rewrite list_lookup_insert_ne by done. rewrite decide_False by done.
  by rewrite Hk, Hi.
Qed.

Lemma stage_loop_hashes_length regs stages b c :
  length (stage_hashes (graphics_key (stage_loop skip_hashes regs stages b c).2))
  = length (stage_hashes (graphics_key c)).
Proof.
  revert b c. induction stages as [|i stages IH]; intros b c; simpl; [done|].
  pose proof (stage_step_hashes_length regs i b c) as Hs.
  destruct (stage_step skip_hashes regs i b c) as [[ok b1] c1]; simpl in *.
  destruct ok; [by rewrite IH|done].
Qed.

Lemma stage_loop_other_slot regs stages i b c :
  i ∉ stages → stage_slot (stage_loop skip_hashes regs stages b c).2 i = stage_slot c i.
Proof.
  revert b c. induction stages as [|j stages IH]; intros b c Hni; simpl; [done|].
  apply not_elem_of_cons in Hni as [Hne Hni].
  pose proof (stage_step_other_slot regs i j b c Hne) as Hs.
  destruct (stage_step skip_hashes regs j b c) as [[ok b1] c1]; simpl in *.
  destruct ok; [by rewrite IH|done].
Qed.

Lemma stage_loop_app regs l1 l2 b c :
  stage_loop skip_hashes regs (l1 ++ l2) b c
  = let '(ok, b1, c1) := stage_loop skip_hashes regs l1 b c in
    if ok then stage_loop skip_hashes regs l2 b1 c1 else (false, b1, c1).
Proof.
  revert b c. induction l1 as [|i l1 IH]; intros b c; simpl.
  - by destruct (stage_loop skip_hashes regs l2 b c) as [[[] ?] ?].
  - destruct (stage_step skip_hashes regs i b c) as [[ok b1] c1].
    destruct ok; [apply IH|done].
Qed.

Lemma seq_split_at (n i : nat) :
  (i < n)%nat → seq 0 n = seq 0 i ++ i :: seq (S i) (n - S i).
Proof.
  intros Hi. replace n with (i + S (n - S i))%nat at 1 by lia.
  by rewrite seq_app.
Qed.

(** The slot of stage [i] after a completed loop over all stages is the one
    iteration [i] wrote. *)
Lemma stage_loop_slot regs n i b c b' c' :
  (i < n)%nat →
  stage_loop skip_hashes regs (seq 0 n) b c = (true, b', c') →
  ∃ b1 c1 b2 c2,
    stage_loop skip_hashes regs (seq 0 i) b c = (true, b1, c1) ∧
    stage_step skip_hashes regs i b1 c1 = (true, b2, c2) ∧
    stage_slot c' i = stage_slot c2 i.
Proof.
  intros Hi. rewrite (seq_split_at n i Hi), stage_loop_app.
  destruct (stage_loop skip_hashes regs (seq 0 i) b c) as [[ok b1] c1].
  destruct ok; [|done]. simpl.
  destruct (stage_step skip_hashes regs i b1 c1) as [[ok b2] c2] eqn:Hstep.
  destruct ok; [|done]. intros Hrest.
  exists b1, c1, b2, c2. split_and!; try done.
  pose proof (stage_loop_other_slot regs (seq (S i) (n - S i)) i b2 c2) as Ho.
  rewrite Hrest in Ho. apply Ho. rewrite elem_of_seq. lia.
Qed.

Lemma stage_step_invalid_binary regs i b c :
  invalid_binary regs i →
  stage_step skip_hashes regs i b c = (true, b, clear_stage i c).
Proof.
  intros (Hen & pgm & Hp & Ha & Hv). unfold stage_step.
  rewrite Hen, Hp, Hv. simpl. by rewrite bool_decide_eq_false_2.
Qed.

Lemma invalid_binary_not_rejected regs i :
  invalid_binary regs i → stage_rejected skip_hashes regs i = false.
Proof.
  intros (Hen & pgm & Hp & Ha & Hv). unfold stage_rejected, resolved_program.
  by rewrite Hen, Hp, Hv, andb_false_r.
Qed.

Lemma RefreshGraphicsKey_hashes_length regs c :
  length (stage_hashes (graphics_key (RefreshGraphicsKey skip_hashes regs c).2))
  = MaxShaderStages.
Proof.
  unfold RefreshGraphicsKey.
  pose proof (stage_loop_hashes_length regs (seq 0 MaxShaderStages) 0
                (set_graphics_key (first_pass regs (seq 0 NumColorBuffers) 0
                                     (key_prologue regs)) c)) as Hl.
  destruct (stage_loop _ _ _ _ _) as [[ok b1] c1]; simpl in *.
  rewrite first_pass_stage_hashes in Hl. simpl in Hl. rewrite length_replicate in Hl.
  destruct ok; simpl; [|done].
  by rewrite second_pass_stage_hashes.
Qed.

(** ** Control flow of the key builder *)

(** C2 (amended): a stage that is enabled with a bound program whose
    binary-info header is invalid is zeroed and skipped: its iteration of
    the stage loop clears the stage hash and the info pointer and continues;
    when the refresh succeeds the key holds hash 0 and no info for it; and
    when the refresh fails, another stage, one the loop resolved, was
    rejected. *)
Theorem invalid_binary_info_clears_stage regs c i :
  (i < MaxShaderStages)%nat →
  invalid_binary regs i →
  (∀ b c0, stage_step skip_hashes regs i b c0 = (true, b, clear_stage i c0)) ∧
  ((RefreshGraphicsKey skip_hashes regs c).1 = true →
   stage_hashes (graphics_key (RefreshGraphicsKey skip_hashes regs c).2) !! i = Some 0 ∧
   infos (RefreshGraphicsKey skip_hashes regs c).2 i = None) ∧
  ((RefreshGraphicsKey skip_hashes regs c).1 = false →
   ∃ j, (j < MaxShaderStages)%nat ∧ j ≠ i ∧ stage_rejected skip_hashes regs j = true).
Proof.
  intros Hi Hinv. split_and!.
  - intros b c0. by apply stage_step_invalid_binary.
  - pose proof (RefreshGraphicsKey_hashes_length regs c) as Hlen.
    revert Hlen. unfold RefreshGraphicsKey.
    set (c0 := set_graphics_key _ c).
    destruct (stage_loop skip_hashes regs (seq 0 MaxShaderStages) 0 c0)
      as [[ok b1] c1] eqn:Hloop.
    destruct ok; simpl; [|done]. intros Hlen _.
    rewrite second_pass_stage_hashes in *. simpl in *.
    destruct (stage_loop_slot regs MaxShaderStages i 0 c0 b1 c1 Hi Hloop)
      as (b2 & c2 & b3 & c3 & _ & Hstep & Hslot).
    rewrite (stage_step_invalid_binary regs i b2 c2 Hinv) in Hstep.
    injection Hstep as <- <-.
    unfold stage_slot, clear_stage, assign in Hslot; simpl in Hslot.
    injection Hslot as Hh Hinf.
    rewrite decide_True in Hinf by done. split; [|done].
    assert (i < length (stage_hashes (graphics_key c2)))%nat as Hlt.
    { rewrite <- (length_insert (stage_hashes (graphics_key c2)) i 0).
      apply lookup_lt_is_Some. rewrite <- Hh. apply lookup_lt_is_Some. lia. }
    rewrite Hh. by apply list_lookup_insert_eq.
  - intros Hf. apply RefreshGraphicsKey_fails_iff in Hf as (j & Hj & Hr).
    exists j. split_and!; try done. intros ->.
    by rewrite (invalid_binary_not_rejected regs i Hinv) in Hr.
Qed.

(** C5 (amended): the draw is skipped when the topology is "patch" or
    "none", when the colour operation is a fast-clear elimination or an FMask
    decompression, or when the tessellation stage is enabled with a bound
    program and the stage loop resolves at least one stage. *)
Theorem unsupported_draw_is_skipped regs c :
  primitive_type regs = PatchPrimitive ∨
  primitive_type regs = PrimitiveNone ∨
  color_control_mode regs = EliminateFastClear ∨
  color_control_mode regs = FmaskDecompress ∨
  (tess_bound regs = true ∧
   ∃ i, (i < MaxShaderStages)%nat ∧ is_Some (resolved_program regs i)) →
  (GetGraphicsPipeline skip_hashes regs c).1 = None.
Proof.
  intros Hcase. apply GetGraphicsPipeline_null_iff.
  destruct Hcase as [?|[?|[?|[?|(Ht & i & Hi & pgm & Hp)]]]]; auto.
  do 4 right. apply RefreshGraphicsKey_fails_iff.
  exists i. split; [done|]. unfold stage_rejected.
  rewrite Hp, Ht. by rewrite orb_true_r.
Qed.

(** C8: in the key the refresh builds, depth writes are off whenever a depth
    clear is pending, whatever the register's write-enable bit; the depth
    and stencil formats are undefined unless the register format is valid;
    and the depth and stencil tests are enabled only with a defined format. *)
Theorem depth_stencil_key_state regs c :
  let k := graphics_key (RefreshGraphicsKey skip_hashes regs c).2 in
  depth_write_enable (depth_stencil k)
  = depth_write_enable (depth_control regs) && negb (depth_clear_enable regs) ∧
  (depth_clear_enable regs = true → depth_write_enable (depth_stencil k) = false) ∧
  (z_info_format regs = ZFormatInvalid → depth_format k = eUndefined) ∧
  (z_info_format regs ≠ ZFormatInvalid →
   depth_format k = DepthFormat (z_info_format regs) (stencil_info_format regs)) ∧
  (stencil_info_format regs = StencilFormatInvalid → stencil_format k = eUndefined) ∧
  (stencil_info_format regs ≠ StencilFormatInvalid → stencil_format k = depth_format k) ∧
  (depth_enable (depth_stencil k) = true → depth_format k ≠ eUndefined) ∧
  (stencil_enable (depth_stencil k) = true → stencil_format k ≠ eUndefined).
Proof.
  intros k.
  pose proof (RefreshGraphicsKey_depth_state regs c) as Hd.
  unfold depth_state in Hd. injection Hd as Hds Hdf Hsf. fold k in Hds, Hdf, Hsf.
  rewrite Hds, Hdf, Hsf. unfold key_prologue; simpl.
  destruct (depth_control regs) as [se de dwe rest]; simpl.
  split_and!.
  - done.
  - intros ->. by rewrite andb_false_r.
  - intros Hz. by rewrite decide_False by (by intros []).
  - intros Hz. by rewrite decide_True.
  - intros Hs. by rewrite (decide_False (P := stencil_info_format regs ≠ _)) by (by intros []).
  - intros Hs. by rewrite (decide_True (P := stencil_info_format regs ≠ _)).
  - destruct de; [|done]. intros Hb. by apply bool_decide_eq_true_1 in Hb.
  - destruct se; [|done]. intros Hb. by apply bool_decide_eq_true_1 in Hb.
Qed.

(** ** The pipeline maps *)

(** What one [GetGraphicsPipeline] call does to the graphics map and pool:
    nothing on a null return, nothing on a hit, one insertion and one
    construction on a miss. *)
Lemma GetGraphicsPipeline_step regs c :
  let r := (GetGraphicsPipeline skip_hashes regs c).1 in
  let c' := (GetGraphicsPipeline skip_hashes regs c).2 in
  compute_pipelines c' = compute_pipelines c ∧
  compute_pipeline_pool c' = compute_pipeline_pool c ∧
  match r with
  | None =>
      graphics_pipelines c' = graphics_pipelines c ∧
      graphics_pipeline_pool c' = graphics_pipeline_pool c
  | Some p =>
      (graphics_pipelines c !! graphics_key c' = Some p ∧
       graphics_pipelines c' = graphics_pipelines c ∧
       graphics_pipeline_pool c' = graphics_pipeline_pool c) ∨
      (graphics_pipelines c !! graphics_key c' = None ∧
       p = length (graphics_pipeline_pool c) ∧
       graphics_pipelines c' = <[graphics_key c' := p]> (graphics_pipelines c) ∧
       ∃ obj, graphics_pipeline_pool c' = graphics_pipeline_pool c ++ [obj] ∧
              gp_key obj = graphics_key c')
  end.
Proof.
  unfold GetGraphicsPipeline.
  repeat (case_bool_decide; [done|]).
  pose proof (RefreshGraphicsKey_pipeline_store regs c) as Hs.
  destruct (RefreshGraphicsKey skip_hashes regs c) as [ok c1]; simpl in *.
  unfold pipeline_store in Hs. injection Hs as Hg Hgp Hc Hcp.
  destruct ok; simpl; [|done].
  destruct (graphics_pipelines c1 !! graphics_key c1) as [p|] eqn:Hl; simpl.
  - split_and!; try done. left. by rewrite <- Hg.
  - split_and!; try done. right. rewrite <- Hg, <- Hgp. split_and!; try done. eauto.
Qed.

Lemma GetComputePipeline_step regs c :
  let r := (GetComputePipeline skip_hashes regs c).1 in
  let c' := (GetComputePipeline skip_hashes regs c).2 in
  graphics_pipelines c' = graphics_pipelines c ∧
  graphics_pipeline_pool c' = graphics_pipeline_pool c ∧
  match r with
  | None =>
      compute_pipelines c' = compute_pipelines c ∧
      compute_pipeline_pool c' = compute_pipeline_pool c
  | Some p =>
      (compute_pipelines c !! compute_key c' = Some p ∧
       compute_pipelines c' = compute_pipelines c ∧
       compute_pipeline_pool c' = compute_pipeline_pool c) ∨
      (compute_pipelines c !! compute_key c' = None ∧
       p = length (compute_pipeline_pool c) ∧
       compute_pipelines c' = <[compute_key c' := p]> (compute_pipelines c) ∧
       ∃ obj, compute_pipeline_pool c' = compute_pipeline_pool c ++ [obj] ∧
              cp_key obj = compute_key c')
  end.
Proof.
  unfold GetComputePipeline.
  pose proof (RefreshComputeKey_pipeline_store regs c) as Hs.
  destruct (RefreshComputeKey skip_hashes regs c) as [ok c1]; simpl in *.
  unfold pipeline_store in Hs. injection Hs as Hg Hgp Hc Hcp.
  destruct ok; simpl; [|done].
  destruct (compute_pipelines c1 !! compute_key c1) as [p|] eqn:Hl; simpl.
  - split_and!; try done. left. by rewrite <- Hc.
  - split_and!; try done. right. rewrite <- Hc, <- Hcp. split_and!; try done. eauto.
Qed.

(** A request whose refresh succeeds resolves its key: it returns the
    pipeline the map holds for the refreshed key or, for a new key, builds
    one object at the end of the pool and maps the key to it. *)
Lemma GetGraphicsPipeline_emplaces regs c :
  no_draw_needed regs = false →
  (RefreshGraphicsKey skip_hashes regs c).1 = true →
  let c1 := (RefreshGraphicsKey skip_hashes regs c).2 in
  let r := GetGraphicsPipeline skip_hashes regs c in
  graphics_key r.2 = graphics_key c1 ∧
  emplaced (graphics_key c1)
    {| gp_key := graphics_key c1; gp_infos := infos c1; gp_modules := modules c1 |}
    (graphics_pipelines c) (graphics_pipeline_pool c)
    r.1 (graphics_pipelines r.2) (graphics_pipeline_pool r.2).
Proof.
  unfold no_draw_needed. rewrite !orb_false_iff, !bool_decide_eq_false.
  intros [[[H1 H2] H3] H4]. unfold GetGraphicsPipeline.
  rewrite !bool_decide_eq_false_2 by done.
  pose proof (RefreshGraphicsKey_pipeline_store regs c) as Hs.
  destruct (RefreshGraphicsKey skip_hashes regs c) as [ok c1]; simpl in *.
  unfold pipeline_store in Hs. injection Hs as Hg Hgp Hc Hcp.
  intros ->. simpl. unfold emplaced. rewrite <- Hg, <- Hgp.
  by destruct (graphics_pipelines c1 !! graphics_key c1) as [p|] eqn:Hl.
Qed.

Lemma GetComputePipeline_emplaces regs c :
  (RefreshComputeKey skip_hashes regs c).1 = true →
  let c1 := (RefreshComputeKey skip_hashes regs c).2 in
  let r := GetComputePipeline skip_hashes regs c in
  compute_key r.2 = compute_key c1 ∧
  emplaced (compute_key c1)
    {| cp_key := compute_key c1; cp_info := infos c1 0%nat; cp_module := modules c1 0%nat |}
    (compute_pipelines c) (compute_pipeline_pool c)
    r.1 (compute_pipelines r.2) (compute_pipeline_pool r.2).
Proof.
  unfold GetComputePipeline.
  pose proof (RefreshComputeKey_pipeline_store regs c) as Hs.
  destruct (RefreshComputeKey skip_hashes regs c) as [ok c1]; simpl in *.
  unfold pipeline_store in Hs. injection Hs as Hg Hgp Hc Hcp.
  intros ->. simpl. unfold emplaced. rewrite <- Hc, <- Hcp.
  by destruct (compute_pipelines c1 !! compute_key c1) as [p|] eqn:Hl.
Qed.

Lemma GetComputePipeline_null_iff regs c :
  (GetComputePipeline skip_hashes regs c).1 = None ↔
  (RefreshComputeKey skip_hashes regs c).1 = false.
Proof.
  unfold GetComputePipeline.
  destruct (RefreshComputeKey skip_hashes regs c) as [ok c1]; simpl.
  destruct ok; simpl; [|done].
  by destruct (compute_pipelines c1 !! compute_key c1).
Qed.

Lemma store_inv_hit {K O} `{Countable K} (key_of : O → K) hits m pool k p :
  store_inv key_of hits m pool → m !! k = Some p →
  store_inv key_of (hits ++ [(k, p)]) m pool.
Proof.
  intros (H1 & H2 & H3 & H4) Hk. split_and!; [| |done|done].
  - intros k' p' Hin. apply elem_of_app in Hin as [Hin|Hin]; [by apply H1|].
    apply list_elem_of_singleton in Hin. by simplify_eq.
  - intros k' p' Hl. destruct (H2 k' p' Hl) as [Hin Hobj].
    split; [|done]. apply elem_of_app. by left.
Qed.

Lemma store_inv_miss {K O} `{Countable K} (key_of : O → K) hits m pool k obj :
  store_inv key_of hits m pool → m !! k = None → key_of obj = k →
  store_inv key_of (hits ++ [(k, length pool)]) (<[k := length pool]> m) (pool ++ [obj]).
Proof.
  intros (H1 & H2 & H3 & H4) Hk Hobj. split_and!.
  - intros k' p' Hin. apply elem_of_app in Hin as [Hin|Hin].
    + rewrite lookup_insert_ne; [by apply H1|].
      intros <-. apply H1 in Hin. congruence.
    + apply list_elem_of_singleton in Hin. simplify_eq. apply lookup_insert_eq.
  - intros k' p' Hl. destruct (decide (k = k')) as [<-|Hne].
    + rewrite lookup_insert_eq in Hl. simplify_eq. split.
      * apply elem_of_app. right. by apply list_elem_of_singleton.
      * exists obj. split; [|done]. by apply list_lookup_middle.
    + rewrite lookup_insert_ne in Hl by done.
      destruct (H2 k' p' Hl) as (Hin & o & Ho & Hko). split.
      * apply elem_of_app. by left.
      * exists o. split; [|done]. by apply lookup_app_l_Some.
  - intros p o Hl. apply lookup_app_Some in Hl as [Hl|[Hge Hl]].
    + rewrite lookup_insert_ne; [by apply H3|].
      intros Heq. apply H3 in Hl. congruence.
    + apply list_lookup_singleton_Some in Hl as [Hz Heq]. subst.
      replace p with (length pool) by lia. apply lookup_insert_eq.
  - rewrite map_size_insert_None by done. rewrite length_app. simpl. lia.
Qed.

Lemma store_inv_skip {K O} `{Countable K} (key_of : O → K) hits m pool :
  store_inv key_of hits m pool → store_inv key_of (hits ++ []) m pool.
Proof. by rewrite app_nil_r. Qed.

Lemma run_call_stores_inv call evs c :
  stores_inv evs c →
  stores_inv (evs ++ [(run_call skip_hashes call c).1]) (run_call skip_hashes call c).2.
Proof.
  intros [Hg Hc]. unfold stores_inv, draw_hits, dispatch_hits.
  rewrite !omap_app. destruct call as [regs|regs]; simpl.
  - pose proof (GetGraphicsPipeline_step regs c) as Hstep. simpl in Hstep.
    destruct (GetGraphicsPipeline skip_hashes regs c) as [r c1]; simpl in *.
    destruct Hstep as (Hcm & Hcp & Hr). rewrite Hcm, Hcp.
    split; [|by apply store_inv_skip].
    destruct r as [p|]; simpl.
    + destruct Hr as [(Hl & -> & ->)|(Hl & -> & -> & obj & -> & Hobj)].
      * by apply store_inv_hit.
      * by apply store_inv_miss.
    + destruct Hr as [-> ->]. by apply store_inv_skip.
  - pose proof (GetComputePipeline_step regs c) as Hstep. simpl in Hstep.
    destruct (GetComputePipeline skip_hashes regs c) as [r c1]; simpl in *.
    destruct Hstep as (Hgm & Hgp & Hr). rewrite Hgm, Hgp.
    split; [by apply store_inv_skip|].
    destruct r as [p|]; simpl.
    + destruct Hr as [(Hl & -> & ->)|(Hl & -> & -> & obj & -> & Hobj)].
      * by apply store_inv_hit.
      * by apply store_inv_miss.
    + destruct Hr as [-> ->]. by apply store_inv_skip.
Qed.

Lemma run_calls_stores_inv calls evs c :
  stores_inv evs c →
  stores_inv (evs ++ (run_calls skip_hashes calls c).1) (run_calls skip_hashes calls c).2.
Proof.
  revert evs c. induction calls as [|call calls IH]; intros evs c Hinv; simpl.
  - by rewrite app_nil_r.
  - pose proof (run_call_stores_inv call evs c Hinv) as Hstep.
    destruct (run_call skip_hashes call c) as [e c1]; simpl in *.
    specialize (IH _ _ Hstep).
    destruct (run_calls skip_hashes calls c1) as [es c2]; simpl in *.
    by rewrite <- app_assoc in IH.
Qed.

Lemma stores_inv_empty : stores_inv [] empty_cache.
Proof.
  split; (split_and!; [intros ?? Hin; by apply elem_of_nil in Hin
                      |intros ?? Hl; simpl in Hl; by rewrite lookup_empty in Hl
                      |intros ?? Hl; simpl in Hl; by rewrite lookup_nil in Hl|done]).
Qed.

(** C3: along any history of pipeline requests on a fresh cache, a request
    that returns a pipeline returns the one its refreshed key maps to, so two
    requests with equal keys return the same object; every entry of a
    pipeline map comes from such a request and points to the object built
    for its key; every object of a pool is the one its key maps to, so no
    two objects have the same key, and the pool holds exactly one object per
    entry.  On every state, a request returns null exactly when it needs no
    draw or its refresh fails, and then stores nothing; a request whose
    refresh succeeds returns the pipeline the map holds for the refreshed
    key and builds nothing, or, when the key is new, builds one object for
    it at the end of the pool, maps the key to it and returns it. *)
Theorem one_pipeline_per_key calls :
  let evs := (run_calls skip_hashes calls empty_cache).1 in
  let c := (run_calls skip_hashes calls empty_cache).2 in
  (∀ k p1 p2, (k, p1) ∈ draw_hits evs → (k, p2) ∈ draw_hits evs → p1 = p2) ∧
  (∀ k p1 p2, (k, p1) ∈ dispatch_hits evs → (k, p2) ∈ dispatch_hits evs → p1 = p2) ∧
  (∀ k p, (k, p) ∈ draw_hits evs → graphics_pipelines c !! k = Some p) ∧
  (∀ k p, (k, p) ∈ dispatch_hits evs → compute_pipelines c !! k = Some p) ∧
  (∀ k p, graphics_pipelines c !! k = Some p →
     (k, p) ∈ draw_hits evs ∧
     ∃ obj, graphics_pipeline_pool c !! p = Some obj ∧ gp_key obj = k) ∧
  (∀ k p, compute_pipelines c !! k = Some p →
     (k, p) ∈ dispatch_hits evs ∧
     ∃ obj, compute_pipeline_pool c !! p = Some obj ∧ cp_key obj = k) ∧
  (∀ p obj, graphics_pipeline_pool c !! p = Some obj →
     graphics_pipelines c !! gp_key obj = Some p) ∧
  (∀ p obj, compute_pipeline_pool c !! p = Some obj →
     compute_pipelines c !! cp_key obj = Some p) ∧
  size (graphics_pipelines c) = length (graphics_pipeline_pool c) ∧
  size (compute_pipelines c) = length (compute_pipeline_pool c) ∧
  (∀ regs c0,
     (RefreshGraphicsKey skip_hashes regs c0).1 = false ∨
     (GetGraphicsPipeline skip_hashes regs c0).1 = None →
     pipeline_store (GetGraphicsPipeline skip_hashes regs c0).2 = pipeline_store c0) ∧
  (∀ regs c0,
     (RefreshComputeKey skip_hashes regs c0).1 = false ∨
     (GetComputePipeline skip_hashes regs c0).1 = None →
     pipeline_store (GetComputePipeline skip_hashes regs c0).2 = pipeline_store c0) ∧
  (∀ regs c0,
     (GetGraphicsPipeline skip_hashes regs c0).1 = None ↔
     no_draw_needed regs = true ∨ (RefreshGraphicsKey skip_hashes regs c0).1 = false) ∧
  (∀ regs c0,
     (GetComputePipeline skip_hashes regs c0).1 = None ↔
     (RefreshComputeKey skip_hashes regs c0).1 = false) ∧
  (∀ regs c0,
     no_draw_needed regs = false →
     (RefreshGraphicsKey skip_hashes regs c0).1 = true →
     let c1 := (RefreshGraphicsKey skip_hashes regs c0).2 in
     let r := GetGraphicsPipeline skip_hashes regs c0 in
     graphics_key r.2 = graphics_key c1 ∧
     emplaced (graphics_key c1)
       {| gp_key := graphics_key c1; gp_infos := infos c1; gp_modules := modules c1 |}
       (graphics_pipelines c0) (graphics_pipeline_pool c0)
       r.1 (graphics_pipelines r.2) (graphics_pipeline_pool r.2)) ∧
  (∀ regs c0,
     (RefreshComputeKey skip_hashes regs c0).1 = true →
     let c1 := (RefreshComputeKey skip_hashes regs c0).2 in
     let r := GetComputePipeline skip_hashes regs c0 in
     compute_key r.2 = compute_key c1 ∧
     emplaced (compute_key c1)
       {| cp_key := compute_key c1; cp_info := infos c1 0%nat;
          cp_module := modules c1 0%nat |}
       (compute_pipelines c0) (compute_pipeline_pool c0)
       r.1 (compute_pipelines r.2) (compute_pipeline_pool r.2)).
Proof.
  intros evs c.
  pose proof (run_calls_stores_inv calls [] empty_cache stores_inv_empty) as Hinv.
  simpl in Hinv. fold evs c in Hinv.
  destruct Hinv as [(Hg1 & Hg2 & Hg3 & Hg4) (Hc1 & Hc2 & Hc3 & Hc4)].
  split_and!; try done.
  - intros k p1 p2 H1 H2. apply Hg1 in H1, H2. congruence.
  - intros k p1 p2 H1 H2. apply Hc1 in H1, H2. congruence.
  - intros regs c0 Hnull.
    assert ((GetGraphicsPipeline skip_hashes regs c0).1 = None) as Hn.
    { destruct Hnull as [Hf|Hn]; [|done].
      apply GetGraphicsPipeline_null_iff. tauto. }
    pose proof (GetGraphicsPipeline_step regs c0) as Hstep. simpl in Hstep.
    rewrite Hn in Hstep. destruct Hstep as (H1 & H2 & H3 & H4).
    unfold pipeline_store. by rewrite H1, H2, H3, H4.
  - intros regs c0 Hnull.
    assert ((GetComputePipeline skip_hashes regs c0).1 = None) as Hn.
    { destruct Hnull as [Hf|Hn]; [|done].
      unfold GetComputePipeline.
      destruct (RefreshComputeKey skip_hashes regs c0) as [ok c1]; simpl in *.
      by subst ok. }
    pose proof (GetComputePipeline_step regs c0) as Hstep. simpl in Hstep.
    rewrite Hn in Hstep. destruct Hstep as (H1 & H2 & H3 & H4).
    unfold pipeline_store. by rewrite H1, H2, H3, H4.
  - intros regs c0. rewrite GetGraphicsPipeline_null_iff.
    unfold no_draw_needed. rewrite !orb_true_iff, !bool_decide_eq_true. tauto.
  - intros regs c0. apply GetComputePipeline_null_iff.
  - intros regs c0. apply GetGraphicsPipeline_emplaces.
  - intros regs c0. apply GetComputePipeline_emplaces.
Qed.

(** ** The denylist and the translator's trace *)

(** [GetProgram] logs at most one compilation, under the hash it was
    called with. *)
Lemma GetProgram_trace s p b regs c :
  compiled (GetProgram s p b regs c).2 = compiled c ∨
  ∃ idx, compiled (GetProgram s p b regs c).2 = compiled c ++ [(hash p, idx)].
Proof.
  unfold GetProgram, CompileModule.
  repeat case_match; simplify_eq; simpl; eauto.
Qed.

Lemma GetProgram_trace_clean s p b regs c :
  ShouldSkipShader skip_hashes (hash p) = false →
  trace_clean skip_hashes c → trace_clean skip_hashes (GetProgram s p b regs c).2.
Proof.
  intros Hp Hc h idx Hin.
  destruct (GetProgram_trace s p b regs c) as [Heq|[i Heq]]; rewrite Heq in Hin.
  - by eapply Hc.
  - apply elem_of_app in Hin as [Hin|Hin]; [by eapply Hc|].
    apply list_elem_of_singleton in Hin. by simplify_eq.
Qed.

Lemma stage_step_trace_clean regs i b c :
  trace_clean skip_hashes c → trace_clean skip_hashes (stage_step skip_hashes regs i b c).2.
Proof.
  intros Hc. unfold stage_step.
  destruct (negb (IsStageEnabled regs i)); [done|].
  destruct (ProgramForStage regs i) as [pgm|]; [|done].
  destruct (bool_decide (Address pgm = 0)); [done|].
  destruct (negb (Valid (bininfo pgm))); [done|].
  destruct (ShouldSkipShader skip_hashes (shader_hash (bininfo pgm))) eqn:Hskip; [done|].
  destruct (_ && _); [done|].
  destruct (tess_bound regs); [done|].
  pose proof (GetProgram_trace_clean (StageFromIndex i) (GetParams pgm) b regs c Hskip Hc)
    as Hclean.
  destruct (GetProgram _ _ _ _ _) as [[[[pi m] h] b1] c1]. done.
Qed.

Lemma stage_loop_trace_clean regs stages b c :
  trace_clean skip_hashes c → trace_clean skip_hashes (stage_loop skip_hashes regs stages b c).2.
Proof.
  revert b c. induction stages as [|i stages IH]; intros b c Hc; simpl; [done|].
  pose proof (stage_step_trace_clean regs i b c Hc) as Hs.
  destruct (stage_step skip_hashes regs i b c) as [[ok b1] c1]; simpl in *.
  destruct ok; [by apply IH|done].
Qed.

Lemma RefreshGraphicsKey_trace_clean regs c :
  trace_clean skip_hashes c → trace_clean skip_hashes (RefreshGraphicsKey skip_hashes regs c).2.
Proof.
  intros Hc. unfold RefreshGraphicsKey.
  pose proof (stage_loop_trace_clean regs (seq 0 MaxShaderStages) 0
                (set_graphics_key (first_pass regs (seq 0 NumColorBuffers) 0
                                     (key_prologue regs)) c) Hc) as Hl.
  destruct (stage_loop _ _ _ _ _) as [[ok b1] c1]; simpl in *.
  by destruct ok.
Qed.

Lemma RefreshComputeKey_trace_clean regs c :
  trace_clean skip_hashes c → trace_clean skip_hashes (RefreshComputeKey skip_hashes regs c).2.
Proof.
  intros Hc. unfold RefreshComputeKey.
  destruct (ShouldSkipShader skip_hashes (hash (GetParams_cs (cs_program regs))))
    eqn:Hskip; [done|].
  pose proof (GetProgram_trace_clean Compute (GetParams_cs (cs_program regs)) 0 regs c
                Hskip Hc) as Hclean.
  destruct (GetProgram _ _ _ _ _) as [[[[pi m] h] b1] c1]. done.
Qed.

Lemma run_call_trace_clean call c :
  trace_clean skip_hashes c → trace_clean skip_hashes (run_call skip_hashes call c).2.
Proof.
  intros Hc. destruct call as [regs|regs]; simpl.
  - unfold GetGraphicsPipeline.
    repeat (case_bool_decide; [done|]).
    pose proof (RefreshGraphicsKey_trace_clean regs c Hc) as Hr.
    destruct (RefreshGraphicsKey skip_hashes regs c) as [ok c1]; simpl in *.
    destruct ok; simpl; [|done].
    by destruct (graphics_pipelines c1 !! graphics_key c1).
  - unfold GetComputePipeline.
    pose proof (RefreshComputeKey_trace_clean regs c Hc) as Hr.
    destruct (RefreshComputeKey skip_hashes regs c) as [ok c1]; simpl in *.
    destruct ok; simpl; [|done].
    by destruct (compute_pipelines c1 !! compute_key c1).
Qed.

Lemma run_calls_trace_clean calls c :
  trace_clean skip_hashes c → trace_clean skip_hashes (run_calls skip_hashes calls c).2.
Proof.
  revert c. induction calls as [|call calls IH]; intros c Hc; simpl; [done|].
  pose proof (run_call_trace_clean call c Hc) as Hs.
  destruct (run_call skip_hashes call c) as [e c1]; simpl in *.
  specialize (IH c1 Hs).
  by destruct (run_calls skip_hashes calls c1) as [es c2].
Qed.

(** C7: a shader whose content hash is on the denylist is never handed to
    the translator, along any history of requests on a fresh cache; and a
    draw that uses it, or a dispatch of it, gets no pipeline. *)
Theorem denylisted_shader_never_compiled h :
  h ∈ skip_hashes →
  (∀ calls idx, (h, idx) ∉ compiled (run_calls skip_hashes calls empty_cache).2) ∧
  (∀ regs c, uses_shader regs h → (GetGraphicsPipeline skip_hashes regs c).1 = None) ∧
  (∀ regs c, shader_hash (cs_bininfo (cs_program regs)) = h →
             (GetComputePipeline skip_hashes regs c).1 = None).
Proof.
  intros Hin.
  assert (ShouldSkipShader skip_hashes h = true) as Hskip.
  { unfold ShouldSkipShader. by apply bool_decide_eq_true_2. }
  split_and!.
  - intros calls idx Hc.
    assert (trace_clean skip_hashes empty_cache) as Hclean.
    { intros ?? Hn. by apply elem_of_nil in Hn. }
    apply (run_calls_trace_clean calls) in Hclean.
    apply Hclean in Hc. congruence.
  - intros regs c (i & pgm & Hi & Hp & Hh).
    apply GetGraphicsPipeline_null_iff. do 4 right.
    apply RefreshGraphicsKey_fails_iff. exists i. split; [done|].
    unfold stage_rejected. by rewrite Hp, Hh, Hskip.
  - intros regs c Hh. unfold GetComputePipeline, RefreshComputeKey. simpl.
    by rewrite Hh, Hskip.
Qed.

(** ** The dedup hash *)

Lemma lxor_cancel_l (s a b : Z) : Z.lxor s a = Z.lxor s b → a = b.
Proof.
  intros Heq.
  rewrite <- (Z.lxor_0_l a), <- (Z.lxor_0_l b), <- (Z.lxor_nilpotent s).
  rewrite !Z.lxor_assoc. by rewrite Heq.
Qed.

Lemma add_mod_cancel (m a b k : Z) :
  0 ≤ a < m → 0 ≤ b < m → (a + k) mod m = (b + k) mod m → a = b.
Proof.
  intros Ha Hb Heq.
  assert ((a - b) mod m = 0) as Hd.
  { replace (a - b) with ((a + k) - (b + k)) by lia.
    rewrite Zminus_mod, Heq, Z.sub_diag. apply Z.mod_0_l. lia. }
  apply Z.mod_divide in Hd; [|lia]. destruct Hd as [q Hq].
  assert (q = 0) by nia. lia.
Qed.

(** For a fixed seed the mixing function is injective on [u64] values. *)
Lemma HashCombine_inj (seed a b : Z) :
  0 ≤ a < 2 ^ 64 → 0 ≤ b < 2 ^ 64 →
  HashCombine seed a = HashCombine seed b → a = b.
Proof.
  intros Ha Hb Heq. unfold HashCombine in Heq. apply lxor_cancel_l in Heq.
  unfold wrap64 in Heq.
  repeat (rewrite ?Z.add_mod_idemp_l in Heq by lia; rewrite <- ?Z.add_assoc in Heq).
  exact (add_mod_cancel _ _ _ _ Ha Hb Heq).
Qed.

(** ** The program cache *)

Lemma cache_extends_refl c : cache_extends c c.
Proof. intros h p Hp. exists p. by split_and!. Qed.

Lemma cache_extends_trans c1 c2 c3 :
  cache_extends c1 c2 → cache_extends c2 c3 → cache_extends c1 c3.
Proof.
  intros H12 H23 h p1 Hp1.
  destruct (H12 h p1 Hp1) as (p2 & Hp2 & Hi2 & Hpre2).
  destruct (H23 h p2 Hp2) as (p3 & Hp3 & Hi3 & Hpre3).
  exists p3. split_and!; [done|congruence|by etrans].
Qed.

Lemma cache_extends_same c1 c2 c3 :
  program_cache c2 = program_cache c3 → cache_extends c1 c2 → cache_extends c1 c3.
Proof. intros Heq H12 h p1 Hp1. rewrite <- Heq. by apply H12. Qed.

(** The three paths of [GetProgram]. *)
Lemma GetProgram_new s p b regs c :
  program_cache c !! hash p = None →
  let ri := BuildRuntimeInfo s regs (graphics_key c) in
  let tr := TranslateProgram (params_code p) (NewInfo s p) ri in
  let m := length (compiled c) in
  GetProgram s p b regs c
  = ((tr.2, m, HashCombine (hash p) 0), (EmitSPIRV ri tr.1 b).2,
     set_programs
       (<[hash p := {| info := tr.2;
                       program_modules := [Build_ProgramModule m (call_spec s regs c b)] |}]>
          (program_cache c))
       (compiled c ++ [(hash p, 0%nat)]) c).
Proof.
  intros Hn. unfold GetProgram, CompileModule. rewrite Hn. simpl.
  destruct (TranslateProgram _ _ _) as [ir i1]; simpl.
  by destruct (EmitSPIRV _ _ _) as [spv b1].
Qed.

Lemma GetProgram_miss s p b regs c prog :
  program_cache c !! hash p = Some prog →
  find_permutation (call_spec s regs c b) (program_modules prog) = None →
  let ri := BuildRuntimeInfo s regs (graphics_key c) in
  let tr := TranslateProgram (params_code p) (NewInfo s p) ri in
  let m := length (compiled c) in
  let idx := length (program_modules prog) in
  GetProgram s p b regs c
  = ((info prog, m, HashCombine (hash p) (Z.of_nat idx)), (EmitSPIRV ri tr.1 b).2,
     set_programs
       (<[hash p := {| info := info prog;
                       program_modules :=
                         program_modules prog
                         ++ [Build_ProgramModule m (call_spec s regs c b)] |}]>
          (program_cache c))
       (compiled c ++ [(hash p, idx)]) c).
Proof.
  intros Hp Hf. unfold GetProgram, CompileModule. rewrite Hp. simpl.
  unfold call_spec in Hf. rewrite Hf.
  destruct (TranslateProgram _ _ _) as [ir i1]; simpl.
  by destruct (EmitSPIRV _ _ _) as [spv b1].
Qed.

Lemma GetProgram_hit s p b regs c idx m i :
  resolved_at c (hash p) (call_spec s regs c b) idx m i →
  GetProgram s p b regs c
  = ((i, m, HashCombine (hash p) (Z.of_nat idx)), wrap32 (b + NumBindings i), c).
Proof.
  intros (prog & Hp & <- & Hf). unfold GetProgram. rewrite Hp. simpl.
  unfold call_spec in Hf. by rewrite Hf.
Qed.

Lemma find_permutation_spec sp ms idx pm :
  find_permutation sp ms = Some (idx, pm) → spec pm = sp.
Proof. intros Hf. by apply list_find_Some in Hf as (_ & Hs & _). Qed.

Lemma find_permutation_snoc sp ms m :
  find_permutation sp ms = None →
  find_permutation sp (ms ++ [Build_ProgramModule m sp])
  = Some (length ms, Build_ProgramModule m sp).
Proof.
  intros Hn. unfold find_permutation in *.
  apply list_find_Some. split_and!.
  - by apply list_lookup_middle.
  - done.
  - intros j y Hj Hlt. rewrite lookup_app_l in Hj by done.
    rewrite list_find_None in Hn. rewrite Forall_forall in Hn.
    apply Hn. by eapply list_elem_of_lookup_2.
Qed.

(** After [GetProgram] the request is answered by the index the dedup hash
    was built from, and the cache only grew. *)
Lemma GetProgram_resolved s p b regs c :
  let r := GetProgram s p b regs c in
  cache_extends c r.2 ∧
  ∃ idx, resolved_at r.2 (hash p) (call_spec s regs c b) idx r.1.1.1.2 r.1.1.1.1 ∧
         r.1.1.2 = HashCombine (hash p) (Z.of_nat idx) ∧
         (program_cache c !! hash p = None → idx = 0%nat) ∧
         (idx < permutation_count c (hash p)
          ∨ idx = permutation_count c (hash p)
            ∧ permutation_count r.2 (hash p) = S idx
            ∧ ∃ m, compiled r.2 = compiled c ++ [(hash p, idx)]
                   ∧ permutation r.2 (hash p) idx
                     = Some (Build_ProgramModule m (call_spec s regs c b)))%nat.
Proof.
  destruct (program_cache c !! hash p) as [prog|] eqn:Hp.
  - destruct (find_permutation (call_spec s regs c b) (program_modules prog))
      as [[idx pm]|] eqn:Hf.
    + assert (resolved_at c (hash p) (call_spec s regs c b) idx (module pm) (info prog))
        as Hres.
      { exists prog. split_and!; try done. rewrite Hf.
        apply find_permutation_spec in Hf as Hs. destruct pm; simpl in *. by subst. }
      rewrite (GetProgram_hit _ _ _ _ _ _ _ _ Hres). simpl.
      split; [apply cache_extends_refl|].
      exists idx. split_and!; try done. left.
      unfold permutation_count. rewrite Hp. simpl.
      apply list_find_Some in Hf as (Hl & _). by eapply lookup_lt_Some.
    + rewrite (GetProgram_miss _ _ _ _ _ _ Hp Hf). simpl. split.
      * intros h p1 Hp1. destruct (decide (h = hash p)) as [->|Hne].
        -- simpl. rewrite lookup_insert_eq. eexists. split; [done|].
           simplify_eq. split; [done|]. by apply prefix_app_r.
        -- simpl. rewrite lookup_insert_ne by done. exists p1. by split_and!.
      * exists (length (program_modules prog)). split_and!; try done.
        -- eexists. simpl. rewrite lookup_insert_eq. split_and!; try done. simpl.
           by apply find_permutation_snoc.
        -- right. unfold permutation_count, permutation. simpl.
           rewrite Hp, lookup_insert_eq. simpl.
           split_and!; [done|rewrite length_app; simpl; lia|].
           eexists. split; [done|]. by apply list_lookup_middle.
  - rewrite (GetProgram_new _ _ _ _ _ Hp). simpl. split.
    + intros h p1 Hp1. destruct (decide (h = hash p)) as [->|Hne]; [congruence|].
      simpl. rewrite lookup_insert_ne by done. exists p1. by split_and!.
    + exists 0%nat. split_and!; try done.
      * eexists. simpl. rewrite lookup_insert_eq. split_and!; try done. simpl.
        unfold find_permutation. simpl. by rewrite decide_True.
      * right. unfold permutation_count, permutation. simpl.
        rewrite Hp, lookup_insert_eq. simpl. split_and!; try done. eauto.
Qed.

Lemma resolved_at_extends c c' h sp idx m i :
  resolved_at c h sp idx m i → cache_extends c c' → resolved_at c' h sp idx m i.
Proof.
  intros (prog & Hp & Hi & Hf) Hext.
  destruct (Hext h prog Hp) as (prog' & Hp' & Hi' & [k Hk]).
  exists prog'. split_and!; [done|congruence|].
  rewrite Hk. unfold find_permutation in *. by apply list_find_app_l.
Qed.

Lemma resolved_at_permutation c h sp idx m i :
  resolved_at c h sp idx m i →
  permutation c h idx = Some {| module := m; spec := sp |} ∧
  (idx < permutation_count c h)%nat.
Proof.
  intros (prog & Hp & Hi & Hf). unfold permutation, permutation_count. rewrite Hp. simpl.
  apply list_find_Some in Hf as (Hl & _). split; [done|]. by eapply lookup_lt_Some.
Qed.

Lemma resolved_at_unique c h sp idx1 m1 i1 idx2 m2 i2 :
  resolved_at c h sp idx1 m1 i1 → resolved_at c h sp idx2 m2 i2 →
  idx1 = idx2 ∧ m1 = m2 ∧ i1 = i2.
Proof.
  intros (prog & Hp & Hi & Hf) (prog' & Hp' & Hi' & Hf').
  simplify_eq. done.
Qed.

(** The permutation index of one [GetProgram] call, case by case. *)
Lemma GetProgram_index s p b regs c :
  let r := GetProgram s p b regs c in
  let sp := call_spec s regs c b in
  ∃ idx,
    r.1.1.2 = HashCombine (hash p) (Z.of_nat idx) ∧
    resolved_at r.2 (hash p) sp idx r.1.1.1.2 r.1.1.1.1 ∧
    (program_cache c !! hash p = None →
     idx = 0%nat ∧ permutation_count r.2 (hash p) = 1%nat) ∧
    (∀ j m i, resolved_at c (hash p) sp j m i → idx = j ∧ r.2 = c) ∧
    (is_Some (program_cache c !! hash p) →
     (∀ j pm, permutation c (hash p) j = Some pm → spec pm ≠ sp) →
     idx = permutation_count c (hash p) ∧ permutation_count r.2 (hash p) = S idx).
Proof.
  intros r sp.
  destruct (GetProgram_resolved s p b regs c) as (Hext & idx & Hres & Hh & Hnew & Hcase).
  fold r sp in Hext, Hres, Hh, Hcase.
  exists idx. split_and!; try done.
  - intros Hn. split; [by apply Hnew|].
    destruct Hcase as [Hlt|(_ & Hc & _)].
    + unfold permutation_count in Hlt. rewrite Hn in Hlt. simpl in Hlt. lia.
    + by rewrite Hc, (Hnew Hn).
  - intros j m i Hj. subst r. rewrite (GetProgram_hit _ _ _ _ _ _ _ _ Hj) in *.
    simpl in *. split; [|done].
    by destruct (resolved_at_unique _ _ _ _ _ _ _ _ _ Hres Hj).
  - intros [prog Hp] Hmiss. destruct Hcase as [Hlt|(Hi & Hc & _)]; [|done].
    exfalso.
    assert (find_permutation sp (program_modules prog) = None) as Hf.
    { apply list_find_None, Forall_forall. intros pm Hin Hs.
      apply list_elem_of_lookup_1 in Hin as [j Hj].
      apply (Hmiss j pm); [|done]. unfold permutation. by rewrite Hp. }
    subst r. rewrite (GetProgram_miss _ _ _ _ _ _ Hp Hf) in *. simpl in *.
    destruct Hres as (prog' & Hp' & _ & Hf'). simpl in Hp'.
    rewrite lookup_insert_eq in Hp'. simplify_eq. simpl in Hf'.
    fold sp in Hf'. rewrite (find_permutation_snoc sp _ _ Hf) in Hf'.
    unfold permutation_count in Hlt. rewrite Hp in Hlt. simpl in Hlt.
    simplify_eq. lia.
Qed.

(** C6: the dedup hash of a [GetProgram] call is [HashCombine] of the
    content hash and the permutation index, which is 0 for a new program,
    the index of the matched permutation on a match and the number of
    modules before the append on a miss.  Of two calls for the same content
    hash, the second on any later state of the cache: with unequal
    specialization descriptors they are answered by two distinct permutation
    entries and get distinct dedup hashes; with equal descriptors the second
    reuses the permutation of the first, gets the same module and dedup hash,
    and leaves the cache as it was. *)
Theorem dedup_hash_identifies_permutation s1 p1 b1 regs1 c1 s2 p2 b2 regs2 c2 :
  let r1 := GetProgram s1 p1 b1 regs1 c1 in
  let r2 := GetProgram s2 p2 b2 regs2 c2 in
  let sp1 := call_spec s1 regs1 c1 b1 in
  let sp2 := call_spec s2 regs2 c2 b2 in
  hash p1 = hash p2 →
  cache_extends r1.2 c2 →
  Z.of_nat (permutation_count r2.2 (hash p2)) ≤ 2 ^ 64 →
  ∃ idx1 idx2,
    r1.1.1.2 = HashCombine (hash p1) (Z.of_nat idx1) ∧
    r2.1.1.2 = HashCombine (hash p2) (Z.of_nat idx2) ∧
    (program_cache c1 !! hash p1 = None → idx1 = 0%nat) ∧
    (∀ j m i, resolved_at c1 (hash p1) sp1 j m i → idx1 = j) ∧
    (is_Some (program_cache c1 !! hash p1) →
     (∀ j pm, permutation c1 (hash p1) j = Some pm → spec pm ≠ sp1) →
     idx1 = permutation_count c1 (hash p1)) ∧
    permutation r2.2 (hash p1) idx1 = Some {| module := r1.1.1.1.2; spec := sp1 |} ∧
    permutation r2.2 (hash p2) idx2 = Some {| module := r2.1.1.1.2; spec := sp2 |} ∧
    (sp1 ≠ sp2 → idx1 ≠ idx2 ∧ r1.1.1.2 ≠ r2.1.1.2) ∧
    (sp1 = sp2 →
     idx1 = idx2 ∧ r1.1.1.2 = r2.1.1.2 ∧ r1.1.1.1.2 = r2.1.1.1.2 ∧ r2.2 = c2).
Proof.
  intros r1 r2 sp1 sp2 Hhash Hext Hbound.
  destruct (GetProgram_index s1 p1 b1 regs1 c1)
    as (idx1 & Hh1 & Hres1 & Hnew1 & Hhit1 & Hmiss1).
  destruct (GetProgram_index s2 p2 b2 regs2 c2)
    as (idx2 & Hh2 & Hres2 & Hnew2 & Hhit2 & Hmiss2).
  fold r1 sp1 in Hh1, Hres1, Hnew1, Hhit1, Hmiss1.
  fold r2 sp2 in Hh2, Hres2, Hnew2, Hhit2, Hmiss2.
  pose proof (proj1 (GetProgram_resolved s2 p2 b2 regs2 c2)) as Hext2. fold r2 in Hext2.
  assert (resolved_at c2 (hash p2) sp1 idx1 r1.1.1.1.2 r1.1.1.1.1) as Hres1c.
  { rewrite <- Hhash. by eapply resolved_at_extends. }
  assert (resolved_at r2.2 (hash p2) sp1 idx1 r1.1.1.1.2 r1.1.1.1.1) as Hres1'.
  { by eapply resolved_at_extends. }
  destruct (resolved_at_permutation _ _ _ _ _ _ Hres1') as [Hperm1 Hlt1].
  destruct (resolved_at_permutation _ _ _ _ _ _ Hres2) as [Hperm2 Hlt2].
  exists idx1, idx2. split_and!; try done.
  - intros Hn. by apply Hnew1.
  - intros j m i Hj. by apply (Hhit1 j m i).
  - intros Hs Hm. by apply Hmiss1.
  - by rewrite Hhash.
  - intros Hne.
    assert (idx1 ≠ idx2) as Hidx.
    { intros ->. rewrite Hperm1 in Hperm2. apply Hne.
      injection Hperm2. intros. subst sp1 sp2. unfold call_spec. congruence. }
    split; [done|]. rewrite Hh1, Hh2, Hhash. intros Heq.
    apply HashCombine_inj in Heq; lia.
  - intros Heq. rewrite <- Heq in Hhit2.
    destruct (Hhit2 _ _ _ Hres1c) as [-> Hc2]. rewrite Hc2 in Hres2.
    rewrite <- Heq in Hres2.
    destruct (resolved_at_unique _ _ _ _ _ _ _ _ _ Hres1c Hres2) as (_ & Hm & _).
    split_and!; try done. by rewrite Hh1, Hh2, Hhash.
Qed.

(** ** Determinism of the graphics refresh *)

Lemma regs_agree_prologue r1 r2 :
  regs_agree r1 r2 → key_prologue r1 = key_prologue r2.
Proof.
  intros []. unfold key_prologue. by repeat match goal with E : _ = _ |- _ => rewrite E; clear E end.
Qed.

Lemma regs_agree_cb_unbound r1 r2 cb :
  regs_agree r1 r2 → (cb < NumColorBuffers)%nat → cb_unbound r1 cb = cb_unbound r2 cb.
Proof.
  intros Hag Hlt. unfold cb_unbound, skip_cb_binding.
  destruct (agree_color_buffers _ _ Hag cb Hlt) as [Hb _].
  by rewrite (agree_color_control_mode _ _ Hag), (agree_color_target_mask _ _ Hag), Hb.
Qed.

Lemma regs_agree_first_pass r1 r2 cbs r k :
  regs_agree r1 r2 → Forall (fun cb => (cb < NumColorBuffers)%nat) cbs →
  first_pass r1 cbs r k = first_pass r2 cbs r k.
Proof.
  intros Hag Hall. revert r k.
  induction Hall as [|cb cbs Hcb Hall IH]; intros r k; simpl; [done|].
  rewrite (regs_agree_cb_unbound r1 r2 cb Hag Hcb).
  destruct (agree_color_buffers _ _ Hag cb Hcb) as [-> _].
  destruct (cb_unbound r2 cb); by rewrite IH.
Qed.

Lemma regs_agree_second_pass r1 r2 cbs r k :
  regs_agree r1 r2 → Forall (fun cb => (cb < NumColorBuffers)%nat) cbs →
  second_pass r1 cbs r k = second_pass r2 cbs r k.
Proof.
  intros Hag Hall. revert r k.
  induction Hall as [|cb cbs Hcb Hall IH]; intros r k; simpl; [done|].
  rewrite (regs_agree_cb_unbound r1 r2 cb Hag Hcb).
  destruct (agree_color_buffers _ _ Hag cb Hcb) as [-> ->].
  rewrite (agree_color_target_mask _ _ Hag), (agree_color_shader_mask _ _ Hag).
  destruct (_ || _); by rewrite IH.
Qed.

Lemma Forall_seq_lt n : Forall (fun i => (i < n)%nat) (seq 0 n).
Proof. apply Forall_forall. intros i Hi. apply elem_of_seq in Hi. lia. Qed.

Lemma regs_agree_GatherVertexOutputs r1 r2 outs :
  regs_agree r1 r2 →
  GatherVertexOutputs outs (vs_output_control r1)
  = GatherVertexOutputs outs (vs_output_control r2).
Proof.
  intros Hag. unfold GatherVertexOutputs, clip_or_cull.
  rewrite (agree_use_vtx_point_size _ _ Hag), (agree_use_vtx_edge_flag _ _ Hag),
    (agree_use_vtx_gs_cut_flag _ _ Hag), (agree_use_vtx_kill_flag _ _ Hag),
    (agree_use_vtx_render_target_idx _ _ Hag), (agree_use_vtx_viewport_idx _ _ Hag).
  pose proof (agree_clip_cull _ _ Hag) as Hcc.
  destruct (Hcc 0%nat ltac:(lia)) as [-> ->]. destruct (Hcc 1%nat ltac:(lia)) as [-> ->].
  destruct (Hcc 2%nat ltac:(lia)) as [-> ->]. destruct (Hcc 3%nat ltac:(lia)) as [-> ->].
  destruct (Hcc 4%nat ltac:(lia)) as [-> ->]. destruct (Hcc 5%nat ltac:(lia)) as [-> ->].
  destruct (Hcc 6%nat ltac:(lia)) as [-> ->]. destruct (Hcc 7%nat ltac:(lia)) as [-> ->].
  done.
Qed.

Lemma regs_agree_BuildRuntimeInfo r1 r2 s k :
  regs_agree r1 r2 → s ≠ Compute → BuildRuntimeInfo s r1 k = BuildRuntimeInfo s r2 k.
Proof.
  intros Hag Hs. destruct s; try done; unfold BuildRuntimeInfo.
  - rewrite (agree_vs_settings _ _ Hag), (agree_clip_space _ _ Hag),
      (regs_agree_GatherVertexOutputs r1 r2 _ Hag). done.
  - rewrite (agree_ps_num_user_regs _ _ Hag), (agree_ps_num_vgprs _ _ Hag),
      <- (agree_num_interp _ _ Hag).
    do 3 f_equal. apply map_ext_in. intros i Hi. apply in_seq in Hi.
    unfold fs_input. by rewrite (agree_ps_inputs _ _ Hag i) by lia.
Qed.

(** [GetProgram] reads the runtime info, the program map and the trace. *)
Lemma GetProgram_ext s p b r1 c1 r2 c2 :
  BuildRuntimeInfo s r1 (graphics_key c1) = BuildRuntimeInfo s r2 (graphics_key c2) →
  same_programs c1 c2 →
  (GetProgram s p b r1 c1).1 = (GetProgram s p b r2 c2).1 ∧
  same_programs (GetProgram s p b r1 c1).2 (GetProgram s p b r2 c2).2.
Proof.
  intros Hri [Hpc Htr]. unfold GetProgram, CompileModule, same_programs.
  rewrite Hri, Hpc, Htr.
  repeat case_match; simplify_eq; done.
Qed.

Lemma regs_agree_tess_bound r1 r2 :
  regs_agree r1 r2 → tess_bound r1 = tess_bound r2.
Proof.
  intros Hag. unfold tess_bound.
  destruct (agree_stages _ _ Hag 3%nat ltac:(by right)) as [-> Hp].
  destruct (ProgramForStage r1 3) as [p1|], (ProgramForStage r2 3) as [p2|];
    simpl in Hp; try done.
  destruct Hp as (-> & _). done.
Qed.

Lemma builder_view_eq c1 c2 :
  builder_view c1 = builder_view c2 ↔
  graphics_key c1 = graphics_key c2 ∧ same_programs c1 c2.
Proof.
  unfold builder_view, same_programs. split.
  - intros Heq. by injection Heq.
  - intros (-> & -> & ->). done.
Qed.

Lemma clear_stage_view i c1 c2 :
  builder_view c1 = builder_view c2 →
  builder_view (clear_stage i c1) = builder_view (clear_stage i c2) ∧
  infos (clear_stage i c1) i = infos (clear_stage i c2) i.
Proof.
  intros Hv. apply builder_view_eq in Hv as (Hk & Hp & Ht).
  unfold clear_stage, builder_view, assign; simpl.
  rewrite Hk, Hp, Ht. by rewrite !decide_True.
Qed.

(** One iteration of the stage loop on two agreeing snapshots and two caches
    with the same view: same verdict, same cursor, same view afterwards, and
    the same info pointer for the stage. *)
Lemma stage_step_agree r1 r2 i b c1 c2 :
  regs_agree r1 r2 → (i < MaxShaderStages)%nat →
  builder_view c1 = builder_view c2 →
  (stage_step skip_hashes r1 i b c1).1 = (stage_step skip_hashes r2 i b c2).1 ∧
  builder_view (stage_step skip_hashes r1 i b c1).2
  = builder_view (stage_step skip_hashes r2 i b c2).2 ∧
  ((stage_step skip_hashes r1 i b c1).1.1 = true →
   infos (stage_step skip_hashes r1 i b c1).2 i
   = infos (stage_step skip_hashes r2 i b c2).2 i).
Proof.
  intros Hag Hi Hv.
  destruct (clear_stage_view i c1 c2 Hv) as [Hcv Hci].
  unfold stage_step.
  destruct (agree_stages _ _ Hag i ltac:(by left)) as [-> Hp].
  rewrite <- (regs_agree_tess_bound r1 r2 Hag).
  destruct (negb (IsStageEnabled r2 i)); [done|].
  destruct (ProgramForStage r1 i) as [p1|], (ProgramForStage r2 i) as [p2|];
    simpl in Hp; try done.
  destruct Hp as (Ha & Hb & Hu & Hc). rewrite Ha, Hb.
  destruct (bool_decide (Address p2 = 0)); [done|].
  destruct (negb (Valid (bininfo p2))); [done|].
  destruct (ShouldSkipShader skip_hashes (shader_hash (bininfo p2))); [done|].
  destruct (bool_decide (StageFromIndex i ≠ Vertex) && bool_decide (StageFromIndex i ≠ Fragment))
    eqn:Hst; [done|].
  destruct (tess_bound r1); [done|].
  assert (GetParams p1 = GetParams p2) as ->.
  { unfold GetParams. by rewrite Hb, Hu, Hc. }
  assert (StageFromIndex i ≠ Compute) as Hnc.
  { intros Heq. rewrite Heq in Hst. done. }
  apply builder_view_eq in Hv as (Hk & Hsp).
  assert (BuildRuntimeInfo (StageFromIndex i) r1 (graphics_key c1)
          = BuildRuntimeInfo (StageFromIndex i) r2 (graphics_key c2)) as Hri.
  { rewrite Hk. by apply regs_agree_BuildRuntimeInfo. }
  destruct (GetProgram_ext (StageFromIndex i) (GetParams p2) b r1 c1 r2 c2 Hri Hsp)
    as [Hres [Hpc Htr]].
  pose proof (GetProgram_graphics_key (StageFromIndex i) (GetParams p2) b r1 c1) as Hk1.
  pose proof (GetProgram_graphics_key (StageFromIndex i) (GetParams p2) b r2 c2) as Hk2.
  destruct (GetProgram (StageFromIndex i) (GetParams p2) b r1 c1) as [[[[pi1 m1] h1] b1] c1'].
  destruct (GetProgram (StageFromIndex i) (GetParams p2) b r2 c2) as [[[[pi2 m2] h2] b2] c2'].
  simpl in *. simplify_eq. unfold builder_view, assign; simpl.
  rewrite Hk1, Hk2, Hk, Hpc, Htr. by rewrite !decide_True.
Qed.

Lemma stage_loop_agree r1 r2 stages b c1 c2 :
  regs_agree r1 r2 → Forall (fun i => (i < MaxShaderStages)%nat) stages →
  NoDup stages →
  builder_view c1 = builder_view c2 →
  (stage_loop skip_hashes r1 stages b c1).1 = (stage_loop skip_hashes r2 stages b c2).1 ∧
  builder_view (stage_loop skip_hashes r1 stages b c1).2
  = builder_view (stage_loop skip_hashes r2 stages b c2).2 ∧
  ((stage_loop skip_hashes r1 stages b c1).1.1 = true →
   ∀ i, i ∈ stages →
     infos (stage_loop skip_hashes r1 stages b c1).2 i
     = infos (stage_loop skip_hashes r2 stages b c2).2 i).
Proof.
  intros Hag Hall. revert b c1 c2.
  induction Hall as [|i stages Hi Hall IH]; intros b c1 c2 Hnd Hv; simpl.
  - split_and!; try done. intros _ i Hin. by apply elem_of_nil in Hin.
  - apply NoDup_cons in Hnd as [Hni Hnd].
    destruct (stage_step_agree r1 r2 i b c1 c2 Hag Hi Hv) as (Hr & Hv' & Hinf).
    pose proof (stage_loop_other_slot r1 stages i) as Ho1.
    pose proof (stage_loop_other_slot r2 stages i) as Ho2.
    destruct (stage_step skip_hashes r1 i b c1) as [[ok1 b1] c1'].
    destruct (stage_step skip_hashes r2 i b c2) as [[ok2 b2] c2'].
    cbn [fst snd] in Hr, Hv', Hinf |- *. injection Hr as -> ->.
    destruct ok2; [|by split_and!].
    destruct (IH b2 c1' c2' Hnd Hv') as (Hr' & Hv'' & Hinf').
    split_and!; try done.
    intros Hok j Hj. apply elem_of_cons in Hj as [->|Hj]; [|by apply Hinf'].
    specialize (Ho1 b2 c1' Hni). specialize (Ho2 b2 c2' Hni).
    unfold stage_slot in Ho1, Ho2. injection Ho1 as _ ->. injection Ho2 as _ ->.
    by apply Hinf.
Qed.

(** C9: on two snapshots that agree on every register field the key
    builder consumes, and two caches with the same programs (whatever key,
    info pointers and modules the previous refresh left in each), the refresh
    returns the same verdict and builds the same key; nothing of the stale
    key survives. *)
Theorem refresh_is_deterministic regs1 regs2 c1 c2 :
  (FragmentIndex < MaxShaderStages)%nat →
  regs_agree regs1 regs2 →
  same_programs c1 c2 →
  (RefreshGraphicsKey skip_hashes regs1 c1).1 = (RefreshGraphicsKey skip_hashes regs2 c2).1 ∧
  graphics_key (RefreshGraphicsKey skip_hashes regs1 c1).2
  = graphics_key (RefreshGraphicsKey skip_hashes regs2 c2).2 ∧
  same_programs (RefreshGraphicsKey skip_hashes regs1 c1).2
                (RefreshGraphicsKey skip_hashes regs2 c2).2.
Proof.
  intros Hfrag Hag Hsp. unfold RefreshGraphicsKey.
  rewrite (regs_agree_prologue _ _ Hag).
  rewrite (regs_agree_first_pass regs1 regs2 _ _ _ Hag (Forall_seq_lt _)).
  set (k0 := first_pass regs2 _ _ _).
  assert (builder_view (set_graphics_key k0 c1) = builder_view (set_graphics_key k0 c2))
    as Hv by (by apply builder_view_eq).
  destruct (stage_loop_agree regs1 regs2 (seq 0 MaxShaderStages) 0 _ _ Hag
              (Forall_seq_lt _) (NoDup_seq _ _) Hv) as (Hr & Hv' & Hinf).
  destruct (stage_loop skip_hashes regs1 _ _ _) as [[ok1 b1] c1'].
  destruct (stage_loop skip_hashes regs2 _ _ _) as [[ok2 b2] c2'].
  cbn [fst snd] in Hr, Hv', Hinf |- *. injection Hr as -> ->.
  apply builder_view_eq in Hv' as (Hk & Hsp').
  destruct ok2; simpl; [|done].
  rewrite Hk, (Hinf eq_refl FragmentIndex) by (apply elem_of_seq; lia).
  rewrite (regs_agree_second_pass regs1 regs2 _ _ _ Hag (Forall_seq_lt _)).
  done.
Qed.

(** ** Replaying a refresh *)

Lemma GetProgram_translated P s p b regs c :
  P p → cache_translated P c → cache_translated P (GetProgram s p b regs c).2.
Proof.
  intros HPp Hc h prog.
  destruct (program_cache c !! hash p) as [prog0|] eqn:Hp.
  - destruct (find_permutation (call_spec s regs c b) (program_modules prog0))
      as [[idx pm]|] eqn:Hf.
    + unfold GetProgram. rewrite Hp. unfold call_spec in Hf. rewrite Hf. apply Hc.
    + rewrite (GetProgram_miss _ _ _ _ _ _ Hp Hf). simpl.
      destruct (decide (h = hash p)) as [->|Hne].
      * rewrite lookup_insert_eq. intros [= <-]. simpl. by apply Hc.
      * rewrite lookup_insert_ne by done. apply Hc.
  - rewrite (GetProgram_new _ _ _ _ _ Hp). simpl.
    destruct (decide (h = hash p)) as [->|Hne].
    + rewrite lookup_insert_eq. intros [= <-]. simpl. eauto 10.
    + rewrite lookup_insert_ne by done. apply Hc.
Qed.

(** Under the binding discipline, and when the content hash identifies the
    code among the programs requested, every path of [GetProgram] moves the
    cursor by the binding count of the info it returns. *)
Lemma GetProgram_binding P s p b regs c :
  binding_discipline → hash_names_code P → P p → cache_translated P c →
  (GetProgram s p b regs c).1.2
  = wrap32 (b + NumBindings (GetProgram s p b regs c).1.1.1.1).
Proof.
  intros [Hemit Hcount] Hcode HPp Hc.
  destruct (program_cache c !! hash p) as [prog0|] eqn:Hp.
  - destruct (find_permutation (call_spec s regs c b) (program_modules prog0))
      as [[idx pm]|] eqn:Hf.
    + unfold GetProgram. rewrite Hp. unfold call_spec in Hf. by rewrite Hf.
    + rewrite (GetProgram_miss _ _ _ _ _ _ Hp Hf). simpl. rewrite Hemit.
      destruct (Hc _ _ Hp) as (s0 & p0 & ri0 & Hh & HP0 & ->).
      rewrite (Hcount s p _ s0 p0 ri0); [done| |done].
      by apply Hcode.
  - rewrite (GetProgram_new _ _ _ _ _ Hp). simpl. by rewrite Hemit.
Qed.

Lemma resolved_at_same c1 c2 h sp idx m i :
  program_cache c1 = program_cache c2 →
  resolved_at c1 h sp idx m i → resolved_at c2 h sp idx m i.
Proof. intros Heq (prog & Hp & Hr). exists prog. by rewrite <- Heq. Qed.

(** A call that was answered once is answered the same way on any later
    state of the cache, without compiling. *)
Lemma GetProgram_replay P s p b regs c1 c2 cF :
  binding_discipline → hash_names_code P → P p → cache_translated P c1 →
  graphics_key c1 = graphics_key c2 →
  same_programs c2 cF →
  cache_extends (GetProgram s p b regs c1).2 cF →
  GetProgram s p b regs c2 = ((GetProgram s p b regs c1).1, c2).
Proof.
  intros Hd Hcode HPp Htr Hk [Hpc _] Hext.
  pose proof (GetProgram_binding P s p b regs c1 Hd Hcode HPp Htr) as Hb.
  destruct (GetProgram_resolved s p b regs c1) as (_ & idx & Hres & Hh & _).
  eapply resolved_at_extends in Hres; [|done].
  apply (resolved_at_same cF c2) in Hres; [|done].
  assert (call_spec s regs c1 b = call_spec s regs c2 b) as Hsp.
  { unfold call_spec. by rewrite Hk. }
  rewrite Hsp in Hres. rewrite (GetProgram_hit _ _ _ _ _ _ _ _ Hres).
  destruct (GetProgram s p b regs c1) as [[[[pi m] h] b1] c1']. simpl in *.
  by rewrite Hb, Hh.
Qed.

Lemma cache_extends_clear_stage i c : cache_extends c (clear_stage i c).
Proof. intros h p1 Hp1. exists p1. by split_and!. Qed.

Lemma stage_step_extends regs i b c :
  cache_extends c (stage_step skip_hashes regs i b c).2.
Proof.
  unfold stage_step.
  repeat case_match; simplify_eq;
    try apply cache_extends_clear_stage; try apply cache_extends_refl.
  match goal with
  | E : GetProgram ?s ?p ?b ?r ?c = _ |- _ =>
      pose proof (proj1 (GetProgram_resolved s p b r c)) as Hx; rewrite E in Hx
  end.
  intros h p1 Hp1. by apply Hx.
Qed.

Lemma stage_loop_extends regs stages b c :
  cache_extends c (stage_loop skip_hashes regs stages b c).2.
Proof.
  revert b c. induction stages as [|i stages IH]; intros b c; simpl.
  - apply cache_extends_refl.
  - pose proof (stage_step_extends regs i b c) as Hs.
    destruct (stage_step skip_hashes regs i b c) as [[ok b1] c1]; simpl in *.
    destruct ok; [|done]. eapply cache_extends_trans; [done|apply IH].
Qed.

Lemma stage_step_translated P regs i b c :
  (∀ pgm, resolved_program regs i = Some pgm → P (GetParams pgm)) →
  cache_translated P c → cache_translated P (stage_step skip_hashes regs i b c).2.
Proof.
  intros HP Hc. unfold stage_step. unfold resolved_program in HP.
  destruct (IsStageEnabled regs i); simpl; [|done].
  destruct (ProgramForStage regs i) as [pgm|]; [|done].
  rewrite (bool_decide_not (Address pgm = 0)) in HP.
  destruct (bool_decide (Address pgm = 0)); simpl in *; [done|].
  destruct (Valid (bininfo pgm)); simpl in *; [|done].
  destruct (ShouldSkipShader skip_hashes (shader_hash (bininfo pgm))); [done|].
  destruct (_ && _); [done|].
  destruct (tess_bound regs); [done|].
  pose proof (GetProgram_translated P (StageFromIndex i) (GetParams pgm) b regs c
                (HP pgm eq_refl) Hc) as Hx.
  by destruct (GetProgram _ _ _ _ _) as [[[[pi m] h] b1] c1].
Qed.

Lemma stage_loop_translated P regs stages b c :
  (∀ i pgm, i ∈ stages → resolved_program regs i = Some pgm → P (GetParams pgm)) →
  cache_translated P c → cache_translated P (stage_loop skip_hashes regs stages b c).2.
Proof.
  revert b c. induction stages as [|i stages IH]; intros b c HP Hc; simpl; [done|].
  assert (cache_translated P (stage_step skip_hashes regs i b c).2) as Hs.
  { apply stage_step_translated; [|done]. intros pgm. apply HP, elem_of_cons. by left. }
  destruct (stage_step skip_hashes regs i b c) as [[ok b1] c1]; simpl in *.
  destruct ok; [|done]. apply IH; [|done].
  intros j pgm Hj. apply HP, elem_of_cons. by right.
Qed.

Lemma cache_extends_same_l c1 c1' c2 :
  program_cache c1 = program_cache c1' → cache_extends c1 c2 → cache_extends c1' c2.
Proof. intros Heq H12 h p1 Hp1. rewrite <- Heq in Hp1. by apply H12. Qed.

Lemma same_programs_clear_stage i c cF :
  same_programs c cF → same_programs (clear_stage i c) cF.
Proof. by intros [? ?]. Qed.

(** One iteration of the stage loop, replayed on a later state [c2] of the
    cache ([cF] is the state the first run ended in): same verdict, same
    cursor, same key, same info pointer, and nothing compiled. *)
Lemma stage_step_replay P regs i b c1 c2 cF :
  binding_discipline → hash_names_code P →
  (∀ pgm, resolved_program regs i = Some pgm → P (GetParams pgm)) →
  cache_translated P c1 →
  graphics_key c1 = graphics_key c2 →
  same_programs c2 cF →
  cache_extends (stage_step skip_hashes regs i b c1).2 cF →
  (stage_step skip_hashes regs i b c2).1 = (stage_step skip_hashes regs i b c1).1 ∧
  graphics_key (stage_step skip_hashes regs i b c2).2
  = graphics_key (stage_step skip_hashes regs i b c1).2 ∧
  same_programs (stage_step skip_hashes regs i b c2).2 cF ∧
  ((stage_step skip_hashes regs i b c1).1.1 = true →
   infos (stage_step skip_hashes regs i b c2).2 i
   = infos (stage_step skip_hashes regs i b c1).2 i).
Proof.
  intros Hd Hcode HP Htr Hk Hsp.
  assert (graphics_key (clear_stage i c2) = graphics_key (clear_stage i c1) ∧
          infos (clear_stage i c2) i = infos (clear_stage i c1) i) as [Hck Hci].
  { unfold clear_stage, assign; simpl. rewrite Hk. by rewrite !decide_True. }
  pose proof (same_programs_clear_stage i c2 cF Hsp) as Hcs.
  unfold stage_step. unfold resolved_program in HP.
  destruct (IsStageEnabled regs i); simpl; [|done].
  destruct (ProgramForStage regs i) as [pgm|]; [|done].
  rewrite (bool_decide_not (Address pgm = 0)) in HP.
  destruct (bool_decide (Address pgm = 0)); simpl in HP |- *; [done|].
  destruct (Valid (bininfo pgm)); simpl in HP |- *; [|done].
  destruct (ShouldSkipShader skip_hashes (shader_hash (bininfo pgm))); [done|].
  destruct (_ && _); [done|].
  destruct (tess_bound regs); [done|].
  intros Hext.
  assert (cache_extends (GetProgram (StageFromIndex i) (GetParams pgm) b regs c1).2 cF)
    as Hext'.
  { eapply cache_extends_same_l; [|exact Hext].
    by destruct (GetProgram _ _ _ _ c1) as [[[[pi m] h] b1] c1']. }
  rewrite (GetProgram_replay P _ _ _ _ c1 c2 cF Hd Hcode (HP pgm eq_refl) Htr Hk Hsp Hext').
  pose proof (GetProgram_graphics_key (StageFromIndex i) (GetParams pgm) b regs c1) as Hk1.
  destruct (GetProgram _ _ _ _ c1) as [[[[pi m] h] b1] c1']. simpl in *.
  unfold assign. rewrite Hk1, Hk, !decide_True by done. done.
Qed.

Lemma stage_loop_replay P regs stages b c1 c2 cF :
  binding_discipline → hash_names_code P →
  (∀ i pgm, i ∈ stages → resolved_program regs i = Some pgm → P (GetParams pgm)) →
  cache_translated P c1 → NoDup stages →
  graphics_key c1 = graphics_key c2 →
  same_programs c2 cF →
  cache_extends (stage_loop skip_hashes regs stages b c1).2 cF →
  (stage_loop skip_hashes regs stages b c2).1 = (stage_loop skip_hashes regs stages b c1).1 ∧
  graphics_key (stage_loop skip_hashes regs stages b c2).2
  = graphics_key (stage_loop skip_hashes regs stages b c1).2 ∧
  same_programs (stage_loop skip_hashes regs stages b c2).2 cF ∧
  ((stage_loop skip_hashes regs stages b c1).1.1 = true →
   ∀ i, i ∈ stages →
     infos (stage_loop skip_hashes regs stages b c2).2 i
     = infos (stage_loop skip_hashes regs stages b c1).2 i).
Proof.
  intros Hd Hcode. revert b c1 c2.
  induction stages as [|i stages IH]; intros b c1 c2 HP Htr Hnd Hk Hsp; simpl.
  - intros _. split_and!; try done. intros _ i Hin. by apply elem_of_nil in Hin.
  - apply NoDup_cons in Hnd as [Hni Hnd].
    assert (∀ pgm, resolved_program regs i = Some pgm → P (GetParams pgm)) as HPi.
    { intros pgm. apply HP, elem_of_cons. by left. }
    assert (∀ j pgm, j ∈ stages → resolved_program regs j = Some pgm → P (GetParams pgm))
      as HPs.
    { intros j pgm Hj. apply HP, elem_of_cons. by right. }
    pose proof (stage_step_replay P regs i b c1 c2 cF Hd Hcode HPi Htr Hk Hsp) as Hstep.
    pose proof (stage_step_translated P regs i b c1 HPi Htr) as Htr'.
    pose proof (stage_loop_other_slot regs stages i) as Ho.
    pose proof (stage_loop_extends regs stages) as Hle.
    destruct (stage_step skip_hashes regs i b c1) as [[ok1 b1] c1'].
    destruct (stage_step skip_hashes regs i b c2) as [[ok2 b2] c2'].
    cbn [fst snd] in Hstep, Htr' |- *.
    destruct ok1.
    + intros Hext.
      destruct Hstep as (Hr & Hk' & Hsp' & Hinf).
      { eapply cache_extends_trans; [apply (Hle b1 c1')|done]. }
      injection Hr as -> ->.
      destruct (IH b1 c1' c2' HPs Htr' Hnd (eq_sym Hk') Hsp' Hext)
        as (Hr' & Hk'' & Hsp'' & Hinf').
      split_and!; try done.
      intros Hok j Hj. apply elem_of_cons in Hj as [->|Hj]; [|by apply Hinf'].
      pose proof (Ho b1 c1' Hni) as Ho1. pose proof (Ho b1 c2' Hni) as Ho2.
      unfold stage_slot in Ho1, Ho2. injection Ho1 as _ ->. injection Ho2 as _ ->.
      by apply Hinf.
    + intros Hext. destruct (Hstep Hext) as (Hr & Hk' & Hsp' & _).
      injection Hr as -> ->. by split_and!.
Qed.

Lemma RefreshGraphicsKey_translated P regs c :
  (∀ i pgm, (i < MaxShaderStages)%nat → resolved_program regs i = Some pgm →
            P (GetParams pgm)) →
  cache_translated P c → cache_translated P (RefreshGraphicsKey skip_hashes regs c).2.
Proof.
  intros HP Hc. unfold RefreshGraphicsKey.
  pose proof (stage_loop_translated P regs (seq 0 MaxShaderStages) 0
                (set_graphics_key (first_pass regs (seq 0 NumColorBuffers) 0
                                     (key_prologue regs)) c)) as Hl.
  destruct (stage_loop _ _ _ _ _) as [[ok b1] c1]; simpl in *.
  destruct ok; apply Hl; try done;
    intros i pgm Hi; apply HP; apply elem_of_seq in Hi; lia.
Qed.

Lemma run_call_translated P call c :
  (∀ p, requested call p → P p) →
  cache_translated P c → cache_translated P (run_call skip_hashes call c).2.
Proof.
  intros HP Hc. destruct call as [regs|regs]; simpl.
  - unfold GetGraphicsPipeline.
    repeat (case_bool_decide; [done|]).
    assert (cache_translated P (RefreshGraphicsKey skip_hashes regs c).2) as Hr.
    { apply RefreshGraphicsKey_translated; [|done].
      intros i pgm Hi Hres. apply HP. simpl. eauto. }
    destruct (RefreshGraphicsKey skip_hashes regs c) as [ok c1]; simpl in *.
    destruct ok; simpl; [|done].
    by destruct (graphics_pipelines c1 !! graphics_key c1).
  - unfold GetComputePipeline, RefreshComputeKey.
    destruct (ShouldSkipShader _ _); [done|].
    pose proof (GetProgram_translated P Compute (GetParams_cs (cs_program regs)) 0 regs c
                  (HP _ eq_refl) Hc) as Hp.
    destruct (GetProgram _ _ _ _ _) as [[[[pi m] h] b1] c1]. simpl in *.
    by destruct (compute_pipelines c1 !! h).
Qed.

Lemma run_calls_translated P calls c :
  (∀ call p, call ∈ calls → requested call p → P p) →
  cache_translated P c → cache_translated P (run_calls skip_hashes calls c).2.
Proof.
  revert c. induction calls as [|call calls IH]; intros c HP Hc; simpl; [done|].
  assert (cache_translated P (run_call skip_hashes call c).2) as Hs.
  { apply run_call_translated; [|done]. intros p. apply HP, elem_of_cons. by left. }
  destruct (run_call skip_hashes call c) as [e c1]; simpl in *.
  assert (cache_translated P (run_calls skip_hashes calls c1).2) as IH'.
  { apply IH; [|done]. intros call' p Hin. apply HP, elem_of_cons. by right. }
  by destruct (run_calls skip_hashes calls c1) as [es c2].
Qed.

Lemma cache_translated_empty P : cache_translated P empty_cache.
Proof. intros h prog Hl. simpl in Hl. by rewrite lookup_empty in Hl. Qed.

(** The refresh replayed on a state [c2] that holds the programs and info
    pointers the first refresh left: same verdict, same key, nothing
    compiled. *)
Lemma RefreshGraphicsKey_replay P regs c c2 :
  binding_discipline → hash_names_code P →
  (∀ i pgm, (i < MaxShaderStages)%nat → resolved_program regs i = Some pgm →
            P (GetParams pgm)) →
  cache_translated P c →
  same_programs c2 (RefreshGraphicsKey skip_hashes regs c).2 →
  (∀ j, infos c2 j = infos (RefreshGraphicsKey skip_hashes regs c).2 j) →
  (RefreshGraphicsKey skip_hashes regs c2).1 = (RefreshGraphicsKey skip_hashes regs c).1 ∧
  graphics_key (RefreshGraphicsKey skip_hashes regs c2).2
  = graphics_key (RefreshGraphicsKey skip_hashes regs c).2 ∧
  same_programs (RefreshGraphicsKey skip_hashes regs c2).2
                (RefreshGraphicsKey skip_hashes regs c).2.
Proof.
  intros Hd Hcode HP Htr. unfold RefreshGraphicsKey.
  set (k0 := first_pass regs _ _ _).
  set (c1 := set_graphics_key k0 c). set (c2' := set_graphics_key k0 c2).
  assert (∀ i pgm, i ∈ seq 0 MaxShaderStages → resolved_program regs i = Some pgm →
                   P (GetParams pgm)) as HPs.
  { intros i pgm Hi. apply HP. apply elem_of_seq in Hi. lia. }
  pose proof (stage_loop_replay P regs (seq 0 MaxShaderStages) 0 c1 c2'
                (stage_loop skip_hashes regs (seq 0 MaxShaderStages) 0 c1).2
                Hd Hcode HPs Htr (NoDup_seq _ _) eq_refl) as Hrep.
  pose proof (stage_loop_other_slot regs (seq 0 MaxShaderStages) FragmentIndex 0 c2') as Ho2.
  destruct (stage_loop skip_hashes regs (seq 0 MaxShaderStages) 0 c1) as [[ok1 b1] l1].
  destruct (stage_loop skip_hashes regs (seq 0 MaxShaderStages) 0 c2') as [[ok2 b2] l2].
  cbn [fst snd] in Hrep, Ho2 |- *.
  intros Hsp Hinf.
  destruct Hrep as (Hr & Hk & Hsp' & Hi).
  { by destruct ok1. }
  { apply cache_extends_refl. }
  injection Hr as -> ->.
  destruct ok1; simpl; [|done].
  assert (infos l2 FragmentIndex = infos l1 FragmentIndex) as ->.
  { destruct (decide (FragmentIndex ∈ seq 0 MaxShaderStages)) as [Hin|Hni].
    - by apply Hi.
    - specialize (Ho2 Hni).
      unfold stage_slot in Ho2. injection Ho2 as _ ->.
      simpl in Hinf. apply Hinf. }
  by rewrite Hk.
Qed.

(** [GetGraphicsPipeline] as its early returns followed by the refresh and
    the map lookup. *)
Lemma GetGraphicsPipeline_unfold regs c :
  GetGraphicsPipeline skip_hashes regs c
  = if no_draw_needed regs then (None, c)
    else
      let '(ok, c1) := RefreshGraphicsKey skip_hashes regs c in
      if negb ok then (None, c1)
      else match graphics_pipelines c1 !! graphics_key c1 with
           | Some p => (Some p, c1)
           | None =>
               (Some (length (graphics_pipeline_pool c1)),
                set_graphics_pipelines
                  (<[graphics_key c1 := length (graphics_pipeline_pool c1)]>
                     (graphics_pipelines c1))
                  (graphics_pipeline_pool c1
                   ++ [{| gp_key := graphics_key c1; gp_infos := infos c1;
                          gp_modules := modules c1 |}]) c1)
           end.
Proof.
  unfold GetGraphicsPipeline, no_draw_needed. by repeat case_bool_decide.
Qed.


(** ** The request paths against the refresh *)

Lemma regs_agree_refl regs : regs_agree regs regs.
Proof.
  constructor; try done.
  intros i _. split; [done|]. by destruct (ProgramForStage regs i).
Qed.

(** A draw that is not skipped early leaves the programs its refresh left. *)
Lemma GetGraphicsPipeline_programs regs c :
  no_draw_needed regs = false →
  same_programs (RefreshGraphicsKey skip_hashes regs c).2
                (GetGraphicsPipeline skip_hashes regs c).2.
Proof.
  intros Hn. rewrite GetGraphicsPipeline_unfold, Hn.
  destruct (RefreshGraphicsKey skip_hashes regs c) as [ok c1]; simpl.
  destruct ok; simpl; [|done].
  by destruct (graphics_pipelines c1 !! graphics_key c1).
Qed.

(** The refresh reads of the cache the program map and the trace only. *)
Lemma RefreshGraphicsKey_view regs c1 c2 :
  same_programs c1 c2 →
  (RefreshGraphicsKey skip_hashes regs c1).1 = (RefreshGraphicsKey skip_hashes regs c2).1 ∧
  same_programs (RefreshGraphicsKey skip_hashes regs c1).2
                (RefreshGraphicsKey skip_hashes regs c2).2 ∧
  stage_hashes (graphics_key (RefreshGraphicsKey skip_hashes regs c1).2)
  = stage_hashes (graphics_key (RefreshGraphicsKey skip_hashes regs c2).2).
Proof.
  intros Hsp. unfold RefreshGraphicsKey.
  set (k0 := first_pass regs _ _ _).
  assert (builder_view (set_graphics_key k0 c1) = builder_view (set_graphics_key k0 c2))
    as Hv by (by apply builder_view_eq).
  destruct (stage_loop_agree regs regs (seq 0 MaxShaderStages) 0 _ _ (regs_agree_refl regs)
              (Forall_seq_lt _) (NoDup_seq _ _) Hv) as (Hr & Hv' & _).
  destruct (stage_loop skip_hashes regs _ _ (set_graphics_key k0 c1)) as [[ok1 b1] c1'].
  destruct (stage_loop skip_hashes regs _ _ (set_graphics_key k0 c2)) as [[ok2 b2] c2'].
  cbn [fst snd] in Hr, Hv' |- *. injection Hr as -> ->.
  apply builder_view_eq in Hv' as (Hk & Hsp').
  destruct ok2; simpl; [|by rewrite Hk].
  rewrite !second_pass_stage_hashes. simpl. by rewrite Hk.
Qed.

Lemma GetComputePipeline_programs regs c :
  same_programs (RefreshComputeKey skip_hashes regs c).2
                (GetComputePipeline skip_hashes regs c).2.
Proof.
  unfold GetComputePipeline.
  destruct (RefreshComputeKey skip_hashes regs c) as [ok c1]; simpl.
  destruct ok; simpl; [|done].
  by destruct (compute_pipelines c1 !! compute_key c1).
Qed.

(** A single dispatch leaves the graphics map and pool alone and the
    programs as its refresh left them. *)
Lemma dispatch_state regs c :
  let c' := (run_calls skip_hashes [Dispatch regs] c).2 in
  same_programs (RefreshComputeKey skip_hashes regs c).2 c' ∧
  graphics_pipelines c' = graphics_pipelines c ∧
  graphics_pipeline_pool c' = graphics_pipeline_pool c.
Proof.
  cbn [run_calls run_call].
  pose proof (GetComputePipeline_programs regs c) as Hsp.
  destruct (GetComputePipeline_step regs c) as (Hm & Hp & _).
  by destruct (GetComputePipeline skip_hashes regs c) as [r c1].
Qed.

(** A draw requested twice on a state with no graphics pipeline yet: when
    the two refreshes build keys with different stage hashes, the first
    request returns pipeline 0 and the second builds pipeline 1.  [c0] is a
    state with the programs of [c]. *)
Lemma second_draw_builds_pipeline regs c c0 :
  same_programs c0 c →
  graphics_pipelines c = ∅ → graphics_pipeline_pool c = [] →
  no_draw_needed regs = false →
  let s1 := RefreshGraphicsKey skip_hashes regs c0 in
  let s2 := RefreshGraphicsKey skip_hashes regs s1.2 in
  s1.1 = true → s2.1 = true →
  stage_hashes (graphics_key s2.2) ≠ stage_hashes (graphics_key s1.2) →
  let first := GetGraphicsPipeline skip_hashes regs c in
  let second := GetGraphicsPipeline skip_hashes regs first.2 in
  first.1 = Some 0%nat ∧ second.1 = Some 1%nat ∧
  compiled first.2 = compiled s1.2 ∧ compiled second.2 = compiled s2.2.
Proof.
  intros Hsp0 Hm0 Hp0 Hn s1 s2 Hok1 Hok2 Hne first second.
  destruct (RefreshGraphicsKey_view regs c c0) as (Hv1 & [Hvp1 Hvc1] & Hvh1).
  { by destruct Hsp0. }
  fold s1 in Hv1, Hvp1, Hvc1, Hvh1.
  pose proof (GetGraphicsPipeline_programs regs c Hn) as [Hpc1 Hc1].
  destruct (GetGraphicsPipeline_emplaces regs c Hn) as [Hk1 He1].
  { by rewrite Hv1. }
  fold first in Hpc1, Hc1, Hk1, He1.
  unfold emplaced in He1. rewrite Hm0, lookup_empty, Hp0 in He1.
  destruct He1 as (Hres1 & Hmap1 & Hpool1).
  destruct (RefreshGraphicsKey_view regs first.2 s1.2) as (Hv2 & [Hvp2 Hvc2] & Hvh2).
  { split; congruence. }
  fold s2 in Hv2, Hvp2, Hvc2, Hvh2.
  pose proof (GetGraphicsPipeline_programs regs first.2 Hn) as [_ Hc2].
  destruct (GetGraphicsPipeline_emplaces regs first.2 Hn) as [Hk2 He2].
  { by rewrite Hv2. }
  fold second in Hc2, Hk2, He2.
  unfold emplaced in He2. rewrite Hmap1, lookup_insert_ne, lookup_empty, Hpool1 in He2.
  - destruct He2 as (Hres2 & _ & _). split_and!; [done|done|congruence|congruence].
  - intros Heq. apply Hne. rewrite <- Hvh2, <- Hvh1. by rewrite Heq.
Qed.

(** ** The second colour pass *)

Lemma first_pass_packed_state regs cbs r k :
  packed_state (first_pass regs cbs r k) = packed_state k.
Proof.
  revert r k. induction cbs as [|cb cbs IH]; intros r k; simpl; [done|].
  destruct (cb_unbound regs cb); [apply IH|].
  rewrite IH. by case_decide.
Qed.

Lemma stage_step_packed_state regs i b c :
  packed_state (graphics_key (stage_step skip_hashes regs i b c).2)
  = packed_state (graphics_key c).
Proof.
  unfold stage_step, clear_stage.
  repeat case_match; simplify_eq; simpl; try done.
  match goal with
  | E : GetProgram ?s ?p ?b ?r ?c = _ |- _ =>
      pose proof (GetProgram_graphics_key s p b r c) as Hk; rewrite E in Hk
  end.
  simpl in Hk. by rewrite Hk.
Qed.

Lemma stage_loop_packed_state regs stages b c :
  packed_state (graphics_key (stage_loop skip_hashes regs stages b c).2)
  = packed_state (graphics_key c).
Proof.
  revert b c. induction stages as [|i stages IH]; intros b c; simpl; [done|].
  pose proof (stage_step_packed_state regs i b c) as Hs.
  destruct (stage_step skip_hashes regs i b c) as [[ok b1] c1]; simpl in *.
  destruct ok; [by rewrite IH|done].
Qed.

Lemma second_pass_mrt_mask regs cbs r k :
  mrt_mask (second_pass regs cbs r k) = mrt_mask k.
Proof.
  revert r k. induction cbs as [|cb cbs IH]; intros r k; simpl; [done|].
  destruct (_ || _); by rewrite IH.
Qed.

Lemma insert_take_drop_packed {A} (l : list A) (r n : nat) (x : A) (ys : list A) :
  (r + S n ≤ length l)%nat →
  take (S r) (<[r := x]> l) ++ ys ++ drop (S (r + n)) (<[r := x]> l)
  = take r l ++ (x :: ys) ++ drop (r + S n) l.
Proof.
  intros Hlen.
  rewrite take_S_r with (x := x) by (apply list_lookup_insert_eq; lia).
  rewrite take_insert_ge by lia.
  rewrite drop_insert_lt by lia.
  replace (S (r + n))%nat with (r + S n)%nat by lia.
  by rewrite <- app_assoc.
Qed.

(** The second pass writes the surviving slots' write masks and blend
    controls at consecutive indices from [r] on. *)
Lemma second_pass_packs regs cbs r k :
  let slots := survivors regs (mrt_mask k) cbs in
  (r + length slots ≤ length (write_masks k))%nat →
  (r + length slots ≤ length (blend_controls k))%nat →
  write_masks (second_pass regs cbs r k)
  = take r (write_masks k) ++ map (slot_write_mask regs) slots
    ++ drop (r + length slots) (write_masks k) ∧
  blend_controls (second_pass regs cbs r k)
  = take r (blend_controls k) ++ map (slot_blend_control regs) slots
    ++ drop (r + length slots) (blend_controls k).
Proof.
  unfold survivors.
  revert r k. induction cbs as [|cb cbs IH]; intros r k; simpl.
  - intros _ _. rewrite Nat.add_0_r, !take_drop. done.
  - rewrite filter_cons.
    destruct (cb_unbound regs cb || mrt_unused (mrt_mask k) cb) eqn:Hcb.
    + rewrite decide_False by done. intros Hw Hb.
      by destruct (IH r (set_mrt_swizzles (<[cb := SwapStandard]> (mrt_swizzles k))
                          (set_color_formats (<[cb := eUndefined]> (color_formats k)) k))
                     Hw Hb).
    + rewrite decide_True by done. simpl. intros Hw Hb.
      set (k' := set_cb_shader_mask _ _).
      assert (mrt_mask k' = mrt_mask k) as Hm by done.
      destruct (IH (S r) k') as [IHw IHb].
      { rewrite Hm. simpl. rewrite !length_insert. lia. }
      { rewrite Hm. simpl. rewrite !length_insert. lia. }
      rewrite IHw, IHb, Hm.
      set (slots := filter _ cbs) in *.
      subst k'. simpl.
      rewrite list_insert_insert_eq.
      rewrite list_lookup_total_insert_eq by lia.
      split; by apply insert_take_drop_packed.
Qed.

(** X1 (the part of C1 the code keeps): after a successful refresh the key's
    write-mask and blend-control arrays hold the data of the slots that are
    bound, unmasked and referenced by the fragment stage's mask, left-packed
    in their original order and followed by zero entries; the mask is the one
    of the fragment stage's program, 0 without one. *)
Theorem write_masks_and_blend_are_compacted regs c :
  (RefreshGraphicsKey skip_hashes regs c).1 = true →
  let c' := (RefreshGraphicsKey skip_hashes regs c).2 in
  let k := graphics_key c' in
  let slots := surviving_slots regs (mrt_mask k) in
  mrt_mask k = match infos c' FragmentIndex with
               | Some fs_info => info_mrt_mask fs_info
               | None => 0
               end ∧
  write_masks k = left_packed 0 (map (slot_write_mask regs) slots) ∧
  blend_controls k
  = left_packed (Build_BlendControl false 0) (map (slot_blend_control regs) slots).
Proof.
  unfold RefreshGraphicsKey.
  set (k0 := first_pass regs _ _ _).
  pose proof (stage_loop_packed_state regs (seq 0 MaxShaderStages) 0
                (set_graphics_key k0 c)) as Hp.
  destruct (stage_loop skip_hashes regs _ _ _) as [[ok b1] l1]. simpl in Hp.
  destruct ok; [|done]. intros _. cbn [fst snd]. simpl.
  subst k0. rewrite first_pass_packed_state in Hp.
  unfold packed_state in Hp. simpl in Hp. injection Hp as Hw Hb.
  set (m := match infos l1 FragmentIndex with
            | Some fs_info => info_mrt_mask fs_info
            | None => 0
            end).
  set (k1 := set_mrt_mask m (graphics_key l1)).
  rewrite second_pass_mrt_mask. split; [done|].
  assert (∀ mask, length (survivors regs mask (seq 0 NumColorBuffers)) ≤ NumColorBuffers)%nat
    as Hlen.
  { intros mask. unfold survivors. etrans; [apply length_filter|]. by rewrite length_seq. }
  destruct (second_pass_packs regs (seq 0 NumColorBuffers) 0 k1) as [Hwm Hbc].
  { simpl. rewrite Hw, length_replicate. apply Hlen. }
  { simpl. rewrite Hb, length_replicate. apply Hlen. }
  rewrite Hwm, Hbc. simpl. rewrite Hw, Hb, !drop_replicate.
  unfold left_packed, surviving_slots. by rewrite !length_map.
Qed.

(** ** Invariants of the program cache along a history *)

(** A property of the cache that every step keeps as soon as [GetProgram]
    keeps it and it reads the program map and the trace only. *)
Section ProgramInvariant.
Variable P : PipelineCache → Prop.
Hypothesis P_view : ∀ c c', same_programs c c' → P c → P c'.
Hypothesis P_GetProgram : ∀ s p b regs c, P c → P (GetProgram s p b regs c).2.

Lemma stage_step_keeps regs i b c : P c → P (stage_step skip_hashes regs i b c).2.
Proof.
  intros Hc.
  assert (P (clear_stage i c)) as Hclear by (by apply (P_view c)).
  unfold stage_step.
  repeat case_match; simplify_eq; try done.
  match goal with
  | E : GetProgram ?s ?p ?b ?r ?c = _ |- _ =>
      pose proof (P_GetProgram s p b r c Hc) as Hx; rewrite E in Hx
  end.
  simpl in *. by eapply P_view; [|exact Hx].
Qed.

Lemma stage_loop_keeps regs stages b c :
  P c → P (stage_loop skip_hashes regs stages b c).2.
Proof.
  revert b c. induction stages as [|i stages IH]; intros b c Hc; simpl; [done|].
  pose proof (stage_step_keeps regs i b c Hc) as Hs.
  destruct (stage_step skip_hashes regs i b c) as [[ok b1] c1]; simpl in *.
  destruct ok; [by apply IH|done].
Qed.

Lemma RefreshGraphicsKey_keeps regs c :
  P c → P (RefreshGraphicsKey skip_hashes regs c).2.
Proof.
  intros Hc. unfold RefreshGraphicsKey.
  set (c0 := set_graphics_key _ c).
  assert (P c0) as Hc0 by (by apply (P_view c)).
  pose proof (stage_loop_keeps regs (seq 0 MaxShaderStages) 0 c0 Hc0) as Hl.
  destruct (stage_loop _ _ _ _ _) as [[ok b1] c1]; simpl in *.
  destruct ok; [|done]. by eapply P_view; [|exact Hl].
Qed.

Lemma RefreshComputeKey_keeps regs c :
  P c → P (RefreshComputeKey skip_hashes regs c).2.
Proof.
  intros Hc. unfold RefreshComputeKey.
  destruct (ShouldSkipShader _ _); [done|].
  pose proof (P_GetProgram Compute (GetParams_cs (cs_program regs)) 0 regs c Hc) as Hp.
  destruct (GetProgram _ _ _ _ _) as [[[[pi m] h] b1] c1]. simpl in *.
  by eapply P_view; [|exact Hp].
Qed.

Lemma run_call_keeps call c : P c → P (run_call skip_hashes call c).2.
Proof.
  intros Hc. destruct call as [regs|regs]; simpl.
  - unfold GetGraphicsPipeline.
    repeat (case_bool_decide; [done|]).
    pose proof (RefreshGraphicsKey_keeps regs c Hc) as Hr.
    destruct (RefreshGraphicsKey skip_hashes regs c) as [ok c1]; simpl in *.
    destruct ok; simpl; [|done].
    destruct (graphics_pipelines c1 !! graphics_key c1); simpl; [done|].
    by eapply P_view; [|exact Hr].
  - unfold GetComputePipeline.
    pose proof (RefreshComputeKey_keeps regs c Hc) as Hr.
    destruct (RefreshComputeKey skip_hashes regs c) as [ok c1]; simpl in *.
    destruct ok; simpl; [|done].
    destruct (compute_pipelines c1 !! compute_key c1); simpl; [done|].
    by eapply P_view; [|exact Hr].
Qed.

Lemma run_calls_keeps calls c : P c → P (run_calls skip_hashes calls c).2.
Proof.
  revert c. induction calls as [|call calls IH]; intros c Hc; simpl; [done|].
  pose proof (run_call_keeps call c Hc) as Hs.
  destruct (run_call skip_hashes call c) as [e c1]; simpl in *.
  specialize (IH c1 Hs).
  by destruct (run_calls skip_hashes calls c1) as [es c2].
Qed.

End ProgramInvariant.

(** ** The program cache against the translator's trace *)

(** The two paths of [GetProgram] as one: either the cache is left as it
    is, or program [hash p] gets one more permutation, compiled into the next
    module handle and logged under the index it is stored at. *)
Lemma GetProgram_grows s p b regs c :
  let old := from_option program_modules [] (program_cache c !! hash p) in
  (GetProgram s p b regs c).2 = c ∨
  ∃ i, find_permutation (call_spec s regs c b) old = None ∧
       (GetProgram s p b regs c).2
       = set_programs
           (<[hash p := {| info := i;
                           program_modules :=
                             old ++ [Build_ProgramModule (length (compiled c))
                                       (call_spec s regs c b)] |}]>
              (program_cache c))
           (compiled c ++ [(hash p, length old)]) c.
Proof.
  destruct (program_cache c !! hash p) as [prog|] eqn:Hp; simpl.
  - destruct (find_permutation (call_spec s regs c b) (program_modules prog))
      as [[idx pm]|] eqn:Hf.
    + left. unfold GetProgram. rewrite Hp. simpl.
      unfold call_spec in Hf. by rewrite Hf.
    + right. exists (info prog). split; [done|].
      by rewrite (GetProgram_miss _ _ _ _ _ _ Hp Hf).
  - right. eexists. split; [done|]. by rewrite (GetProgram_new _ _ _ _ _ Hp).
Qed.

Lemma permutation_modules c h idx :
  permutation c h idx = from_option program_modules [] (program_cache c !! h) !! idx.
Proof. unfold permutation. by destruct (program_cache c !! h). Qed.

Lemma permutation_view c c' h idx :
  program_cache c = program_cache c' → permutation c h idx = permutation c' h idx.
Proof. unfold permutation. by intros ->. Qed.

Lemma GetProgram_modules_logged s p b regs c :
  modules_logged c → modules_logged (GetProgram s p b regs c).2.
Proof.
  intros Hc.
  destruct (GetProgram_grows s p b regs c) as [->|(i & Hf & ->)]; [done|].
  intros h idx pm. rewrite permutation_modules. simpl.
  destruct (decide (h = hash p)) as [->|Hne].
  - rewrite lookup_insert_eq. simpl. intros Hl.
    apply lookup_app_Some in Hl as [Hl|[Hge Hl]].
    + rewrite <- permutation_modules in Hl. apply Hc in Hl.
      by apply lookup_app_l_Some.
    + apply list_lookup_singleton_Some in Hl as [Hz <-]. simpl.
      rewrite list_lookup_middle by done. do 2 f_equal. lia.
  - rewrite lookup_insert_ne by done. rewrite <- permutation_modules.
    intros Hl. apply Hc in Hl. by apply lookup_app_l_Some.
Qed.

Lemma GetProgram_trace_cached s p b regs c :
  trace_cached c → trace_cached (GetProgram s p b regs c).2.
Proof.
  intros Hc.
  destruct (GetProgram_grows s p b regs c) as [->|(i & Hf & ->)]; [done|].
  intros n h idx. simpl. intros Hl.
  apply lookup_app_Some in Hl as [Hl|[Hge Hl]].
  - destruct (Hc n h idx Hl) as (pm & Hpm & Hm). exists pm. split; [|done].
    rewrite permutation_modules in *. simpl.
    destruct (decide (h = hash p)) as [->|Hne].
    + rewrite lookup_insert_eq. simpl. by apply lookup_app_l_Some.
    + by rewrite lookup_insert_ne.
  - apply list_lookup_singleton_Some in Hl as [Hz Heq]. simplify_eq.
    eexists. rewrite permutation_modules. simpl. rewrite lookup_insert_eq. simpl.
    split; [by apply list_lookup_middle|]. simpl. lia.
Qed.

Lemma GetProgram_specs_distinct s p b regs c :
  specs_distinct c → specs_distinct (GetProgram s p b regs c).2.
Proof.
  intros Hc.
  destruct (GetProgram_grows s p b regs c) as [->|(i & Hf & ->)]; [done|].
  intros h prog. simpl.
  destruct (decide (h = hash p)) as [->|Hne].
  - rewrite lookup_insert_eq. intros [= <-]. simpl.
    rewrite fmap_app. apply NoDup_app. split_and!.
    + destruct (program_cache c !! hash p) as [prog|] eqn:Hp; simpl.
      * by eapply Hc.
      * constructor.
    + intros sp Hin Hin'. apply list_elem_of_singleton in Hin'. subst sp.
      apply list_elem_of_fmap in Hin as (pm & Hs & Hin).
      unfold find_permutation in Hf. rewrite list_find_None, Forall_forall in Hf.
      by apply (Hf pm).
    + apply NoDup_singleton.
  - rewrite lookup_insert_ne by done. apply Hc.
Qed.

Lemma modules_logged_view c c' : same_programs c c' → modules_logged c → modules_logged c'.
Proof.
  intros [Hp Ht] Hc h idx pm. rewrite <- Ht, <- (permutation_view c c') by done. apply Hc.
Qed.

Lemma trace_cached_view c c' : same_programs c c' → trace_cached c → trace_cached c'.
Proof.
  intros [Hp Ht] Hc n h idx. rewrite <- Ht. intros Hl.
  destruct (Hc n h idx Hl) as (pm & Hpm & Hm). exists pm.
  by rewrite <- (permutation_view c c').
Qed.

Lemma specs_distinct_view c c' : same_programs c c' → specs_distinct c → specs_distinct c'.
Proof. intros [Hp Ht] Hc h prog. rewrite <- Hp. apply Hc. Qed.

(** X2: on every state reached from a fresh cache, the permutations held by
    the program cache and the translator's trace are in one-to-one
    correspondence: the module of permutation [idx] of program [h] is the
    one logged as [(h, idx)], every logged compilation is a permutation of
    the cache, and no permutation was compiled twice. *)
Theorem permutations_match_trace (calls : list Call) :
  let c := (run_calls skip_hashes calls empty_cache).2 in
  modules_logged c ∧ trace_cached c ∧ NoDup (compiled c).
Proof.
  intros c.
  assert (modules_logged c) as Hlog.
  { apply (run_calls_keeps modules_logged modules_logged_view
             GetProgram_modules_logged calls empty_cache).
    intros h idx pm. by rewrite permutation_modules. }
  assert (trace_cached c) as Hcached.
  { apply (run_calls_keeps trace_cached trace_cached_view
             GetProgram_trace_cached calls empty_cache).
    by intros n h idx. }
  split_and!; [done..|].
  apply NoDup_alt. intros n1 n2 [h idx] H1 H2.
  destruct (Hcached n1 h idx H1) as (pm1 & Hp1 & <-).
  destruct (Hcached n2 h idx H2) as (pm2 & Hp2 & <-).
  congruence.
Qed.

(** X3: on every state reached from a fresh cache, the permutations of one
    program have pairwise distinct specialization descriptors: a descriptor
    is never stored twice under the same content hash. *)
Theorem permutation_specs_are_distinct (calls : list Call) :
  specs_distinct (run_calls skip_hashes calls empty_cache).2.
Proof.
  apply (run_calls_keeps specs_distinct specs_distinct_view
           GetProgram_specs_distinct calls empty_cache).
  by intros h prog.
Qed.

(** X4: the program cache never evicts: after any history of draws and
    dispatches, run from any state, every program is still cached with the
    same info, its permutation list only grew at the end, and the
    translator's trace only grew at the end. *)
Theorem program_cache_only_grows (calls : list Call) (c : PipelineCache) :
  let c' := (run_calls skip_hashes calls c).2 in
  cache_extends c c' ∧ compiled c `prefix_of` compiled c'.
Proof.
  apply (run_calls_keeps (fun c' => cache_extends c c' ∧ compiled c `prefix_of` compiled c')).
  - intros c1 c2 [Hp Ht] [He Hpre]. split.
    + by apply (cache_extends_same c c1 c2).
    + by rewrite <- Ht.
  - intros s p b regs c1 [He Hpre]. split.
    + eapply cache_extends_trans; [exact He|]. apply GetProgram_resolved.
    + etrans; [exact Hpre|].
      destruct (GetProgram_trace s p b regs c1) as [->|[idx ->]]; [done|].
      by apply prefix_app_r.
  - split; [apply cache_extends_refl|done].
Qed.

(** ** Requests answered from the caches *)

Lemma BuildRuntimeInfo_compute regs k1 k2 :
  BuildRuntimeInfo Compute regs k1 = BuildRuntimeInfo Compute regs k2.
Proof. done. Qed.

(** X5: a draw is skipped in exactly two situations: the snapshot needs no
    draw (patch or no topology, fast-clear elimination, FMask
    decompression), or the stage loop resolves a stage it rejects.  Nothing
    else makes [GetGraphicsPipeline] return null, and the state of the
    cache has no say in it. *)
Theorem draw_skipped_iff (regs : Regs) (c : PipelineCache) :
  (GetGraphicsPipeline skip_hashes regs c).1 = None ↔
  no_draw_needed regs = true ∨
  ∃ i, (i < MaxShaderStages)%nat ∧ stage_rejected skip_hashes regs i = true.
Proof.
  rewrite GetGraphicsPipeline_null_iff, RefreshGraphicsKey_fails_iff.
  unfold no_draw_needed. rewrite !orb_true_iff, !bool_decide_eq_true. tauto.
Qed.

(** X6: a dispatch is idempotent on every state of the cache: repeating
    [GetComputePipeline] on the same snapshot returns the same pointer,
    translates nothing, creates no pipeline and leaves the compute key and
    the info and module slots as the first call set them. *)
Theorem dispatch_is_idempotent (regs : Regs) (c : PipelineCache) :
  let first := GetComputePipeline skip_hashes regs c in
  let second := GetComputePipeline skip_hashes regs first.2 in
  second.1 = first.1 ∧
  same_programs first.2 second.2 ∧
  pipeline_store second.2 = pipeline_store first.2 ∧
  compute_key second.2 = compute_key first.2 ∧
  ∀ i, infos second.2 i = infos first.2 i ∧ modules second.2 i = modules first.2 i.
Proof.
  remember (GetParams_cs (cs_program regs)) as p eqn:Hp.
  assert (∀ cf c1 pinfo m idx,
    ShouldSkipShader skip_hashes (hash p) = false →
    resolved_at c1 (hash p) (call_spec Compute regs c 0) idx m pinfo →
    program_cache cf = program_cache c1 →
    RefreshComputeKey skip_hashes regs cf
    = (true, set_compute_key (HashCombine (hash p) (Z.of_nat idx))
               (set_modules (assign 0%nat m (modules cf))
                  (set_infos (assign 0%nat (Some pinfo) (infos cf)) cf)))) as Hagain.
  { intros cf c1 pinfo m idx Hskip Hres Hcache.
    unfold RefreshComputeKey. cbv zeta. rewrite <- Hp, Hskip.
    apply (resolved_at_same c1 cf) in Hres; [|done].
    by rewrite (GetProgram_hit Compute p 0 regs cf idx m pinfo Hres). }
  cbv zeta. destruct (GetComputePipeline skip_hashes regs c) as [r cf] eqn:H1. simpl.
  unfold GetComputePipeline in H1.
  destruct (RefreshComputeKey skip_hashes regs c) as [ok c1'] eqn:Hr.
  destruct ok; simpl in H1.
  - unfold RefreshComputeKey in Hr. cbv zeta in Hr. rewrite <- Hp in Hr.
    destruct (ShouldSkipShader skip_hashes (hash p)) eqn:Hskip; [done|].
    pose proof (GetProgram_resolved Compute p 0 regs c) as [_ (idx & Hres & Hh & _)].
    destruct (GetProgram Compute p 0 regs c) as [[[[pinfo m] h] b1] c1] eqn:Hg.
    simpl in Hres, Hh. subst h. injection Hr as <-.
    assert (∀ cf, program_cache cf = program_cache c1 →
              RefreshComputeKey skip_hashes regs cf
              = (true, set_compute_key (HashCombine (hash p) (Z.of_nat idx))
                         (set_modules (assign 0%nat m (modules cf))
                            (set_infos (assign 0%nat (Some pinfo) (infos cf)) cf)))) as Hcf.
    { intros cf' Hcache. by apply (Hagain cf' c1 pinfo m idx). }
    simpl in H1.
    destruct (compute_pipelines c1 !! HashCombine (hash p) (Z.of_nat idx)) as [ptr|] eqn:Hl;
      injection H1 as <- <-.
    + unfold GetComputePipeline. rewrite Hcf by done. simpl. rewrite Hl. simpl.
      split_and!; try done.
      intros i. unfold assign. by destruct (decide (i = 0%nat)).
    + unfold GetComputePipeline. rewrite Hcf by done. simpl.
      rewrite lookup_insert_eq. simpl.
      split_and!; try done.
      intros i. unfold assign. by destruct (decide (i = 0%nat)).
  - injection H1 as <- <-.
    unfold RefreshComputeKey in Hr. cbv zeta in Hr. rewrite <- Hp in Hr.
    destruct (ShouldSkipShader skip_hashes (hash p)) eqn:Hskip;
      [|by destruct (GetProgram _ _ _ _ _) as [[[[? ?] ?] ?] ?]].
    injection Hr as <-. unfold GetComputePipeline, RefreshComputeKey. cbv zeta.
    rewrite <- Hp, Hskip. done.
Qed.

(** ** The mixing function and the runtime info *)

Lemma lxor_u64 (a b : Z) : 0 ≤ a < 2 ^ 64 → 0 ≤ b < 2 ^ 64 → 0 ≤ Z.lxor a b < 2 ^ 64.
Proof.
  intros Ha Hb.
  assert (0 ≤ Z.lxor a b) as Hnn by (apply Z.lxor_nonneg; lia).
  split; [done|].
  destruct (decide (Z.lxor a b = 0)) as [->|Hne]; [lia|].
  apply Z.log2_lt_pow2; [lia|].
  pose proof (Z.log2_lxor a b ltac:(lia) ltac:(lia)) as Hlog.
  assert (Z.log2 a < 64) as Hla.
  { destruct (decide (a = 0)) as [->|?]; [done|]. apply Z.log2_lt_pow2; lia. }
  assert (Z.log2 b < 64) as Hlb.
  { destruct (decide (b = 0)) as [->|?]; [done|]. apply Z.log2_lt_pow2; lia. }
  lia.
Qed.

(** X7: for a seed in [u64], [HashCombine] maps [u64] values to [u64] values
    and never maps two of them to the same result: the dedup hashes of the
    permutations of one program are pairwise distinct. *)
Theorem HashCombine_u64 (seed a b : Z) :
  0 ≤ seed < 2 ^ 64 → 0 ≤ a < 2 ^ 64 → 0 ≤ b < 2 ^ 64 →
  0 ≤ HashCombine seed a < 2 ^ 64 ∧
  (HashCombine seed a = HashCombine seed b ↔ a = b).
Proof.
  intros Hs Ha Hb. split.
  - unfold HashCombine. apply lxor_u64; [done|].
    unfold wrap64. apply Z.mod_pos_bound. lia.
  - split; [by apply HashCombine_inj|by intros ->].
Qed.

Local Ltac tauto_none :=
  solve [left; by simpl|right; left; by simpl|right; right; left; by simpl
        |right; right; right; by simpl].

Lemma add_output_app x y z w outs :
  add_output x y z w outs
  = outs ++ (if decide (x ≠ VsOutput.None ∨ y ≠ VsOutput.None ∨
                        z ≠ VsOutput.None ∨ w ≠ VsOutput.None)
             then [(x, y, z, w)] else []).
Proof. unfold add_output. case_decide; [done|by rewrite app_nil_r]. Qed.

(** X8: [GatherVertexOutputs] keeps the maps it is given and appends at
    most three, none of them empty; it appends nothing exactly when no
    output flag and no clip or cull distance is enabled. *)
Theorem GatherVertexOutputs_appends (outs : list VsOutputMap) (ctl : VsOutputControl) :
  ∃ new, GatherVertexOutputs outs ctl = outs ++ new ∧
         (length new ≤ 3)%nat ∧
         (empty_output_map ∉ new) ∧
         (new = [] ↔ no_vertex_outputs ctl).
Proof.
  unfold GatherVertexOutputs. rewrite !add_output_app, <- !app_assoc.
  eexists. split; [done|]. split_and!.
  - rewrite !length_app. repeat case_decide; simpl; lia.
  - unfold empty_output_map. intros Hin.
    repeat (apply elem_of_app in Hin as [Hin|Hin]);
      case_decide; try (by apply not_elem_of_nil in Hin);
      apply list_elem_of_singleton in Hin; naive_solver.
  - unfold no_vertex_outputs. split.
    + intros Hnil. apply app_eq_nil in Hnil as [H1 Hnil].
      apply app_eq_nil in Hnil as [H2 H3].
      assert (use_vtx_point_size ctl = false ∧ use_vtx_edge_flag ctl = false ∧
              use_vtx_gs_cut_flag ctl = false ∧ use_vtx_kill_flag ctl = false ∧
              use_vtx_render_target_idx ctl = false ∧ use_vtx_viewport_idx ctl = false)
        as (? & ? & ? & ? & ? & ?).
      { clear H2 H3. case_decide as Hd; [done|].
        destruct (use_vtx_point_size ctl), (use_vtx_edge_flag ctl),
          (use_vtx_gs_cut_flag ctl), (use_vtx_kill_flag ctl),
          (use_vtx_render_target_idx ctl), (use_vtx_viewport_idx ctl);
          try done; exfalso; apply Hd; naive_solver. }
      split_and!; try done.
      clear H1. unfold clip_or_cull in *.
      case_decide as Hd2; [done|]. case_decide as Hd3; [done|].
      intros i Hi.
      destruct i as [|[|[|[|[|[|[|[|i]]]]]]]]; try lia;
        destruct (IsClipDistEnabled ctl _) eqn:Hc in |- *;
        destruct (IsCullDistEnabled ctl _) eqn:Hu in |- *;
        try done; exfalso;
        [> (first [apply Hd2; rewrite ?Hc, ?Hu; solve [tauto_none]
                  |apply Hd3; rewrite ?Hc, ?Hu; solve [tauto_none]]) ..].
    + intros (-> & -> & -> & -> & -> & -> & Hcc). unfold clip_or_cull.
      destruct (Hcc 0%nat) as [-> ->]; [lia|]. destruct (Hcc 1%nat) as [-> ->]; [lia|].
      destruct (Hcc 2%nat) as [-> ->]; [lia|]. destruct (Hcc 3%nat) as [-> ->]; [lia|].
      destruct (Hcc 4%nat) as [-> ->]; [lia|]. destruct (Hcc 5%nat) as [-> ->]; [lia|].
      destruct (Hcc 6%nat) as [-> ->]; [lia|]. destruct (Hcc 7%nat) as [-> ->]; [lia|].
      repeat case_decide; naive_solver.
Qed.

Lemma BuildRuntimeInfo_key s regs k1 k2 :
  (s = Fragment → mrt_swizzles k1 = mrt_swizzles k2) →
  BuildRuntimeInfo s regs k1 = BuildRuntimeInfo s regs k2.
Proof. destruct s; simpl; try done. by intros ->. Qed.

(** X9: [GetProgram] reads of the key under construction only the colour
    swizzles, and those only for the fragment stage: on two states with the
    same program map and trace whose keys agree there, it returns the same
    info, module and dedup hash, moves the binding cursor alike and leaves
    the same program map and trace. *)
Theorem GetProgram_reads_only_swizzles (s : Stage) (p : ShaderParams) (b : Z)
    (regs : Regs) (c1 c2 : PipelineCache) :
  same_programs c1 c2 →
  (s = Fragment → mrt_swizzles (graphics_key c1) = mrt_swizzles (graphics_key c2)) →
  (GetProgram s p b regs c1).1 = (GetProgram s p b regs c2).1 ∧
  same_programs (GetProgram s p b regs c1).2 (GetProgram s p b regs c2).2.
Proof.
  intros Hsame Hkey. apply GetProgram_ext; [|done]. by apply BuildRuntimeInfo_key.
Qed.

(** ** Stage slots after a refresh *)

Lemma stage_step_slot regs i b c b' c' :
  (i < length (stage_hashes (graphics_key c)))%nat →
  stage_step skip_hashes regs i b c = (true, b', c') →
  match resolved_program regs i with
  | None => stage_slot c' i = (Some 0, None)
  | Some pgm =>
      (StageFromIndex i = Vertex ∨ StageFromIndex i = Fragment) ∧
      ∃ idx m pinfo,
        resolved_at c' (shader_hash (bininfo pgm))
          (call_spec (StageFromIndex i) regs c b) idx m pinfo ∧
        stage_slot c' i
        = (Some (HashCombine (shader_hash (bininfo pgm)) (Z.of_nat idx)), Some pinfo)
  end.
Proof.
  intros Hlen.
  assert (stage_slot (clear_stage i c) i = (Some 0, None)) as Hclear.
  { unfold stage_slot, clear_stage, assign. simpl.
    rewrite list_lookup_insert_eq by done. by rewrite decide_True. }
  unfold stage_step, resolved_program.
  destruct (IsStageEnabled regs i); simpl; [|by intros [= <- <-]].
  destruct (ProgramForStage regs i) as [pgm|]; [|by intros [= <- <-]].
  rewrite (bool_decide_not (Address pgm = 0)).
  destruct (bool_decide (Address pgm = 0)); simpl; [by intros [= <- <-]|].
  destruct (Valid (bininfo pgm)); simpl; [|by intros [= <- <-]].
  destruct (ShouldSkipShader _ _); [done|].
  destruct (bool_decide (StageFromIndex i ≠ Vertex)) eqn:Hv;
    destruct (bool_decide (StageFromIndex i ≠ Fragment)) eqn:Hf; simpl; try done.
  all: destruct (tess_bound regs); [done|].
  all: pose proof (GetProgram_resolved (StageFromIndex i) (GetParams pgm) b regs c)
         as [_ (idx & Hres & Hh & _)].
  all: pose proof (GetProgram_frame (StageFromIndex i) (GetParams pgm) b regs c)
         as (Hk & _ & _).
  all: destruct (GetProgram _ _ _ _ _) as [[[[pinfo m] h] b1] c1].
  all: simpl in Hres, Hh, Hk; intros [= <- <-].
  all: split;
    [first [apply bool_decide_eq_false in Hv | apply bool_decide_eq_false in Hf];
     destruct (decide (StageFromIndex i = Vertex));
     destruct (decide (StageFromIndex i = Fragment)); tauto|].
  all: exists idx, m, pinfo; split; [by apply (resolved_at_same c1)|].
  all: unfold stage_slot, assign; simpl.
  all: rewrite list_lookup_insert_eq by (by rewrite Hk).
  all: by rewrite decide_True, Hh.
Qed.

(** X10: after a successful refresh every stage slot is either zeroed or
    names a cached permutation.  A stage the loop does not resolve
    (disabled, no program, null address or invalid binary info) has hash 0
    and no info; a resolved stage is the vertex or the fragment stage, its
    key entry is the dedup hash of a permutation the program cache holds for
    its content hash, and its info is that program's. *)
Theorem refreshed_stage_slots (regs : Regs) (c : PipelineCache) (i : nat) :
  (i < MaxShaderStages)%nat →
  (RefreshGraphicsKey skip_hashes regs c).1 = true →
  let c' := (RefreshGraphicsKey skip_hashes regs c).2 in
  match resolved_program regs i with
  | None => stage_slot c' i = (Some 0, None)
  | Some pgm =>
      let h := shader_hash (bininfo pgm) in
      (StageFromIndex i = Vertex ∨ StageFromIndex i = Fragment) ∧
      ∃ idx pm prog,
        program_cache c' !! h = Some prog ∧
        program_modules prog !! idx = Some pm ∧
        stage_slot c' i = (Some (HashCombine h (Z.of_nat idx)), Some (info prog))
  end.
Proof.
  intros Hi. unfold RefreshGraphicsKey.
  set (c0 := set_graphics_key _ c).
  destruct (stage_loop skip_hashes regs (seq 0 MaxShaderStages) 0 c0)
    as [[ok b'] cl] eqn:Hloop.
  destruct ok; simpl; [|done]. intros _.
  assert (∀ k, stage_slot (set_graphics_key
                             (second_pass regs (seq 0 NumColorBuffers) 0
                                (set_mrt_mask k (graphics_key cl))) cl) i
               = stage_slot cl i) as Hfinal.
  { intros k. unfold stage_slot. simpl. by rewrite second_pass_stage_hashes. }
  rewrite Hfinal. clear Hfinal.
  revert Hloop. rewrite (seq_split_at MaxShaderStages i Hi), stage_loop_app.
  pose proof (stage_loop_hashes_length regs (seq 0 i) 0 c0) as Hlen.
  destruct (stage_loop skip_hashes regs (seq 0 i) 0 c0) as [[ok b1] c1].
  destruct ok; [|done]. simpl.
  destruct (stage_step skip_hashes regs i b1 c1) as [[ok b2] c2] eqn:Hstep.
  destruct ok; [|done]. intros Hrest.
  pose proof (stage_loop_other_slot regs (seq (S i) (MaxShaderStages - S i)) i b2 c2) as Ho.
  pose proof (stage_loop_extends regs (seq (S i) (MaxShaderStages - S i)) b2 c2) as Hext.
  rewrite Hrest in Ho, Hext. simpl in Ho, Hext.
  rewrite Ho by (rewrite elem_of_seq; lia).
  apply stage_step_slot in Hstep.
  - destruct (resolved_program regs i) as [pgm|]; [|done].
    destruct Hstep as (Hstage & idx & m & pinfo & Hres & Hslot).
    split; [done|].
    apply (resolved_at_extends _ cl) in Hres; [|done].
    destruct Hres as (prog & Hp & Hinfo & Hfind).
    apply list_find_Some in Hfind as (Hl & _).
    exists idx, {| module := m; spec := call_spec (StageFromIndex i) regs c1 b1 |}, prog.
    by rewrite Hinfo.
  - simpl in Hlen. rewrite Hlen. subst c0. simpl.
    rewrite first_pass_stage_hashes. simpl. by rewrite length_replicate.
Qed.

(** ** The colour formats and swizzles *)

Lemma stage_step_colour_state regs i b c :
  colour_state (graphics_key (stage_step skip_hashes regs i b c).2)
  = colour_state (graphics_key c).
Proof.
  unfold stage_step, clear_stage.
  repeat case_match; simplify_eq; simpl; try done.
  match goal with
  | E : GetProgram ?s ?p ?b ?r ?c = _ |- _ =>
      pose proof (GetProgram_graphics_key s p b r c) as Hk; rewrite E in Hk
  end.
  simpl in Hk. by rewrite Hk.
Qed.

Lemma stage_loop_colour_state regs stages b c :
  colour_state (graphics_key (stage_loop skip_hashes regs stages b c).2)
  = colour_state (graphics_key c).
Proof.
  revert b c. induction stages as [|i stages IH]; intros b c; simpl; [done|].
  pose proof (stage_step_colour_state regs i b c) as Hs.
  destruct (stage_step skip_hashes regs i b c) as [[ok b1] c1]; simpl in *.
  destruct ok; [by rewrite IH|done].
Qed.

(** The first pass writes the bound slots' formats and swizzles at
    consecutive indices from [r] on. *)
Lemma first_pass_packs regs cbs r k :
  let slots := bound_slots regs cbs in
  (r + length slots ≤ length (color_formats k))%nat →
  (r + length slots ≤ length (mrt_swizzles k))%nat →
  drop r (mrt_swizzles k) = replicate (length (mrt_swizzles k) - r) SwapStandard →
  color_formats (first_pass regs cbs r k)
  = take r (color_formats k) ++ map (slot_format regs) slots
    ++ drop (r + length slots) (color_formats k) ∧
  mrt_swizzles (first_pass regs cbs r k)
  = take r (mrt_swizzles k) ++ map (slot_swizzle regs) slots
    ++ drop (r + length slots) (mrt_swizzles k).
Proof.
  unfold bound_slots.
  revert r k. induction cbs as [|cb cbs IH]; intros r k; simpl.
  - intros _ _ _. rewrite Nat.add_0_r, !take_drop. done.
  - rewrite filter_cons.
    destruct (cb_unbound regs cb) eqn:Hcb.
    + rewrite decide_False by done. apply IH.
    + rewrite decide_True by done. simpl. intros Hf Hs Hstd.
      set (k1 := set_color_formats _ k).
      set (k2 := if decide _ then _ else _).
      assert (color_formats k2 = <[r := slot_format regs cb]> (color_formats k)) as Hcf.
      { subst k2 k1. by case_decide. }
      assert (mrt_swizzles k2 = <[r := slot_swizzle regs cb]> (mrt_swizzles k)) as Hsw.
      { assert (<[r := SwapStandard]> (mrt_swizzles k) = mrt_swizzles k) as Hid.
        { apply list_insert_id.
          rewrite <- (Nat.add_0_r r), <- lookup_drop, Hstd.
          apply lookup_replicate_2. lia. }
        assert (color_formats k1 !!! r = slot_format regs cb) as Hread.
        { subst k1. simpl. apply list_lookup_total_insert_eq. lia. }
        pose proof Hread as Hread'. unfold slot_format in Hread'. subst k1.
        simpl in Hread'. subst k2. unfold slot_swizzle, slot_format in *.
        repeat match goal with
               | |- context [@decide ?P ?i] => destruct (@decide P i) as [?|?]
               end; simpl; first [done|by rewrite Hid|congruence]. }
      destruct (IH (S r) k2) as [IHf IHs].
      { rewrite Hcf, length_insert. lia. }
      { rewrite Hsw, length_insert. lia. }
      { rewrite Hsw, length_insert, drop_insert_lt by lia.
        replace (S r) with (r + 1)%nat by lia.
        rewrite <- drop_drop, Hstd, drop_replicate. f_equal. lia. }
      rewrite IHf, IHs, Hcf, Hsw.
      split; by apply insert_take_drop_packed.
Qed.

Lemma bound_slots_length regs n : (length (bound_slots regs (seq 0 n)) ≤ n)%nat.
Proof.
  unfold bound_slots. etrans; [apply length_filter|]. by rewrite length_seq.
Qed.

(** The key the stage loop starts from. *)
Lemma first_pass_key_colours regs :
  let slots := bound_slots regs (seq 0 NumColorBuffers) in
  colour_state (first_pass regs (seq 0 NumColorBuffers) 0 (key_prologue regs))
  = (left_packed eUndefined (map (slot_format regs) slots),
     left_packed SwapStandard (map (slot_swizzle regs) slots)).
Proof.
  intros slots. pose proof (bound_slots_length regs NumColorBuffers) as Hlen.
  destruct (first_pass_packs regs (seq 0 NumColorBuffers) 0 (key_prologue regs))
    as [Hf Hs].
  { simpl. by rewrite length_replicate. }
  { simpl. by rewrite length_replicate. }
  { simpl. by rewrite length_replicate, Nat.sub_0_r. }
  unfold colour_state. rewrite Hf, Hs. simpl.
  unfold left_packed. fold slots. by rewrite !drop_replicate, !length_map.
Qed.

(** X11: the first colour pass compacts: the formats and swizzles of the
    colour buffers that are bound and unmasked are left-packed in their
    original order, the rest of both arrays holding the defaults, and this
    is the swizzle array the fragment stage's runtime info is built from. *)
Theorem first_pass_compacts (regs : Regs) :
  let k := first_pass regs (seq 0 NumColorBuffers) 0 (key_prologue regs) in
  let slots := bound_slots regs (seq 0 NumColorBuffers) in
  color_formats k = left_packed eUndefined (map (slot_format regs) slots) ∧
  mrt_swizzles k = left_packed SwapStandard (map (slot_swizzle regs) slots) ∧
  fs_mrt_swizzles (fs_info (BuildRuntimeInfo Fragment regs k))
  = left_packed SwapStandard (map (slot_swizzle regs) slots).
Proof.
  intros k slots. pose proof (first_pass_key_colours regs) as Hc.
  unfold colour_state in Hc. injection Hc as Hf Hs. by split_and!.
Qed.

Lemma clear_all_length {A} (d : A) cbs (l : list A) :
  length (clear_all d cbs l) = length l.
Proof.
  unfold clear_all. revert l. induction cbs as [|cb cbs IH]; intros l; simpl; [done|].
  by rewrite IH, length_insert.
Qed.

Lemma clear_all_lookup_ne {A} (d : A) cbs (l : list A) j :
  j ∉ cbs → clear_all d cbs l !! j = l !! j.
Proof.
  unfold clear_all. revert l. induction cbs as [|cb cbs IH]; intros l Hni; simpl; [done|].
  apply not_elem_of_cons in Hni as [Hne Hni].
  rewrite IH by done. by apply list_lookup_insert_ne.
Qed.

Lemma clear_all_lookup {A} (d : A) cbs (l : list A) j :
  j ∈ cbs → (j < length l)%nat → clear_all d cbs l !! j = Some d.
Proof.
  revert l. induction cbs as [|cb cbs IH]; intros l Hin Hlt.
  - by apply not_elem_of_nil in Hin.
  - destruct (decide (j ∈ cbs)) as [Hin'|Hni].
    + apply (IH (<[cb := d]> l) Hin'). by rewrite length_insert.
    + apply elem_of_cons in Hin as [->|Hin]; [|done].
      change (clear_all d (cb :: cbs) l) with (clear_all d cbs (<[cb := d]> l)).
      rewrite clear_all_lookup_ne by done. by apply list_lookup_insert_eq.
Qed.

(** The second pass clears the formats and swizzles of the slots that do
    not survive, at their hardware index, and touches no other entry. *)
Lemma second_pass_clears regs cbs r k :
  colour_state (second_pass regs cbs r k)
  = (clear_all eUndefined (cleared_slots regs (mrt_mask k) cbs) (color_formats k),
     clear_all SwapStandard (cleared_slots regs (mrt_mask k) cbs) (mrt_swizzles k)).
Proof.
  unfold cleared_slots.
  revert r k. induction cbs as [|cb cbs IH]; intros r k; simpl; [done|].
  rewrite filter_cons.
  destruct (cb_unbound regs cb || mrt_unused (mrt_mask k) cb) eqn:Hcb.
  - rewrite decide_True by done. by rewrite IH.
  - rewrite decide_False by done. by rewrite IH.
Qed.

(** The colour formats and swizzles of the key a successful refresh leaves. *)
Lemma RefreshGraphicsKey_colours regs c :
  (RefreshGraphicsKey skip_hashes regs c).1 = true →
  let k := graphics_key (RefreshGraphicsKey skip_hashes regs c).2 in
  let bound := bound_slots regs (seq 0 NumColorBuffers) in
  let cleared := cleared_slots regs (mrt_mask k) (seq 0 NumColorBuffers) in
  colour_state k
  = (clear_all eUndefined cleared (left_packed eUndefined (map (slot_format regs) bound)),
     clear_all SwapStandard cleared (left_packed SwapStandard (map (slot_swizzle regs) bound))).
Proof.
  unfold RefreshGraphicsKey.
  set (k0 := first_pass regs _ _ _).
  pose proof (stage_loop_colour_state regs (seq 0 MaxShaderStages) 0
                (set_graphics_key k0 c)) as Hp.
  destruct (stage_loop skip_hashes regs _ _ _) as [[ok b1] l1]. simpl in Hp.
  destruct ok; [|done]. intros _. cbn [fst snd]. simpl.
  rewrite second_pass_clears, second_pass_mrt_mask. simpl.
  subst k0. rewrite first_pass_key_colours in Hp.
  unfold colour_state in Hp. injection Hp as -> ->. done.
Qed.

Lemma left_packed_length {A} (d : A) (xs : list A) :
  (length xs ≤ NumColorBuffers)%nat → length (left_packed d xs) = NumColorBuffers.
Proof. intros Hle. unfold left_packed. rewrite length_app, length_replicate. lia. Qed.

Lemma cleared_slots_spec regs mask j :
  (j < NumColorBuffers)%nat →
  j ∈ cleared_slots regs mask (seq 0 NumColorBuffers)
  ↔ cb_unbound regs j || mrt_unused mask j = true.
Proof.
  intros Hj. unfold cleared_slots. rewrite list_elem_of_filter, elem_of_seq.
  split; [by intros [? _]|]. intros ?. split; [done|lia].
Qed.

(** Clearing the slots that do not survive, entry by entry. *)
Lemma clear_cleared_lookup `{!Inhabited A} regs mask (d : A) (l : list A) j :
  length l = NumColorBuffers → (j < NumColorBuffers)%nat →
  clear_all d (cleared_slots regs mask (seq 0 NumColorBuffers)) l !! j
  = Some (if cb_unbound regs j || mrt_unused mask j then d else l !!! j).
Proof.
  intros Hlen Hj.
  destruct (cb_unbound regs j || mrt_unused mask j) eqn:Hc.
  - apply clear_all_lookup; [by apply cleared_slots_spec|lia].
  - rewrite clear_all_lookup_ne.
    + apply list_lookup_lookup_total_lt. lia.
    + rewrite cleared_slots_spec by done. by rewrite Hc.
Qed.

(** X12: the colour formats and swizzles of the key after a successful
    refresh, entry by entry.  Entry [j] is cleared when the hardware slot
    [j] itself is unbound, masked or not written by the fragment stage;
    otherwise it still holds what the first pass packed there, the format
    and swizzle of the [j]-th bound slot. *)
Theorem refreshed_colour_formats (regs : Regs) (c : PipelineCache) (j : nat) :
  (RefreshGraphicsKey skip_hashes regs c).1 = true →
  (j < NumColorBuffers)%nat →
  let k := graphics_key (RefreshGraphicsKey skip_hashes regs c).2 in
  let bound := bound_slots regs (seq 0 NumColorBuffers) in
  color_formats k !! j
  = Some (if cb_unbound regs j || mrt_unused (mrt_mask k) j then eUndefined
          else left_packed eUndefined (map (slot_format regs) bound) !!! j) ∧
  mrt_swizzles k !! j
  = Some (if cb_unbound regs j || mrt_unused (mrt_mask k) j then SwapStandard
          else left_packed SwapStandard (map (slot_swizzle regs) bound) !!! j).
Proof.
  intros Hok Hj k bound.
  pose proof (RefreshGraphicsKey_colours regs c Hok) as Hc.
  unfold colour_state in Hc. injection Hc as Hf Hs. subst k bound.
  pose proof (bound_slots_length regs NumColorBuffers) as Hlen.
  rewrite Hf, Hs.
  split; apply clear_cleared_lookup; try done;
    apply left_packed_length; by rewrite length_map.
Qed.

Lemma filter_all {A} (P : A → Prop) `{!∀ x, Decision (P x)} (l : list A) :
  Forall P l → filter P l = l.
Proof.
  induction 1 as [|x l Hx Hl IH]; [done|].
  by rewrite filter_cons_True, IH.
Qed.

Lemma filter_seq_prefix (P : nat → Prop) `{!∀ x, Decision (P x)} (n m : nat) :
  (n ≤ m)%nat → (∀ j, (j < n)%nat → P j) →
  ∃ rest, filter P (seq 0 m) = seq 0 n ++ rest.
Proof.
  intros Hle HP. replace m with (n + (m - n))%nat by lia.
  rewrite seq_app, filter_app. eexists. f_equal.
  apply filter_all, Forall_forall. intros j Hin. apply elem_of_seq in Hin. apply HP. lia.
Qed.

Lemma left_packed_lookup_lt {A} (d : A) (xs : list A) j :
  (j < length xs)%nat → left_packed d xs !! j = xs !! j.
Proof. intros Hj. unfold left_packed. by apply lookup_app_l. Qed.

Lemma left_packed_lookup_ge {A} (d : A) (xs : list A) j :
  (length xs ≤ j < NumColorBuffers)%nat → left_packed d xs !! j = Some d.
Proof.
  intros Hj. unfold left_packed. rewrite lookup_app_r by lia.
  apply lookup_replicate_2. lia.
Qed.

(** X13: the compaction of the colour formats is right when the surviving
    slots have no gap below them: if the slots that are bound, unmasked and
    written by the fragment stage are exactly slots 0 to [n - 1], the key's
    formats and swizzles after a successful refresh are theirs, left-packed
    and followed by the defaults (for [n = 0], all defaults). *)
Theorem gap_free_colours_are_compacted (regs : Regs) (c : PipelineCache) (n : nat) :
  (RefreshGraphicsKey skip_hashes regs c).1 = true →
  let k := graphics_key (RefreshGraphicsKey skip_hashes regs c).2 in
  surviving_slots regs (mrt_mask k) = seq 0 n →
  color_formats k = left_packed eUndefined (map (slot_format regs) (seq 0 n)) ∧
  mrt_swizzles k = left_packed SwapStandard (map (slot_swizzle regs) (seq 0 n)).
Proof.
  intros Hok k Hsurv.
  pose proof (RefreshGraphicsKey_colours regs c Hok) as Hc.
  unfold colour_state in Hc. injection Hc as Hf Hs. fold k in Hf, Hs.
  set (mask := mrt_mask k) in *.
  pose proof (bound_slots_length regs NumColorBuffers) as Hblen.
  assert (∀ j, (j < NumColorBuffers)%nat →
            cb_unbound regs j || mrt_unused mask j = false ↔ (j < n)%nat) as Hcond.
  { intros j Hj. split.
    - intros Hc.
      assert (j ∈ surviving_slots regs mask) as Hin.
      { apply list_elem_of_filter. split; [done|]. apply elem_of_seq. lia. }
      rewrite Hsurv in Hin. apply elem_of_seq in Hin. lia.
    - intros Hlt.
      assert (j ∈ surviving_slots regs mask) as Hin.
      { rewrite Hsurv. apply elem_of_seq. lia. }
      by apply list_elem_of_filter in Hin as [? _]. }
  assert (n ≤ NumColorBuffers)%nat as Hn.
  { destruct (decide (n ≤ NumColorBuffers)%nat) as [|Hgt]; [done|].
    assert (NumColorBuffers ∈ surviving_slots regs mask) as Hin.
    { rewrite Hsurv, elem_of_seq. lia. }
    unfold surviving_slots, survivors in Hin.
    apply list_elem_of_filter in Hin as [_ Hin]. apply elem_of_seq in Hin. lia. }
  destruct (filter_seq_prefix (fun cb => cb_unbound regs cb = false) n NumColorBuffers Hn)
    as [rest Hbound].
  { intros j Hj. assert (j < NumColorBuffers)%nat as HjN by lia.
    apply (Hcond j HjN) in Hj. by apply orb_false_iff in Hj as [? _]. }
  fold (bound_slots regs (seq 0 NumColorBuffers)) in Hbound.
  assert (∀ (d : Z) (f : nat → Z),
    clear_all d (cleared_slots regs mask (seq 0 NumColorBuffers))
      (left_packed d (map f (bound_slots regs (seq 0 NumColorBuffers))))
    = left_packed d (map f (seq 0 n))) as Hpacked.
  { intros d f. apply list_eq. intros j.
    destruct (decide (j < NumColorBuffers)%nat) as [Hj|Hj].
    - rewrite clear_cleared_lookup;
        [|apply left_packed_length; by rewrite length_map|done].
      destruct (decide (j < n)%nat) as [Hlt|Hge].
      + rewrite (proj2 (Hcond j Hj) Hlt).
        rewrite left_packed_lookup_lt by (by rewrite length_map, length_seq).
        rewrite list_lookup_fmap, lookup_seq_lt by done. simpl. f_equal.
        apply list_lookup_total_correct.
        rewrite left_packed_lookup_lt
          by (rewrite length_map, Hbound, length_app, length_seq; lia).
        rewrite list_lookup_fmap, Hbound, lookup_app_l by (rewrite length_seq; lia).
        by rewrite lookup_seq_lt.
      + destruct (cb_unbound regs j || mrt_unused mask j) eqn:Hcb.
        * rewrite left_packed_lookup_ge; [done|]. rewrite length_map, length_seq. lia.
        * apply (Hcond j Hj) in Hcb. lia.
    - rewrite !lookup_ge_None_2; [done| |].
      + rewrite left_packed_length; [lia|]. rewrite length_map, length_seq. lia.
      + rewrite clear_all_length, left_packed_length; [lia|]. by rewrite length_map. }
  by rewrite Hf, Hs, !Hpacked.
Qed.

(** ** The compute key and the two request paths *)

(** X14: [RefreshComputeKey] fails exactly when the compute shader's hash is
    denylisted and then changes nothing; otherwise the compute key is the
    dedup hash of a permutation the program cache holds for the shader's
    content hash, specialised for binding 0, and slot 0 of the info and
    module arrays points to that program and that permutation's module. *)
Theorem refreshed_compute_key (regs : Regs) (c : PipelineCache) :
  let h := shader_hash (cs_bininfo (cs_program regs)) in
  let r := RefreshComputeKey skip_hashes regs c in
  if ShouldSkipShader skip_hashes h then r = (false, c)
  else
    r.1 = true ∧
    ∃ idx pm prog,
      program_cache r.2 !! h = Some prog ∧
      program_modules prog !! idx = Some pm ∧
      spec pm = call_spec Compute regs c 0 ∧
      compute_key r.2 = HashCombine h (Z.of_nat idx) ∧
      infos r.2 0%nat = Some (info prog) ∧
      modules r.2 0%nat = module pm.
Proof.
  intros h r. subst h r. unfold RefreshComputeKey. cbv zeta.
  change (hash (GetParams_cs (cs_program regs)))
    with (shader_hash (cs_bininfo (cs_program regs))).
  destruct (ShouldSkipShader skip_hashes _); [done|].
  pose proof (GetProgram_resolved Compute (GetParams_cs (cs_program regs)) 0 regs c)
    as [_ (idx & Hres & Hh & _)].
  destruct (GetProgram _ _ _ _ _) as [[[[pinfo m] hh] b1] c1].
  simpl in Hres, Hh. simpl. split; [done|].
  destruct Hres as (prog & Hp & Hinfo & Hfind).
  apply list_find_Some in Hfind as (Hl & _).
  exists idx, {| module := m; spec := call_spec Compute regs c 0 |}, prog.
  unfold assign. simpl. by rewrite Hinfo.
Qed.

Lemma stage_step_compute_key regs i b c :
  compute_key (stage_step skip_hashes regs i b c).2 = compute_key c.
Proof.
  unfold stage_step, clear_stage.
  repeat case_match; simplify_eq; simpl; try done.
  match goal with
  | E : GetProgram ?s ?p ?b ?r ?c = _ |- _ =>
      pose proof (GetProgram_frame s p b r c) as (_ & Hk & _); rewrite E in Hk
  end.
  done.
Qed.

Lemma stage_loop_compute_key regs stages b c :
  compute_key (stage_loop skip_hashes regs stages b c).2 = compute_key c.
Proof.
  revert b c. induction stages as [|i stages IH]; intros b c; simpl; [done|].
  pose proof (stage_step_compute_key regs i b c) as Hs.
  destruct (stage_step skip_hashes regs i b c) as [[ok b1] c1]; simpl in *.
  destruct ok; [by rewrite IH|done].
Qed.

Lemma RefreshGraphicsKey_compute_key regs c :
  compute_key (RefreshGraphicsKey skip_hashes regs c).2 = compute_key c.
Proof.
  unfold RefreshGraphicsKey.
  pose proof (stage_loop_compute_key regs (seq 0 MaxShaderStages) 0
                (set_graphics_key (first_pass regs (seq 0 NumColorBuffers) 0
                                     (key_prologue regs)) c)) as Hl.
  destruct (stage_loop _ _ _ _ _) as [[ok b1] c1]; simpl in *.
  by destruct ok.
Qed.

(** X15: the two request paths keep out of each other's state.  A draw
    leaves the compute key, the compute pipeline map and its pool as they
    were; a dispatch leaves the graphics key, the graphics pipeline map and
    its pool as they were, and of the info and module arrays the two paths
    share it overwrites slot 0 only. *)
Theorem requests_do_not_interfere (regs : Regs) (c : PipelineCache) :
  let d := (GetGraphicsPipeline skip_hashes regs c).2 in
  let q := (GetComputePipeline skip_hashes regs c).2 in
  (compute_key d = compute_key c ∧
   compute_pipelines d = compute_pipelines c ∧
   compute_pipeline_pool d = compute_pipeline_pool c) ∧
  (graphics_key q = graphics_key c ∧
   graphics_pipelines q = graphics_pipelines c ∧
   graphics_pipeline_pool q = graphics_pipeline_pool c ∧
   ∀ i, i ≠ 0%nat → infos q i = infos c i ∧ modules q i = modules c i).
Proof.
  intros d q. split.
  - pose proof (GetGraphicsPipeline_step regs c) as (Hm & Hp & _).
    split_and!; [|done..]. subst d. unfold GetGraphicsPipeline.
    repeat (case_bool_decide; [done|]).
    pose proof (RefreshGraphicsKey_compute_key regs c) as Hk.
    destruct (RefreshGraphicsKey skip_hashes regs c) as [ok c1]; simpl in *.
    destruct ok; simpl; [|done].
    by destruct (graphics_pipelines c1 !! graphics_key c1).
  - pose proof (GetComputePipeline_step regs c) as (Hm & Hp & _).
    assert (graphics_key q = graphics_key c ∧
            ∀ i, i ≠ 0%nat → infos q i = infos c i ∧ modules q i = modules c i) as [Hk Hi].
    { subst q. unfold GetComputePipeline, RefreshComputeKey.
      destruct (ShouldSkipShader _ _); [done|].
      pose proof (GetProgram_frame Compute (GetParams_cs (cs_program regs)) 0 regs c)
        as (Hk & _ & Hi & Hmod & _).
      destruct (GetProgram _ _ _ _ _) as [[[[pinfo m] hh] b1] c1]. simpl in *.
      destruct (compute_pipelines c1 !! hh); simpl; (split; [done|]);
        intros i Hne; unfold assign; rewrite !decide_False by done;
        by rewrite Hi, Hmod. }
    by split_and!.
Qed.

End Proofs.


(** C2 (counterexample): on [Sample.invalid_vs] the vertex stage is enabled
    with a bound program whose binary-info header is invalid, and yet the
    refresh succeeds and the draw gets a pipeline. *)
Lemma invalid_binary_info_does_not_abort :
  invalid_binary Sample.invalid_vs 1 ∧
  (RefreshGraphicsKey (H := Sample.externals) shipped_skip_hashes
     Sample.invalid_vs empty_cache).1 = true ∧
  (GetGraphicsPipeline (H := Sample.externals) shipped_skip_hashes
     Sample.invalid_vs empty_cache).1 = Some 0%nat.
Proof.
  split_and!.
  - split; [done|]. eexists. split_and!; [done|done|done].
  - by vm_compute.
  - by vm_compute.
Qed.

(** C2 (witness): the amended statement at [Sample.invalid_vs]. *)
Lemma invalid_binary_info_clears_stage_witness :
  (1 < 5)%nat ∧ invalid_binary Sample.invalid_vs 1 ∧
  stage_hashes (graphics_key (RefreshGraphicsKey (H := Sample.externals)
     shipped_skip_hashes Sample.invalid_vs empty_cache).2) !! 1%nat = Some 0.
Proof.
  assert (invalid_binary Sample.invalid_vs 1) as Hinv.
  { split; [done|]. eexists. split_and!; [done|done|done]. }
  split_and!; [lia|done|].
  apply (invalid_binary_info_clears_stage (H := Sample.externals) shipped_skip_hashes
           Sample.invalid_vs empty_cache 1%nat); [simpl; lia|done|].
  by vm_compute.
Defined.

(** C5 (counterexample): on [Sample.tess_only] the tessellation stage is
    enabled with a bound program, and the draw still gets a pipeline. *)
Lemma tess_bound_draw_not_skipped :
  tess_bound Sample.tess_only = true ∧
  (GetGraphicsPipeline (H := Sample.externals) shipped_skip_hashes
     Sample.tess_only empty_cache).1 = Some 0%nat.
Proof. split; by vm_compute. Qed.

(** C7 (witness): the denylist [[77]] and a dispatch of the denylisted
    compute shader. *)
Lemma denylisted_shader_never_compiled_witness :
  77 ∈ [77] ∧
  (GetComputePipeline (H := Sample.externals) [77]
     Sample.dispatch_77 empty_cache).1 = None.
Proof.
  assert (77 ∈ [77]) as Hin by apply list_elem_of_here.
  split; [done|].
  by apply (denylisted_shader_never_compiled (H := Sample.externals) [77] 77 Hin).
Defined.

(** C10: with the denylist as shipped (empty), [ShouldSkipShader] is false
    for every hash, the compute refresh succeeds on every snapshot and cache
    (no address or binary-info check guards it), and [GetComputePipeline]
    returns a pipeline. *)
Theorem shipped_denylist_never_skips `{Externals} (h : Z) (regs : Regs) (c : PipelineCache) :
  ShouldSkipShader shipped_skip_hashes h = false ∧
  (RefreshComputeKey shipped_skip_hashes regs c).1 = true ∧
  is_Some (GetComputePipeline shipped_skip_hashes regs c).1.
Proof.
  assert (∀ x, ShouldSkipShader shipped_skip_hashes x = false) as Hskip.
  { intros x. unfold ShouldSkipShader, shipped_skip_hashes.
    apply bool_decide_eq_false_2. apply not_elem_of_nil. }
  assert ((RefreshComputeKey shipped_skip_hashes regs c).1 = true) as Hok.
  { unfold RefreshComputeKey. rewrite Hskip.
    by destruct (GetProgram _ _ _ _ _) as [[[[pi m] hh] b1] c1]. }
  split_and!; [apply Hskip|done|].
  unfold GetComputePipeline.
  destruct (RefreshComputeKey shipped_skip_hashes regs c) as [ok c1]; simpl in *.
  subst ok; simpl.
  destruct (compute_pipelines c1 !! compute_key c1); simpl; eauto.
Qed.



(** C1 (the code at the failing inputs): with an unbound slot below a bound
    one, the write masks come out left-packed but the colour formats do not.
    On [Sample.gap_draw] the only surviving slot keeps its write mask at index 0
    and loses its format: every format is undefined.  On [Sample.gap_draw_two] the
    format of the surviving slot 1 is cleared while the format of slot 2,
    which the fragment stage does not reference, stays in the key. *)
Theorem color_formats_not_compacted :
  let r1 := RefreshGraphicsKey (H := Sample.externals) shipped_skip_hashes
              Sample.gap_draw empty_cache in
  let r2 := RefreshGraphicsKey (H := Sample.externals) shipped_skip_hashes
              Sample.gap_draw_two empty_cache in
  (r1.1 = true ∧
   surviving_slots (H := Sample.externals) Sample.gap_draw (mrt_mask (graphics_key r1.2)) = [1%nat] ∧
   write_masks (graphics_key r1.2) = left_packed (H := Sample.externals) 0 [15] ∧
   color_formats (graphics_key r1.2) = [0; 0; 0; 0; 0; 0; 0; 0] ∧
   color_formats (graphics_key r1.2) ≠ left_packed (H := Sample.externals) 0 [10]) ∧
  (r2.1 = true ∧
   surviving_slots (H := Sample.externals) Sample.gap_draw_two (mrt_mask (graphics_key r2.2))
   = [1%nat] ∧
   write_masks (graphics_key r2.2) = left_packed (H := Sample.externals) 0 [15] ∧
   color_formats (graphics_key r2.2) = [0; 20; 0; 0; 0; 0; 0; 0] ∧
   color_formats (graphics_key r2.2) ≠ left_packed (H := Sample.externals) 0 [10]).
Proof. by vm_compute. Qed.

(** C5 (witness): the amended statement on a draw with the tessellation
    stage bound and a valid vertex program. *)
Lemma unsupported_draw_is_skipped_witness :
  (tess_bound Sample.tess_and_vertex = true ∧
   ∃ i, (i < 5)%nat ∧ is_Some (resolved_program Sample.tess_and_vertex i)) ∧
  (GetGraphicsPipeline (H := Sample.externals) shipped_skip_hashes
     Sample.tess_and_vertex empty_cache).1 = None.
Proof.
  assert (tess_bound Sample.tess_and_vertex = true ∧
          ∃ i, (i < 5)%nat ∧ is_Some (resolved_program Sample.tess_and_vertex i)) as Hc.
  { split; [done|]. exists 1%nat. split; [lia|]. by eexists. }
  split; [done|].
  apply (unsupported_draw_is_skipped (H := Sample.externals) shipped_skip_hashes).
  do 4 right. exact Hc.
Defined.

(** The toy translator keeps the binding discipline. *)
Lemma sample_binding_discipline : binding_discipline (H := Sample.externals).
Proof.
  split.
  - intros code info0 ri b. reflexivity.
  - intros s1 p1 ri1 s2 p2 ri2 Hc Hh. simpl. by rewrite Hh.
Qed.

(** In the history of a dispatch of [Sample.dispatch_77] followed by the
    draw [Sample.two_stage_draw] the three programs have three content
    hashes. *)
Lemma sample_hash_identifies_code :
  hash_identifies_code (H := Sample.externals)
    ([Dispatch Sample.dispatch_77] ++ [Draw Sample.two_stage_draw]).
Proof.
  assert (∀ p, requested_by (H := Sample.externals)
                 ([Dispatch Sample.dispatch_77] ++ [Draw Sample.two_stage_draw]) p →
               p = GetParams_cs (Sample.compute_shader 77 true) ∨
               p = GetParams (Sample.shader 4096 5 true [1]) ∨
               p = GetParams (Sample.shader 8192 6 true [])) as Hreq.
  { intros p (call & Hin & Hr).
    apply elem_of_app in Hin as [Hin|Hin]; apply list_elem_of_singleton in Hin; subst call.
    - by left.
    - destruct Hr as (i & pgm & Hi & Hres & ->).
      do 5 (destruct i as [|i]; [vm_compute in Hres; simplify_eq; auto|]).
      simpl in Hi. lia. }
  intros p1 p2 H1 H2 Hh.
  destruct (Hreq p1 H1) as [-> | [-> | ->]];
    destruct (Hreq p2 H2) as [-> | [-> | ->]];
    first [done|discriminate Hh].
Qed.


(** The translator that counts code words keeps the binding discipline. *)
Lemma counting_binding_discipline : binding_discipline (H := Sample.code_counting).
Proof.
  split.
  - intros code info0 ri b. reflexivity.
  - intros s1 p1 ri1 s2 p2 ri2 Hc Hh. simpl. by rewrite Hc.
Qed.


(** The discipline is needed: with [Sample.undisciplined] the second refresh
    of [Sample.two_stage_draw] finds the vertex stage at another binding
    cursor, compiles a new permutation and builds a different key. *)
Example binding_discipline_is_needed :
  let first := RefreshGraphicsKey (H := Sample.undisciplined) shipped_skip_hashes
                 Sample.two_stage_draw empty_cache in
  let second := RefreshGraphicsKey (H := Sample.undisciplined) shipped_skip_hashes
                  Sample.two_stage_draw first.2 in
  first.1 = true ∧ second.1 = true ∧
  compiled first.2 = [(5, 0%nat); (6, 0%nat)] ∧
  compiled second.2 = [(5, 0%nat); (6, 0%nat); (6, 1%nat)] ∧
  stage_hashes (graphics_key second.2) ≠ stage_hashes (graphics_key first.2).
Proof. by vm_compute. Qed.

(** C6 (witness): two requests for content hash 5 on a fresh cache, at
    binding cursors 0 and 1. *)
Lemma dedup_hash_identifies_permutation_witness :
  let p := GetParams (Sample.shader 4096 5 true [1]) in
  let r1 := GetProgram (H := Sample.externals) Fragment p 0 Sample.two_stage_draw empty_cache in
  let r2 := GetProgram (H := Sample.externals) Fragment p 1 Sample.two_stage_draw r1.2 in
  hash p = hash p ∧
  cache_extends r1.2 r1.2 ∧
  Z.of_nat (permutation_count r2.2 (hash p)) ≤ 2 ^ 64 ∧
  ∃ idx1 idx2 : nat,
    r1.1.1.2 = HashCombine (hash p) (Z.of_nat idx1) ∧
    r2.1.1.2 = HashCombine (hash p) (Z.of_nat idx2) ∧
    idx1 ≠ idx2 ∧ r1.1.1.2 ≠ r2.1.1.2.
Proof.
  intros p r1 r2.
  assert (Z.of_nat (permutation_count r2.2 (hash p)) ≤ 2 ^ 64) as Hb by (by vm_compute).
  split_and!; [done|apply cache_extends_refl|done|].
  destruct (dedup_hash_identifies_permutation (H := Sample.externals)
              Fragment p 0 Sample.two_stage_draw empty_cache
              Fragment p 1 Sample.two_stage_draw r1.2
              eq_refl (cache_extends_refl r1.2) Hb)
    as (idx1 & idx2 & H1 & H2 & _ & _ & _ & _ & _ & Hne & _).
  exists idx1, idx2. split_and!; try done; apply Hne; by vm_compute.
Defined.

(** The two snapshots differ in the compute program only. *)
Lemma sample_regs_agree :
  regs_agree (H := Sample.externals) Sample.two_stage_draw Sample.two_stage_draw_other_cs.
Proof.
  constructor; try done.
  intros i _. split; [done|].
  do 6 (destruct i as [|i]; [done|]). done.
Qed.

(** C9 (witness): two snapshots that differ in the compute program, on two
    caches that differ in the stale key. *)
Lemma refresh_is_deterministic_witness :
  (Sample.externals.(@FragmentIndex) < Sample.externals.(@MaxShaderStages))%nat ∧
  regs_agree (H := Sample.externals) Sample.two_stage_draw Sample.two_stage_draw_other_cs ∧
  same_programs (H := Sample.externals) empty_cache
    (set_graphics_key (key_prologue (H := Sample.externals) Sample.gap_draw) empty_cache) ∧
  graphics_key (RefreshGraphicsKey (H := Sample.externals) shipped_skip_hashes
                  Sample.two_stage_draw empty_cache).2
  = graphics_key (RefreshGraphicsKey (H := Sample.externals) shipped_skip_hashes
                    Sample.two_stage_draw_other_cs
                    (set_graphics_key (key_prologue (H := Sample.externals) Sample.gap_draw)
                       empty_cache)).2.
Proof.
  assert (Sample.externals.(@FragmentIndex) < Sample.externals.(@MaxShaderStages))%nat
    as Hf by (simpl; lia).
  assert (same_programs (H := Sample.externals) empty_cache
            (set_graphics_key (key_prologue (H := Sample.externals) Sample.gap_draw) empty_cache))
    as Hs by done.
  split_and!; [done|exact sample_regs_agree|done|].
  apply (refresh_is_deterministic (H := Sample.externals) shipped_skip_hashes
           _ _ _ _ Hf sample_regs_agree Hs).
Defined.

(** X1 (witness): the write masks of
    [Sample.gap_draw_two]. *)
Lemma write_masks_and_blend_are_compacted_witness :
  (RefreshGraphicsKey (H := Sample.externals) shipped_skip_hashes
     Sample.gap_draw_two empty_cache).1 = true ∧
  write_masks (graphics_key (RefreshGraphicsKey (H := Sample.externals)
     shipped_skip_hashes Sample.gap_draw_two empty_cache).2)
  = [15; 0; 0; 0; 0; 0; 0; 0].
Proof.
  assert ((RefreshGraphicsKey (H := Sample.externals) shipped_skip_hashes
             Sample.gap_draw_two empty_cache).1 = true) as Hok by (by vm_compute).
  split; [done|].
  destruct (write_masks_and_blend_are_compacted (H := Sample.externals)
              shipped_skip_hashes Sample.gap_draw_two empty_cache Hok) as (_ & Hw & _).
  rewrite Hw. by vm_compute.
Defined.

(** X7 (witness): seed 5 and the permutation indices 0 and 1. *)
Lemma HashCombine_u64_witness :
  0 ≤ HashCombine 5 0 < 2 ^ 64 ∧ (HashCombine 5 0 = HashCombine 5 1 ↔ 0 = 1).
Proof. apply (HashCombine_u64 5 0 1); lia. Defined.

(** X9 (witness): the vertex program of [Sample.two_stage_draw] on a fresh
    cache and on one whose key has been filled in. *)
Lemma GetProgram_reads_only_swizzles_witness :
  let p := GetParams (Sample.shader 8192 6 true []) in
  let c1 := empty_cache (H := Sample.externals) in
  let c2 := set_graphics_key (key_prologue (H := Sample.externals) Sample.gap_draw) c1 in
  (GetProgram (H := Sample.externals) Vertex p 0 Sample.two_stage_draw c1).1
  = (GetProgram (H := Sample.externals) Vertex p 0 Sample.two_stage_draw c2).1 ∧
  same_programs (GetProgram (H := Sample.externals) Vertex p 0 Sample.two_stage_draw c1).2
                (GetProgram (H := Sample.externals) Vertex p 0 Sample.two_stage_draw c2).2.
Proof.
  intros p c1 c2.
  apply (GetProgram_reads_only_swizzles (H := Sample.externals) Vertex p 0
           Sample.two_stage_draw c1 c2).
  - by split.
  - intros Hs. discriminate Hs.
Defined.

(** X10 (witness): the vertex stage of [Sample.two_stage_draw]. *)
Lemma refreshed_stage_slots_witness :
  let c' := (RefreshGraphicsKey (H := Sample.externals) shipped_skip_hashes
               Sample.two_stage_draw empty_cache).2 in
  ∃ idx pm prog,
    program_cache c' !! 6 = Some prog ∧
    program_modules prog !! idx = Some pm ∧
    stage_slot c' 1 = (Some (HashCombine 6 (Z.of_nat idx)), Some (info prog)).
Proof.
  assert ((RefreshGraphicsKey (H := Sample.externals) shipped_skip_hashes
             Sample.two_stage_draw empty_cache).1 = true) as Hok by (by vm_compute).
  assert (1 < MaxShaderStages (Externals := Sample.externals))%nat as Hlt by (simpl; lia).
  exact (proj2 (refreshed_stage_slots (H := Sample.externals) shipped_skip_hashes
                  Sample.two_stage_draw empty_cache 1 Hlt Hok)).
Defined.

(** X12 (witness): entry 1 of the key of [Sample.gap_draw_two]. *)
Lemma refreshed_colour_formats_witness :
  let regs := Sample.gap_draw_two in
  let k := graphics_key (RefreshGraphicsKey (H := Sample.externals) shipped_skip_hashes
                           regs empty_cache).2 in
  let bound := bound_slots (H := Sample.externals) regs (seq 0 8) in
  color_formats k !! 1%nat
  = Some (if cb_unbound (H := Sample.externals) regs 1 || mrt_unused (mrt_mask k) 1 then 0
          else left_packed (H := Sample.externals) 0
                 (map (slot_format (H := Sample.externals) regs) bound) !!! 1%nat) ∧
  mrt_swizzles k !! 1%nat
  = Some (if cb_unbound (H := Sample.externals) regs 1 || mrt_unused (mrt_mask k) 1 then 0
          else left_packed (H := Sample.externals) 0
                 (map (slot_swizzle (H := Sample.externals) regs) bound) !!! 1%nat).
Proof.
  assert ((RefreshGraphicsKey (H := Sample.externals) shipped_skip_hashes
             Sample.gap_draw_two empty_cache).1 = true) as Hok by (by vm_compute).
  assert (1 < NumColorBuffers (Externals := Sample.externals))%nat as Hlt by (simpl; lia).
  exact (refreshed_colour_formats (H := Sample.externals) shipped_skip_hashes
           Sample.gap_draw_two empty_cache 1 Hok Hlt).
Defined.

(** X13 (witness): [Sample.two_stage_draw], whose only colour target is
    slot 0. *)
Lemma gap_free_colours_are_compacted_witness :
  let regs := Sample.two_stage_draw in
  let k := graphics_key (RefreshGraphicsKey (H := Sample.externals) shipped_skip_hashes
                           regs empty_cache).2 in
  color_formats k
  = left_packed (H := Sample.externals) 0
      (map (slot_format (H := Sample.externals) regs) (seq 0 1)) ∧
  mrt_swizzles k
  = left_packed (H := Sample.externals) 0
      (map (slot_swizzle (H := Sample.externals) regs) (seq 0 1)).
Proof.
  assert ((RefreshGraphicsKey (H := Sample.externals) shipped_skip_hashes
             Sample.two_stage_draw empty_cache).1 = true) as Hok by (by vm_compute).
  apply (gap_free_colours_are_compacted (H := Sample.externals) shipped_skip_hashes
           Sample.two_stage_draw empty_cache 1 Hok).
  by vm_compute.
Defined.
